(** * three-urdf: the URDF parser and the kinematic tree builder

    A shallow embedding of [src/parser.ts], [src/builder.ts] and
    [src/types.ts].

    - JavaScript numbers are idealised as real numbers (exact
      arithmetic, no NaN, no rounding); [parseFloat] is any function
      from strings to numbers.
    - Strings are sequences of code units below 256.
    - The pieces of three.js the builder calls ([Vector3], [Euler],
      [Quaternion]) are transcribed from the library (three/src/math,
      release 0.182, the peer dependency of the package).
    - The XML text is read by fast-xml-parser; the parser is embedded
      from the element tree that library returns.
    - A property read goes through the prototype chain where the
      source reads a name it does not fix, or reads from a value that
      is no element: [options.packageMap[packageName]] finds the
      members of [Object.prototype], and [robotEl.link] on a text leaf
      finds [String.prototype.link].  The other reads are of fixed
      names that no prototype holds.
    - The scene graph is a store of objects named by their index; the
      recursion of [buildLink], which nothing in the source bounds, is
      given fuel.
    - [loadRobot] is embedded up to the requests it makes to the STL
      loader, with the mesh each request is to add; what the loader
      answers, and when, is left out. *)

From Stdlib Require Import Reals Lra List String Ascii Bool Arith NArith Lia.
Import ListNotations.

(* ================================================================== *)
(** ** three.js math *)
(* ================================================================== *)

Module Three.

Local Open Scope R_scope.

Record Vector3 := mkVector3 { vx : R; vy : R; vz : R }.

(** The rotation orders three.js knows ([Euler.DEFAULT_ORDER] is XYZ). *)
Inductive EulerOrder := XYZ | YXZ | ZXY | ZYX | YZX | XZY.

Record Euler := mkEuler { ex : R; ey : R; ez : R; order : EulerOrder }.

Record Quaternion := mkQuaternion { qx : R; qy : R; qz : R; qw : R }.

(** [new Quaternion()] is the identity rotation. *)
Definition identityQuaternion : Quaternion := mkQuaternion 0 0 0 1.

(** [Vector3.length]. *)
Definition vlength (v : Vector3) : R :=
  sqrt (vx v * vx v + vy v * vy v + vz v * vz v).

(** [Vector3.multiplyScalar]. *)
Definition multiplyScalar (v : Vector3) (s : R) : Vector3 :=
  mkVector3 (vx v * s) (vy v * s) (vz v * s).

(** [Vector3.divideScalar (s)] is [multiplyScalar (1 / s)]. *)
Definition divideScalar (v : Vector3) (s : R) : Vector3 :=
  multiplyScalar v (1 / s).

(** [Vector3.normalize]: [this.divideScalar (this.length () || 1)];
    a length of zero is falsy and is replaced by one. *)
Definition normalize (v : Vector3) : Vector3 :=
  divideScalar v (if Req_dec_T (vlength v) 0 then 1 else vlength v).

(** [Vector3.addScaledVector (v, s)]. *)
Definition addScaledVector (this v : Vector3) (s : R) : Vector3 :=
  mkVector3 (vx this + vx v * s) (vy this + vy v * s) (vz this + vz v * s).

(** [Quaternion.setFromEuler]. *)
Definition setFromEuler (euler : Euler) : Quaternion :=
  let x := ex euler in
  let y := ey euler in
  let z := ez euler in
  let c1 := cos (x / 2) in
  let c2 := cos (y / 2) in
  let c3 := cos (z / 2) in
  let s1 := sin (x / 2) in
  let s2 := sin (y / 2) in
  let s3 := sin (z / 2) in
  match order euler with
  | XYZ => mkQuaternion (s1 * c2 * c3 + c1 * s2 * s3)
                        (c1 * s2 * c3 - s1 * c2 * s3)
                        (c1 * c2 * s3 + s1 * s2 * c3)
                        (c1 * c2 * c3 - s1 * s2 * s3)
  | YXZ => mkQuaternion (s1 * c2 * c3 + c1 * s2 * s3)
                        (c1 * s2 * c3 - s1 * c2 * s3)
                        (c1 * c2 * s3 - s1 * s2 * c3)
                        (c1 * c2 * c3 + s1 * s2 * s3)
  | ZXY => mkQuaternion (s1 * c2 * c3 - c1 * s2 * s3)
                        (c1 * s2 * c3 + s1 * c2 * s3)
                        (c1 * c2 * s3 + s1 * s2 * c3)
                        (c1 * c2 * c3 - s1 * s2 * s3)
  | ZYX => mkQuaternion (s1 * c2 * c3 - c1 * s2 * s3)
                        (c1 * s2 * c3 + s1 * c2 * s3)
                        (c1 * c2 * s3 - s1 * s2 * c3)
                        (c1 * c2 * c3 + s1 * s2 * s3)
  | YZX => mkQuaternion (s1 * c2 * c3 + c1 * s2 * s3)
                        (c1 * s2 * c3 + s1 * c2 * s3)
                        (c1 * c2 * s3 - s1 * s2 * c3)
                        (c1 * c2 * c3 - s1 * s2 * s3)
  | XZY => mkQuaternion (s1 * c2 * c3 - c1 * s2 * s3)
                        (c1 * s2 * c3 - s1 * c2 * s3)
                        (c1 * c2 * s3 + s1 * s2 * c3)
                        (c1 * c2 * c3 + s1 * s2 * s3)
  end.

(** [Quaternion.setFromAxisAngle (axis, angle)]; the library assumes
    the axis is normalized. *)
Definition setFromAxisAngle (axis : Vector3) (angle : R) : Quaternion :=
  let halfAngle := angle / 2 in
  let s := sin halfAngle in
  mkQuaternion (vx axis * s) (vy axis * s) (vz axis * s) (cos halfAngle).

(** [Quaternion.multiplyQuaternions (a, b)]; [a.multiply (b)] is
    [multiplyQuaternions (a, b)]. *)
Definition multiply (a b : Quaternion) : Quaternion :=
  let qax := qx a in let qay := qy a in let qaz := qz a in let qaw := qw a in
  let qbx := qx b in let qby := qy b in let qbz := qz b in let qbw := qw b in
  mkQuaternion (qax * qbw + qaw * qbx + qay * qbz - qaz * qby)
               (qay * qbw + qaw * qby + qaz * qbx - qax * qbz)
               (qaz * qbw + qaw * qbz + qax * qby - qay * qbx)
               (qaw * qbw - qax * qbx - qay * qby - qaz * qbz).

(** [Vector3.applyQuaternion (q)]: the vector rotated by the (unit)
    quaternion; this is how a node's [quaternion] acts on the points of
    its children. *)
Definition applyQuaternion (v : Vector3) (q : Quaternion) : Vector3 :=
  let tx := 2 * (qy q * vz v - qz q * vy v) in
  let ty := 2 * (qz q * vx v - qx q * vz v) in
  let tz := 2 * (qx q * vy v - qy q * vx v) in
  mkVector3 (vx v + qw q * tx + qy q * tz - qz q * ty)
            (vy v + qw q * ty + qz q * tx - qx q * tz)
            (vz v + qw q * tz + qx q * ty - qy q * tx).

(** Squared norms, used to say "unit". *)
Definition lengthSq (v : Vector3) : R :=
  vx v * vx v + vy v * vy v + vz v * vz v.

Definition qLengthSq (q : Quaternion) : R :=
  qx q * qx q + qy q * qy q + qz q * qz q + qw q * qw q.

(** *** Reference rotations, written from their textbook definitions *)

(** Rotation by [a] about the fixed X axis. *)
Definition rotX (a : R) (v : Vector3) : Vector3 :=
  mkVector3 (vx v)
            (cos a * vy v - sin a * vz v)
            (sin a * vy v + cos a * vz v).

(** Rotation by [a] about the fixed Y axis. *)
Definition rotY (a : R) (v : Vector3) : Vector3 :=
  mkVector3 (cos a * vx v + sin a * vz v)
            (vy v)
            (cos a * vz v - sin a * vx v).

(** Rotation by [a] about the fixed Z axis. *)
Definition rotZ (a : R) (v : Vector3) : Vector3 :=
  mkVector3 (cos a * vx v - sin a * vy v)
            (sin a * vx v + cos a * vy v)
            (vz v).

Definition dot (u v : Vector3) : R :=
  vx u * vx v + vy u * vy v + vz u * vz v.

Definition cross (u v : Vector3) : Vector3 :=
  mkVector3 (vy u * vz v - vz u * vy v)
            (vz u * vx v - vx u * vz v)
            (vx u * vy v - vy u * vx v).

(** Rotation by [a] about the unit axis [u] (Rodrigues' formula):
    [v cos a + (u x v) sin a + u (u . v) (1 - cos a)]. *)
Definition rotAxis (u : Vector3) (a : R) (v : Vector3) : Vector3 :=
  let k := dot u v * (1 - cos a) in
  let c := cross u v in
  mkVector3 (vx v * cos a + vx c * sin a + vx u * k)
            (vy v * cos a + vy c * sin a + vy u * k)
            (vz v * cos a + vz c * sin a + vz u * k).

End Three.

Import Three.

(* ================================================================== *)
(** ** JavaScript values the code relies on *)
(* ================================================================== *)

Module JS.

Local Open Scope string_scope.

(** A string is truthy when it is not empty. *)
Definition truthy (s : string) : bool := negb (s =? "").

(** [s.startsWith (p)]. *)
Definition startsWith (s p : string) : bool := String.prefix p s.

(** The rest of [s] after the prefix [p], when [s] starts with [p]. *)
Fixpoint stripPrefix (p s : string) : option string :=
  match p, s with
  | EmptyString, _ => Some s
  | String a p', String b s' =>
      if Ascii.eqb a b then stripPrefix p' s' else None
  | String _ _, EmptyString => None
  end.

(** White space and line terminators of ECMAScript among the code
    units below 256: TAB, LF, VT, FF, CR, SP and NBSP.  Both
    [String.prototype.trim] and the regular expression class [\s] use
    this set. *)
Definition isWhiteSpace (c : ascii) : bool :=
  let n := nat_of_ascii c in
  (((9 <=? n) && (n <=? 13)) || (n =? 32) || (n =? 160))%nat.

(** What the regular expression [.] does not match (no [s] flag): the
    line terminators LF and CR. *)
Definition isLineTerminator (c : ascii) : bool :=
  let n := nat_of_ascii c in ((n =? 10) || (n =? 13))%nat.

Fixpoint trimStart (s : string) : string :=
  match s with
  | EmptyString => EmptyString
  | String c s' => if isWhiteSpace c then trimStart s' else s
  end.

Fixpoint trimEnd (s : string) : string :=
  match s with
  | EmptyString => EmptyString
  | String c s' =>
      let t := trimEnd s' in
      if isWhiteSpace c && (t =? "") then "" else String c t
  end.

(** [s.trim ()]. *)
Definition trim (s : string) : string := trimEnd (trimStart s).

(** [s.split (/\s+/)]: [cur] is the piece being read, [inSep] tells
    that the previous code unit belonged to a separator. *)
Fixpoint splitLoop (s cur : string) (inSep : bool) : list string :=
  match s with
  | EmptyString => [cur]
  | String c s' =>
      if isWhiteSpace c then
        if inSep then splitLoop s' "" true
        else cur :: splitLoop s' "" true
      else splitLoop s' (cur ++ String c "") false
  end.

Definition splitWhitespace (s : string) : list string :=
  splitLoop s "" false.

(** [parts[i]] for an index inside the array. *)
Definition at_ (parts : list string) (i : nat) : string := nth i parts "".

(** *** [Map<string, V>]: entries in insertion order, keys unique *)

Definition Map (V : Type) : Type := list (string * V).

Fixpoint get {V} (m : Map V) (k : string) : option V :=
  match m with
  | [] => None
  | (k', v) :: m' => if k' =? k then Some v else get m' k
  end.

(** [m.set (k, v)]: a present key keeps its place, a new key goes last. *)
Fixpoint set {V} (m : Map V) (k : string) (v : V) : Map V :=
  match m with
  | [] => [(k, v)]
  | (k', v') :: m' =>
      if k' =? k then (k, v) :: m' else (k', v') :: set m' k v
  end.

Definition keys {V} (m : Map V) : list string := map fst m.
Definition values {V} (m : Map V) : list V := map snd m.

(** *** [Set<string>] *)

Definition StringSet : Type := list string.

Definition setHas (s : StringSet) (k : string) : bool :=
  existsb (String.eqb k) s.

Definition setAdd (s : StringSet) (k : string) : StringSet :=
  if setHas s k then s else (s ++ [k])%list.

(** *** A plain object used as a record of strings *)

(** [Record<string, string>] and the attribute object of an element:
    the own properties of a plain object. *)
Definition Dict : Type := list (string * string).

(** What every plain object inherits from [Object.prototype]: the name
    of each member with the text a template literal makes of it (a
    built-in function prints as V8 prints it; [__proto__] is
    [Object.prototype] itself).  All of them are truthy. *)
Definition objectPrototype : Dict :=
  [("constructor", "function Object() { [native code] }");
   ("__defineGetter__", "function __defineGetter__() { [native code] }");
   ("__defineSetter__", "function __defineSetter__() { [native code] }");
   ("hasOwnProperty", "function hasOwnProperty() { [native code] }");
   ("__lookupGetter__", "function __lookupGetter__() { [native code] }");
   ("__lookupSetter__", "function __lookupSetter__() { [native code] }");
   ("isPrototypeOf", "function isPrototypeOf() { [native code] }");
   ("propertyIsEnumerable", "function propertyIsEnumerable() { [native code] }");
   ("toString", "function toString() { [native code] }");
   ("valueOf", "function valueOf() { [native code] }");
   ("__proto__", "[object Object]");
   ("toLocaleString", "function toLocaleString() { [native code] }")].

(** [d[k]]: the own property, or else the member [Object.prototype]
    holds under that name. *)
Definition prop (d : Dict) (k : string) : option string :=
  match get d k with
  | Some v => Some v
  | None => get objectPrototype k
  end.

End JS.

(* ================================================================== *)
(** ** The element tree fast-xml-parser returns *)
(* ================================================================== *)

Module XML.

Local Open Scope string_scope.

Local Unset Elimination Schemes.

(** What a property of the parsed tree can hold with the options
    [parseURDF] passes: an element with attributes (grouped under the
    key [":@"]) and child properties, an array of elements for a
    repeated tag, or a text leaf (the empty string for an empty
    element without attributes; a leaf the library turns into a number
    or a boolean is not modelled).  Reading a property of a text leaf can also give
    a method every string inherits: [XMethod name] is
    [String.prototype[name]]. *)
Inductive XMLElement : Type :=
| XText (s : string)
| XNode (attrs : option JS.Dict) (children : list (string * XMLElement))
| XArray (items : list XMLElement)
| XMethod (name : string).
Local Set Elimination Schemes.

(** JavaScript truthiness of such a value. *)
Definition truthy (e : XMLElement) : bool :=
  match e with
  | XText s => JS.truthy s
  | XNode _ _ | XArray _ | XMethod _ => true
  end.

(** [element[name]] for the tag names the parser reads ([robot],
    [material], [link], [joint], [visual], [collision], [inertial],
    [self_collision_checking], [geometry], [origin], [box],
    [cylinder], [sphere], [mesh], [capsule], [color], [texture],
    [mass], [inertia], [parent], [child], [axis], [limit],
    [safety_controller], [dynamics], [mimic]).  An element holds its
    children.  A string, empty or not, has one of these names, [link]:
    the method [String.prototype.link].  No prototype of an object, an
    array or a function has any of them. *)
Definition member (element : XMLElement) (name : string) : option XMLElement :=
  match element with
  | XNode _ children => JS.get children name
  | XText _ => if name =? "link" then Some (XMethod "link") else None
  | XArray _ | XMethod _ => None
  end.

(** [element[":@"]] *)
Definition attributes (element : XMLElement) : option JS.Dict :=
  match element with
  | XNode attrs _ => attrs
  | XText _ | XArray _ | XMethod _ => None
  end.

(** [x || null] *)
Definition orNull (x : option XMLElement) : option XMLElement :=
  match x with
  | Some e => if truthy e then Some e else None
  | None => None
  end.

End XML.

Import XML.

(* ================================================================== *)
(** ** [src/types.ts] *)
(* ================================================================== *)

Module Types.

Record RPY := mkRPY { r : R; p : R; y : R }.

Record Pose := mkPose { xyz : Vector3; rpy : RPY }.

Record Color := mkColor { c_r : R; c_g : R; c_b : R; c_a : R }.

Record Material := mkMaterial {
  m_name : string;
  m_color : option Color;
  m_texture : option string }.

Record Inertia := mkInertia {
  ixx : R; ixy : R; ixz : R; iyy : R; iyz : R; izz : R }.

Record Inertial := mkInertial {
  i_origin : Pose;
  mass : R;
  inertia : Inertia }.

Inductive Geometry :=
| BoxGeometry (size : Vector3)
| CylinderGeometry (radius length : R)
| SphereGeometry (radius : R)
| MeshGeometry (filename : string) (scale : option Vector3)
| CapsuleGeometry (radius length : R).

(** [material?: Material | string] *)
Inductive MaterialRef :=
| MaterialName (name : string)
| MaterialInline (m : Material).

Record Visual := mkVisual {
  v_name : option string;
  v_origin : Pose;
  v_geometry : Geometry;
  v_material : option MaterialRef }.

Record Collision := mkCollision {
  col_name : option string;
  col_origin : Pose;
  col_geometry : Geometry }.

Record SelfCollision := mkSelfCollision {
  sc_origin : Pose;
  sc_geometry : Geometry }.

Record Link := mkLink {
  l_name : string;
  l_inertial : option Inertial;
  visuals : list Visual;
  collisions : list Collision;
  selfCollision : option SelfCollision }.

Record JointAxis := mkJointAxis { a_xyz : Vector3 }.

Record JointLimits := mkJointLimits {
  lower : option R;
  upper : option R;
  effort : option R;
  velocity : option R }.

Record SafetyController := mkSafetyController {
  softLowerLimit : option R;
  softUpperLimit : option R;
  kPosition : option R;
  kVelocity : option R }.

Record JointDynamics := mkJointDynamics {
  damping : option R;
  friction : option R }.

Record JointMimic := mkJointMimic {
  mimic_joint : string;
  multiplier : option R;
  offset : option R }.

(** [type] is declared as the union of the six names revolute,
    continuous, prismatic, fixed, floating and planar; the parser
    stores the attribute as it is (a cast), so the field is the
    string. *)
Record Joint := mkJoint {
  j_name : string;
  j_type : string;
  parent : string;
  child : string;
  origin : Pose;
  axis : option JointAxis;
  limits : option JointLimits;
  safetyController : option SafetyController;
  dynamics : option JointDynamics;
  mimic : option JointMimic }.

Record RobotModel := mkRobotModel {
  name : string;
  materials : JS.Map Material;
  links : JS.Map Link;
  joints : JS.Map Joint;
  rootLink : option string }.

Record ParseURDFOptions := mkParseURDFOptions {
  packageMap : option JS.Dict;
  workingPath : option string;
  ignoreGazebo : option bool;
  ignoreTransmission : option bool }.

End Types.

Import Types.

(* ================================================================== *)
(** ** Exceptions *)
(* ================================================================== *)

(** A computation that returns a value or throws [new Error (msg)]. *)
Inductive Result (A : Type) : Type :=
| Ok (a : A)
| Throw (msg : string).

Arguments Ok {A} a.
Arguments Throw {A} msg.

Definition bind {A B} (m : Result A) (k : A -> Result B) : Result B :=
  match m with
  | Ok a => k a
  | Throw msg => Throw msg
  end.

Notation "x <- m ;; k" := (bind m (fun x => k))
  (at level 61, m at next level, right associativity).

(** [for (const x of xs) body (x)] over an accumulator, stopping at the
    first exception. *)
Fixpoint forOf {A S} (xs : list A) (body : S -> A -> Result S) (s : S) : Result S :=
  match xs with
  | [] => Ok s
  | x :: rest => s' <- body s x ;; forOf rest body s'
  end.

(* ================================================================== *)
(** ** [src/parser.ts] *)
(* ================================================================== *)

Section Parser.

Local Open Scope string_scope.

(** The global [parseFloat]. *)
Variable parseFloat : string -> R.

Definition parseVector3 (str : string) : Result Vector3 :=
  let parts := JS.splitWhitespace (JS.trim str) in
  if negb (List.length parts =? 3)%nat then
    Throw ("Invalid vector3 format: " ++ str)
  else
    Ok (mkVector3 (parseFloat (JS.at_ parts 0))
                  (parseFloat (JS.at_ parts 1))
                  (parseFloat (JS.at_ parts 2))).

Definition parseRPY (str : string) : Result RPY :=
  let parts := JS.splitWhitespace (JS.trim str) in
  if negb (List.length parts =? 3)%nat then
    Throw ("Invalid RPY format: " ++ str)
  else
    Ok (mkRPY (parseFloat (JS.at_ parts 0))
              (parseFloat (JS.at_ parts 1))
              (parseFloat (JS.at_ parts 2))).

(** [element[":@"] || {}] *)
Definition getAttributes (element : XMLElement) : JS.Dict :=
  match XML.attributes element with
  | Some attrs => attrs
  | None => []
  end.

(** [attrs[name] ?? defaultValue ?? ""] *)
Definition getAttribute (element : XMLElement) (name : string)
           (defaultValue : option string) : string :=
  match JS.prop (getAttributes element) name with
  | Some v => v
  | None => match defaultValue with Some d => d | None => "" end
  end.

Definition getChild (element : XMLElement) (name : string) : option XMLElement :=
  match XML.member element name with
  | Some (XArray items) => XML.orNull (nth_error items 0)
  | c => XML.orNull c
  end.

Definition getChildren (element : XMLElement) (name : string) : list XMLElement :=
  match XML.orNull (XML.member element name) with
  | None => []
  | Some (XArray items) => items
  | Some c => [c]
  end.

(** [s || d] on an attribute that may be missing. *)
Definition orDefault (s : option string) (d : string) : string :=
  match s with
  | Some v => if JS.truthy v then v else d
  | None => d
  end.

Definition parseOrigin (element : XMLElement) : Result Pose :=
  let attrs := getAttributes element in
  let xyzStr := orDefault (JS.prop attrs "xyz") "0 0 0" in
  let rpyStr := orDefault (JS.prop attrs "rpy") "0 0 0" in
  xyz <- parseVector3 xyzStr ;;
  rpy <- parseRPY rpyStr ;;
  Ok (mkPose xyz rpy).

Definition parseColor (element : XMLElement) : Result Color :=
  let attrs := getAttributes element in
  let rgbaStr := orDefault (JS.prop attrs "rgba") "0 0 0 1" in
  let parts := JS.splitWhitespace (JS.trim rgbaStr) in
  if negb (List.length parts =? 4)%nat then
    Throw ("Invalid color format: " ++ rgbaStr)
  else
    Ok (mkColor (parseFloat (JS.at_ parts 0))
                (parseFloat (JS.at_ parts 1))
                (parseFloat (JS.at_ parts 2))
                (parseFloat (JS.at_ parts 3))).

Definition parseMaterial (element : XMLElement) : Result Material :=
  let name := getAttribute element "name" None in
  if negb (JS.truthy name) then
    Throw "Material element missing name attribute"
  else
    let colorEl := getChild element "color" in
    let textureEl := getChild element "texture" in
    color <- match colorEl with
             | Some el => c <- parseColor el ;; Ok (Some c)
             | None => Ok None
             end ;;
    let texture :=
      match textureEl with
      | Some el =>
          let filename := getAttribute el "filename" None in
          if JS.truthy filename then Some filename else None
      | None => None
      end in
    Ok (mkMaterial name color texture).

(** The zero pose [{ xyz: new Vector3 (0, 0, 0), rpy: { r: 0, p: 0, y: 0 } }]. *)
Definition zeroPose : Pose := mkPose (mkVector3 0 0 0) (mkRPY 0 0 0).

(** [el ? parseOrigin (el) : zeroPose] *)
Definition parseOriginOpt (originEl : option XMLElement) : Result Pose :=
  match originEl with
  | Some el => parseOrigin el
  | None => Ok zeroPose
  end.

(** The part of a string before its first [c] and the part after it. *)
Fixpoint splitAtFirst (c : ascii) (s : string) : option (string * string) :=
  match s with
  | EmptyString => None
  | String a s' =>
      if Ascii.eqb a c then Some ("", s')
      else match splitAtFirst c s' with
           | Some (before, after) => Some (String a before, after)
           | None => None
           end
  end.

Fixpoint stringForall (f : ascii -> bool) (s : string) : bool :=
  match s with
  | EmptyString => true
  | String a s' => f a && stringForall f s'
  end.

(** [filename.match (/^package:\/\/([^/]+)\/(.+)$/)]: the two groups
    when the expression matches.  The first group cannot contain a
    slash and a slash must follow it, so it is the text up to the
    first slash after the scheme; the second group is the rest, one or
    more code units none of which is a line terminator. *)
Definition matchPackageURI (filename : string) : option (string * string) :=
  match JS.stripPrefix "package://" filename with
  | None => None
  | Some rest =>
      match splitAtFirst "/"%char rest with
      | None => None
      | Some (packageName, path) =>
          if JS.truthy packageName && JS.truthy path
             && stringForall (fun c => negb (JS.isLineTerminator c)) path
          then Some (packageName, path) else None
      end
  end.

(** The mesh branch of [parseGeometry] from the [filename] attribute to
    the resolved file name (the two blocks "Resolve package:// URIs"
    and "Resolve relative paths"). *)
Definition resolveFilename (options : ParseURDFOptions) (filename0 : string) : string :=
  let filename1 :=
    if JS.startsWith filename0 "package://" then
      match matchPackageURI filename0 with
      | Some (packageName, path) =>
          match packageMap options with
          | Some map =>
              match JS.prop map packageName with
              | Some mapped =>
                  if JS.truthy mapped then mapped ++ "/" ++ path else filename0
              | None => filename0
              end
          | None => filename0
          end
      | None => filename0
      end
    else filename0 in
  if JS.truthy filename1
     && negb (JS.startsWith filename1 "package://")
     && negb (JS.startsWith filename1 "/")
  then
    match workingPath options with
    | Some wp => if JS.truthy wp then wp ++ "/" ++ filename1 else filename1
    | None => filename1
    end
  else filename1.

Definition parseGeometry (element : XMLElement) (options : ParseURDFOptions)
  : Result Geometry :=
  let boxEl := getChild element "box" in
  let cylinderEl := getChild element "cylinder" in
  let sphereEl := getChild element "sphere" in
  let meshEl := getChild element "mesh" in
  let capsuleEl := getChild element "capsule" in
  match boxEl, cylinderEl, sphereEl, meshEl, capsuleEl with
  | Some boxEl, _, _, _, _ =>
      let sizeStr := getAttribute boxEl "size" (Some "1 1 1") in
      size <- parseVector3 sizeStr ;;
      Ok (BoxGeometry size)
  | None, Some cylinderEl, _, _, _ =>
      let radius := parseFloat (getAttribute cylinderEl "radius" (Some "0.5")) in
      let length := parseFloat (getAttribute cylinderEl "length" (Some "1")) in
      Ok (CylinderGeometry radius length)
  | None, None, Some sphereEl, _, _ =>
      let radius := parseFloat (getAttribute sphereEl "radius" (Some "0.5")) in
      Ok (SphereGeometry radius)
  | None, None, None, Some meshEl, _ =>
      let filename := resolveFilename options (getAttribute meshEl "filename" (Some "")) in
      let scaleStr := getAttribute meshEl "scale" None in
      if JS.truthy scaleStr then
        scale <- parseVector3 scaleStr ;;
        Ok (MeshGeometry filename (Some scale))
      else Ok (MeshGeometry filename None)
  | None, None, None, None, Some capsuleEl =>
      let radius := parseFloat (getAttribute capsuleEl "radius" (Some "0.5")) in
      let length := parseFloat (getAttribute capsuleEl "length" (Some "1")) in
      Ok (CapsuleGeometry radius length)
  | None, None, None, None, None =>
      Throw "Unknown geometry type"
  end.

Definition parseInertial (element : XMLElement) : Result Inertial :=
  let originEl := getChild element "origin" in
  let massEl := getChild element "mass" in
  let inertiaEl := getChild element "inertia" in
  origin <- parseOriginOpt originEl ;;
  let mass :=
    match massEl with
    | Some el => parseFloat (getAttribute el "value" (Some "0"))
    | None => 0%R
    end in
  let inertia :=
    match inertiaEl with
    | Some el =>
        mkInertia (parseFloat (getAttribute el "ixx" (Some "0")))
                  (parseFloat (getAttribute el "ixy" (Some "0")))
                  (parseFloat (getAttribute el "ixz" (Some "0")))
                  (parseFloat (getAttribute el "iyy" (Some "0")))
                  (parseFloat (getAttribute el "iyz" (Some "0")))
                  (parseFloat (getAttribute el "izz" (Some "0")))
    | None => mkInertia 0 0 0 0 0 0
    end in
  Ok (mkInertial origin mass inertia).

Definition parseVisual (element : XMLElement) (options : ParseURDFOptions)
  : Result Visual :=
  let name := getAttribute element "name" None in
  let originEl := getChild element "origin" in
  let geometryEl := getChild element "geometry" in
  let materialEl := getChild element "material" in
  match geometryEl with
  | None => Throw "Visual element missing geometry"
  | Some geometryEl =>
      origin <- parseOriginOpt originEl ;;
      geometry <- parseGeometry geometryEl options ;;
      let material :=
        match materialEl with
        | Some el =>
            let materialName := getAttribute el "name" None in
            if JS.truthy materialName then Some (MaterialName materialName) else None
        | None => None
        end in
      Ok (mkVisual (if JS.truthy name then Some name else None)
                   origin geometry material)
  end.

Definition parseCollision (element : XMLElement) (options : ParseURDFOptions)
  : Result Collision :=
  let name := getAttribute element "name" None in
  let originEl := getChild element "origin" in
  let geometryEl := getChild element "geometry" in
  match geometryEl with
  | None => Throw "Collision element missing geometry"
  | Some geometryEl =>
      origin <- parseOriginOpt originEl ;;
      geometry <- parseGeometry geometryEl options ;;
      Ok (mkCollision (if JS.truthy name then Some name else None)
                      origin geometry)
  end.

Definition parseLink (element : XMLElement) (options : ParseURDFOptions)
  : Result Link :=
  let name := getAttribute element "name" None in
  if negb (JS.truthy name) then
    Throw "Link element missing name attribute"
  else
    inertial <- match getChild element "inertial" with
                | Some el => i <- parseInertial el ;; Ok (Some i)
                | None => Ok None
                end ;;
    visuals <- forOf (getChildren element "visual")
                     (fun acc visualEl =>
                        v <- parseVisual visualEl options ;; Ok (acc ++ [v])%list)
                     [] ;;
    collisions <- forOf (getChildren element "collision")
                        (fun acc collisionEl =>
                           c <- parseCollision collisionEl options ;;
                           Ok (acc ++ [c])%list)
                        [] ;;
    selfCollision <-
      match getChild element "self_collision_checking" with
      | Some selfCollisionEl =>
          let originEl := getChild selfCollisionEl "origin" in
          match getChild selfCollisionEl "geometry" with
          | Some geometryEl =>
              origin <- parseOriginOpt originEl ;;
              geometry <- parseGeometry geometryEl options ;;
              Ok (Some (mkSelfCollision origin geometry))
          | None => Ok None
          end
      | None => Ok None
      end ;;
    Ok (mkLink name inertial visuals collisions selfCollision).

(** [attrs.k !== undefined ? parseFloat (attrs.k) : undefined] *)
Definition optFloat (attrs : JS.Dict) (k : string) : option R :=
  match JS.prop attrs k with
  | Some v => Some (parseFloat v)
  | None => None
  end.

Definition parseJointLimits (element : XMLElement) : JointLimits :=
  let attrs := getAttributes element in
  mkJointLimits (optFloat attrs "lower") (optFloat attrs "upper")
                (optFloat attrs "effort") (optFloat attrs "velocity").

Definition parseSafetyController (element : XMLElement) : SafetyController :=
  let attrs := getAttributes element in
  mkSafetyController (optFloat attrs "soft_lower_limit")
                     (optFloat attrs "soft_upper_limit")
                     (optFloat attrs "k_position")
                     (optFloat attrs "k_velocity").

Definition parseJointDynamics (element : XMLElement) : JointDynamics :=
  let attrs := getAttributes element in
  mkJointDynamics (optFloat attrs "damping") (optFloat attrs "friction").

Definition parseJointAxis (element : XMLElement) : Result JointAxis :=
  let xyzStr := getAttribute element "xyz" (Some "0 0 1") in
  xyz <- parseVector3 xyzStr ;;
  Ok (mkJointAxis xyz).

Definition parseJoint (element : XMLElement) (options : ParseURDFOptions)
  : Result Joint :=
  let name := getAttribute element "name" None in
  if negb (JS.truthy name) then
    Throw "Joint element missing name attribute"
  else
    let type := getAttribute element "type" None in
    if negb (JS.truthy type) then
      Throw "Joint element missing type attribute"
    else
      match getChild element "parent", getChild element "child" with
      | Some parentEl, Some childEl =>
          let parent := getAttribute parentEl "link" None in
          let child := getAttribute childEl "link" None in
          if negb (JS.truthy parent) || negb (JS.truthy child) then
            Throw "Joint parent or child missing link attribute"
          else
            origin <- parseOriginOpt (getChild element "origin") ;;
            axis <- match getChild element "axis" with
                    | Some axisEl => a <- parseJointAxis axisEl ;; Ok (Some a)
                    | None => Ok None
                    end ;;
            let limits := option_map parseJointLimits (getChild element "limit") in
            let safetyController :=
              option_map parseSafetyController (getChild element "safety_controller") in
            let dynamics := option_map parseJointDynamics (getChild element "dynamics") in
            let mimic :=
              match getChild element "mimic" with
              | Some mimicEl =>
                  let jointName := getAttribute mimicEl "joint" None in
                  let multiplier := getAttribute mimicEl "multiplier" None in
                  let offset := getAttribute mimicEl "offset" None in
                  Some (mkJointMimic
                          jointName
                          (if JS.truthy multiplier then Some (parseFloat multiplier) else None)
                          (if JS.truthy offset then Some (parseFloat offset) else None))
              | None => None
              end in
            Ok (mkJoint name type parent child origin axis limits
                        safetyController dynamics mimic)
      | _, _ => Throw "Joint missing parent or child link"
      end.

(** The loop that looks for the root link: the first name of
    [model.links.keys ()] that [childLinks] does not hold. *)
Fixpoint findRootLink (childLinks : JS.StringSet) (linkNames : list string)
  : option string :=
  match linkNames with
  | [] => None
  | linkName :: rest =>
      if negb (JS.setHas childLinks linkName) then Some linkName
      else findRootLink childLinks rest
  end.

(** [parseURDF] from the tree [parser.parse (urdfString)] returns. *)
Definition parseURDF (parsed : XMLElement) (options : ParseURDFOptions)
  : Result RobotModel :=
  match XML.orNull (XML.member parsed "robot") with
  | None => Throw "URDF document missing <robot> root element"
  | Some robotEl =>
      let robotName := orDefault (Some (getAttribute robotEl "name" None)) "robot" in
      materials <- forOf (getChildren robotEl "material")
                         (fun acc materialEl =>
                            material <- parseMaterial materialEl ;;
                            Ok (JS.set acc (m_name material) material))
                         [] ;;
      links <- forOf (getChildren robotEl "link")
                     (fun acc linkEl =>
                        link <- parseLink linkEl options ;;
                        Ok (JS.set acc (l_name link) link))
                     [] ;;
      joints <- forOf (getChildren robotEl "joint")
                      (fun acc jointEl =>
                         joint <- parseJoint jointEl options ;;
                         Ok (JS.set acc (j_name joint) joint))
                      [] ;;
      let childLinks :=
        fold_left (fun set joint => JS.setAdd set (child joint))
                  (JS.values joints) [] in
      Ok (mkRobotModel robotName materials links joints
                       (findRootLink childLinks (JS.keys links)))
  end.

End Parser.

(* ================================================================== *)
(** ** [src/builder.ts] *)
(* ================================================================== *)

Module Builder.

Local Open Scope string_scope.
Local Open Scope R_scope.

Record BuildRobotOptions := mkBuildRobotOptions {
  jointRadius : option R;
  jointColor : option N;
  linkColor : option N;
  convertToYUp : option bool;
  showDebug : option bool }.

(** The objects of the scene live in a store and are named by their
    index in it; [children] holds such indices. *)
Definition ObjectId := nat.

(** The part of a three.js [Object3D] the builder touches. *)
Record Object3D := mkObject3D {
  name : string;
  position : Vector3;
  quaternion : Quaternion;
  children : list ObjectId }.

(** [new Object3D ()], [new Group ()], [new Mesh (..)] before a name is
    given. *)
Definition newObject3D : Object3D :=
  mkObject3D "" (mkVector3 0 0 0) identityQuaternion [].

(** [URDFJoint extends Object3D].  The last two fields are not
    properties of the object: they are the variables [jointData] and
    [originQuaternion] that its [setJointValue] closure captured. *)
Record URDFJoint := mkURDFJoint {
  object3D : Object3D;
  jointType : string;
  axis : Vector3;
  jointName : string;
  limits : option JointLimits;
  jointValue : R;
  jointData : Joint;
  originQuaternion : Quaternion }.

Inductive Node :=
| GroupNode (o : Object3D)
| SphereNode (o : Object3D) (radius : R) (color : N)
| LineNode (o : Object3D) (target : Vector3) (color : N)
| JointNode (j : URDFJoint).

Definition objectOf (n : Node) : Object3D :=
  match n with
  | GroupNode o | SphereNode o _ _ | LineNode o _ _ => o
  | JointNode j => object3D j
  end.

(** [URDFRobot extends Group]: the robot group is object 0 of the
    store. *)
Record URDFRobot := mkURDFRobot {
  objects : list Node;
  joints : JS.Map ObjectId;
  links : JS.Map ObjectId }.

(** *** Field updates *)

Definition withName (o : Object3D) (n : string) : Object3D :=
  mkObject3D n (position o) (quaternion o) (children o).

Definition withPosition (o : Object3D) (p : Vector3) : Object3D :=
  mkObject3D (name o) p (quaternion o) (children o).

Definition withQuaternion (o : Object3D) (q : Quaternion) : Object3D :=
  mkObject3D (name o) (position o) q (children o).

Definition withChild (o : Object3D) (c : ObjectId) : Object3D :=
  mkObject3D (name o) (position o) (quaternion o) (children o ++ [c])%list.

Definition withObject3D (j : URDFJoint) (o : Object3D) : URDFJoint :=
  mkURDFJoint o (jointType j) (axis j) (jointName j) (limits j)
              (jointValue j) (jointData j) (originQuaternion j).

Definition withJointValue (j : URDFJoint) (v : R) : URDFJoint :=
  mkURDFJoint (object3D j) (jointType j) (axis j) (jointName j) (limits j)
              v (jointData j) (originQuaternion j).

Definition mapObject (f : Object3D -> Object3D) (n : Node) : Node :=
  match n with
  | GroupNode o => GroupNode (f o)
  | SphereNode o radius color => SphereNode (f o) radius color
  | LineNode o target color => LineNode (f o) target color
  | JointNode j => JointNode (withObject3D j (f j.(object3D)))
  end.

(** [rpyToEuler] *)
Definition rpyToEuler (rpy : RPY) : Euler :=
  mkEuler (r rpy) (p rpy) (y rpy) ZYX.

(** The value after the two limit tests at the head of
    [setJointValue]. *)
Definition clampToLimits (limits : option JointLimits) (value : R) : R :=
  match limits with
  | Some l =>
      let value1 :=
        match lower l with
        | Some lo => if Rlt_dec value lo then lo else value
        | None => value
        end in
      match upper l with
      | Some hi => if Rgt_dec value1 hi then hi else value1
      | None => value1
      end
  | None => value
  end.

(** [jointObject.setJointValue (value)] *)
Definition setJointValue (value : R) (jointObject : URDFJoint) : URDFJoint :=
  let jointData := jointData jointObject in
  let originQuaternion := originQuaternion jointObject in
  let value := clampToLimits (Types.limits jointData) value in
  let jointObject := withJointValue jointObject value in
  let axis := axis jointObject in
  if (j_type jointData =? "revolute") || (j_type jointData =? "continuous") then
    let axisQuat := setFromAxisAngle axis value in
    withObject3D jointObject
      (withQuaternion (object3D jointObject) (multiply originQuaternion axisQuat))
  else if j_type jointData =? "prismatic" then
    withObject3D jointObject
      (withPosition (object3D jointObject)
                    (addScaledVector (xyz (origin jointData)) axis value))
  else jointObject.

(** The joint object [buildLink] creates for [jointData], before it is
    added to the scene. *)
Definition newJointObject (jointData : Joint) : URDFJoint :=
  let originQuaternion := setFromEuler (rpyToEuler (rpy (origin jointData))) in
  mkURDFJoint
    (mkObject3D ("joint_" ++ j_name jointData)
                (xyz (origin jointData))
                originQuaternion
                [])
    (j_type jointData)
    (match Types.axis jointData with
     | Some a => normalize (a_xyz a)
     | None => mkVector3 0 0 1
     end)
    (j_name jointData)
    (Types.limits jointData)
    0
    jointData
    originQuaternion.

(** *** The store *)

(** A new object gets the next free index. *)
Definition alloc (n : Node) (robot : URDFRobot) : ObjectId * URDFRobot :=
  (List.length (objects robot),
   mkURDFRobot (objects robot ++ [n])%list (joints robot) (links robot)).

Fixpoint updateNth {A} (i : nat) (f : A -> A) (l : list A) : list A :=
  match l, i with
  | [], _ => []
  | x :: l', O => f x :: l'
  | x :: l', S i' => x :: updateNth i' f l'
  end.

(** [parent.add (child)] for a child that has no parent yet. *)
Definition add (parent child : ObjectId) (robot : URDFRobot) : URDFRobot :=
  mkURDFRobot (updateNth parent (mapObject (fun o => withChild o child)) (objects robot))
              (joints robot) (links robot).

Definition setLink (linkName : string) (o : ObjectId) (robot : URDFRobot) : URDFRobot :=
  mkURDFRobot (objects robot) (joints robot) (JS.set (links robot) linkName o).

Definition setJoint (jointName : string) (o : ObjectId) (robot : URDFRobot) : URDFRobot :=
  mkURDFRobot (objects robot) (JS.set (joints robot) jointName o) (links robot).

(** [for (const x of xs)] over a body that may not return. *)
Fixpoint forEach {A S} (xs : list A) (body : S -> A -> option S) (s : S) : option S :=
  match xs with
  | [] => Some s
  | x :: rest =>
      match body s x with
      | Some s' => forEach rest body s'
      | None => None
      end
  end.

(** [jointsByParent]: the joints of the model grouped by parent link,
    in the order of [model.joints.values ()]. *)
Definition indexByParent (model : RobotModel) : JS.Map (list Joint) :=
  fold_left
    (fun jointsByParent joint =>
       let list := match JS.get jointsByParent (parent joint) with
                   | Some l => l
                   | None => []
                   end in
       JS.set jointsByParent (parent joint) (list ++ [joint])%list)
    (JS.values (Types.joints model)) [].

Section BuildLink.

Variable model : RobotModel.
Variable jointRadius : R.
Variables jointColor linkColor : N.
Variable showDebug : bool.
Variable jointsByParent : JS.Map (list Joint).

(** The statements of [buildLink] before its loop: the group of the
    link is created, added to [parentObject] and entered in
    [robot.links]; the debug sphere follows. *)
Definition createLinkGroup (linkName : string) (parentObject : ObjectId)
           (robot : URDFRobot) : ObjectId * URDFRobot :=
  let (linkGroup, robot) :=
    alloc (GroupNode (withName newObject3D ("link_" ++ linkName))) robot in
  let robot := add parentObject linkGroup robot in
  let robot := setLink linkName linkGroup robot in
  let robot :=
    if showDebug then
      let (sphere, robot) :=
        alloc (SphereNode (withName newObject3D ("debug_sphere_" ++ linkName))
                          jointRadius jointColor) robot in
      add linkGroup sphere robot
    else robot in
  (linkGroup, robot).

(** The body of the loop up to the recursive call: the joint object
    is created, the debug line follows, the joint object is added
    to the group of the link and entered in [robot.joints]. *)
Definition createJointObject (linkGroup : ObjectId) (jointData : Joint)
           (robot : URDFRobot) : ObjectId * URDFRobot :=
  let (jointObject, robot) :=
    alloc (JointNode (newJointObject jointData)) robot in
  let robot :=
    if showDebug then
      let (line, robot) :=
        alloc (LineNode (withName newObject3D ("debug_line_" ++ j_name jointData))
                        (xyz (origin jointData)) linkColor) robot in
      add linkGroup line robot
    else robot in
  let robot := add linkGroup jointObject robot in
  let robot := setJoint (j_name jointData) jointObject robot in
  (jointObject, robot).

(** [jointsByParent.get (linkName) || []] *)
Definition childJointsOf (linkName : string) : list Joint :=
  match JS.get jointsByParent linkName with
  | Some l => l
  | None => []
  end.

(** [buildLink (linkName, parentObject)].  The recursion of the
    source is not bounded by its arguments; [fuel] bounds its depth
    and [None] is the answer of a call that needs more. *)
Fixpoint buildLink (fuel : nat) (linkName : string) (parentObject : ObjectId)
         (robot : URDFRobot) : option URDFRobot :=
  match fuel with
  | O => None
  | S fuel' =>
      match JS.get (Types.links model) linkName with
      | None => Some robot
      | Some _ =>
          let (linkGroup, robot) := createLinkGroup linkName parentObject robot in
          forEach (childJointsOf linkName)
            (fun robot jointData =>
               let (jointObject, robot) :=
                 createJointObject linkGroup jointData robot in
               buildLink fuel' (child jointData) jointObject robot)
            robot
      end
  end.

End BuildLink.

Definition getOr {A} (o : option A) (d : A) : A :=
  match o with Some a => a | None => d end.

(** [buildRobotStructure]; [None] when the recursion of [buildLink]
    needs more than [fuel] nested calls. *)
Definition buildRobotStructure (fuel : nat) (model : RobotModel)
           (options : BuildRobotOptions) : option URDFRobot :=
  let jointRadius := getOr (jointRadius options) (2 / 100) in
  let jointColor := getOr (jointColor options) 0xff0000%N in
  let linkColor := getOr (linkColor options) 0x00ff00%N in
  let convertToYUp := getOr (convertToYUp options) true in
  let showDebug := getOr (showDebug options) true in
  let group := withName newObject3D (Types.name model) in
  let group :=
    if convertToYUp
    then withQuaternion group (setFromEuler (mkEuler (- PI / 2) 0 0 XYZ))
    else group in
  let robot := mkURDFRobot [GroupNode group] [] [] in
  let jointsByParent := indexByParent model in
  match rootLink model with
  | Some root =>
      if JS.truthy root then
        buildLink model jointRadius jointColor linkColor showDebug jointsByParent
                  fuel root 0%nat robot
      else Some robot
  | None => Some robot
  end.

(** [buildRobot (model, options)] passes [{ ...options, showDebug: true }]. *)
Definition buildRobot (fuel : nat) (model : RobotModel) (options : BuildRobotOptions)
  : option URDFRobot :=
  buildRobotStructure fuel model
    (mkBuildRobotOptions (jointRadius options) (jointColor options)
                         (linkColor options) (convertToYUp options) (Some true)).

(** The joint object stored under an index, if it is one. *)
Definition jointAt (robot : URDFRobot) (id : ObjectId) : option URDFJoint :=
  match nth_error (objects robot) id with
  | Some (JointNode j) => Some j
  | _ => None
  end.

(** [robot.setJointValues (values)] over the entries of [values]. *)
Definition setJointValues (values : list (string * R)) (robot : URDFRobot) : URDFRobot :=
  fold_left
    (fun robot entry =>
       let '(name, value) := entry in
       match JS.get (joints robot) name with
       | Some joint =>
           mkURDFRobot
             (updateNth joint
                        (fun n => match n with
                                  | JointNode j => JointNode (setJointValue value j)
                                  | other => other
                                  end)
                        (objects robot))
             (joints robot) (links robot)
       | None => robot
       end)
    values robot.

(** *** Meshes: [getMaterial] and [loadRobot] *)

(** The [color] parameter of a material: [new Color (r, g, b)] or a
    hexadecimal number. *)
Inductive ColorParameter :=
| ColorRGB (r g b : R)
| ColorHex (hex : N).

(** The part of a [MeshStandardMaterial] that [getMaterial] sets; a new
    material is opaque ([transparent] false, [opacity] 1). *)
Record MeshStandardMaterial := mkMeshStandardMaterial {
  color : ColorParameter;
  metalness : R;
  roughness : R;
  transparent : bool;
  opacity : R }.

(** [getMaterial] *)
Definition getMaterial (visual : Visual) (materials : JS.Map Material)
  : MeshStandardMaterial :=
  let urdfMaterial :=
    match v_material visual with
    | Some (MaterialName name) => JS.get materials name
    | Some (MaterialInline m) => Some m
    | None => None
    end in
  let mat :=
    mkMeshStandardMaterial
      (match urdfMaterial with
       | Some m =>
           match m_color m with
           | Some c => ColorRGB (c_r c) (c_g c) (c_b c)
           | None => ColorHex 0x888888
           end
       | None => ColorHex 0x888888
       end)
      (3 / 10) (6 / 10) false 1 in
  match urdfMaterial with
  | Some m =>
      match m_color m with
      | Some c =>
          if Rlt_dec (c_a c) 1
          then mkMeshStandardMaterial (color mat) (metalness mat) (roughness mat)
                                      true (c_a c)
          else mat
      | None => mat
      end
  | None => mat
  end.

(** The [Mesh] the load callback of [loadRobot] makes from a visual
    (the geometry the loader hands over left out). *)
Record Mesh := mkMesh {
  meshObject : Object3D;
  meshScale : Vector3;
  meshMaterial : MeshStandardMaterial;
  castShadow : bool;
  receiveShadow : bool }.

(** The body of the load callback up to [linkGroup.add (mesh)]:
    [mesh.rotation.copy (euler)] sets the quaternion of the mesh from
    the Euler angles, a new object has the scale [(1, 1, 1)]. *)
Definition newMesh (model : RobotModel) (linkName : string) (visual : Visual) : Mesh :=
  let material := getMaterial visual (Types.materials model) in
  let visualName :=
    match v_name visual with
    | Some n => if JS.truthy n then n else "mesh"
    | None => "mesh"
    end in
  mkMesh
    (mkObject3D ("visual_" ++ linkName ++ "_" ++ visualName)
                (xyz (v_origin visual))
                (setFromEuler (rpyToEuler (rpy (v_origin visual))))
                [])
    (match v_geometry visual with
     | MeshGeometry _ (Some scale) => scale
     | _ => mkVector3 1 1 1
     end)
    material true true.

(** A call [stlLoader.load (meshFilename, onLoad, undefined, onError)]
    of [loadRobot]: the file asked for, and what [onLoad] closes over
    (the name of the link, its group, the visual). *)
Record MeshRequest := mkMeshRequest {
  meshFilename : string;
  requestLink : string;
  requestGroup : ObjectId;
  requestVisual : Visual }.

(** The two loops of [loadRobot]: the requests in the order they are
    made. *)
Definition meshRequests (model : RobotModel) (robot : URDFRobot) : list MeshRequest :=
  flat_map
    (fun entry : string * Link =>
       let (linkName, link) := entry in
       match JS.get (links robot) linkName with
       | None => []
       | Some linkGroup =>
           flat_map
             (fun visual =>
                match v_geometry visual with
                | MeshGeometry meshFilename _ =>
                    if JS.truthy meshFilename
                    then [mkMeshRequest meshFilename linkName linkGroup visual]
                    else []
                | _ => []
                end)
             (visuals link)
       end)
    (Types.links model).

(** [loadRobot] up to [await Promise.all (loadPromises)]: the robot
    built (debug objects only when asked for) and the requests made to
    the loader.  What follows depends on the loader: each request that
    succeeds adds [newMesh] to the group of its link, in the order the
    loads complete; one that fails is skipped. *)
Definition loadRobot (fuel : nat) (model : RobotModel) (options : BuildRobotOptions)
  : option (URDFRobot * list MeshRequest) :=
  let showDebug := getOr (showDebug options) false in
  match buildRobotStructure fuel model
          (mkBuildRobotOptions (jointRadius options) (jointColor options)
                               (linkColor options) (convertToYUp options)
                               (Some showDebug)) with
  | Some robot => Some (robot, meshRequests model robot)
  | None => None
  end.

End Builder.

(* ================================================================== *)
(** ** Notions used to state the properties *)
(* ================================================================== *)

Local Open Scope string_scope.
Local Open Scope R_scope.

Definition unitX : Vector3 := mkVector3 1 0 0.
Definition unitY : Vector3 := mkVector3 0 1 0.
Definition unitZ : Vector3 := mkVector3 0 0 1.

(** The product [q v q*] of quaternion algebra, for any [q]; for a unit
    [q] it is what [applyQuaternion] computes. *)
Definition sandwich (q : Quaternion) (v : Vector3) : Vector3 :=
  let n := qw q * qw q - (qx q * qx q + qy q * qy q + qz q * qz q) in
  let d := 2 * (qx q * vx v + qy q * vy v + qz q * vz v) in
  mkVector3 (n * vx v + d * qx q + 2 * qw q * (qy q * vz v - qz q * vy v))
            (n * vy v + d * qy q + 2 * qw q * (qz q * vx v - qx q * vz v))
            (n * vz v + d * qz q + 2 * qw q * (qx q * vy v - qy q * vx v)).

(** The local orientation and the local position of a joint node, and
    the two together: its transform relative to its parent. *)
Definition orientation (n : Builder.URDFJoint) : Quaternion :=
  Builder.quaternion (Builder.object3D n).

Definition localPosition (n : Builder.URDFJoint) : Vector3 :=
  Builder.position (Builder.object3D n).

Definition transform (n : Builder.URDFJoint) : Vector3 * Quaternion :=
  (localPosition n, orientation n).

(** The joint type the closure of a node switches on. *)
Definition typeOf (n : Builder.URDFJoint) : string :=
  j_type (Builder.jointData n).

(** The limits the closure of a node tests: those of the joint record. *)
Definition limitsOf (n : Builder.URDFJoint) : option JointLimits :=
  Types.limits (Builder.jointData n).

(** A value clamped to optional bounds, in the usual sense:
    [min (hi, max (lo, v))], a missing bound not constraining. *)
Definition clamped (limits : option JointLimits) (v : R) : R :=
  match limits with
  | None => v
  | Some l =>
      let v1 := match lower l with Some lo => Rmax lo v | None => v end in
      match upper l with Some hi => Rmin hi v1 | None => v1 end
  end.

(** [v] lies inside the declared bounds. *)
Definition withinLimits (limits : option JointLimits) (v : R) : Prop :=
  match limits with
  | None => True
  | Some l =>
      match lower l with Some lo => lo <= v | None => True end /\
      match upper l with Some hi => v <= hi | None => True end
  end.

(** A sequence of [setJointValue] calls, first value first. *)
Definition setJointValueAll (vs : list R) (n : Builder.URDFJoint) : Builder.URDFJoint :=
  fold_left (fun n v => Builder.setJointValue v n) vs n.

(** The closure of the node holds the origin rotation [buildLink]
    computed for its joint record. *)
Definition builtClosure (n : Builder.URDFJoint) : Prop :=
  Builder.originQuaternion n =
  setFromEuler (Builder.rpyToEuler (rpy (origin (Builder.jointData n)))).

(** *** Example joints *)

(** [<limit lower="-1" upper="1"/>] *)
Definition limits11 : JointLimits := mkJointLimits (Some (-1)) (Some 1) None None.

Definition exampleRevolute : Joint :=
  mkJoint "elbow" "revolute" "upper_arm" "forearm" zeroPose None
          (Some limits11) None None None.

Definition exampleContinuous : Joint :=
  mkJoint "wheel" "continuous" "base" "wheel" zeroPose None
          (Some limits11) None None None.

Definition exampleFixed : Joint :=
  mkJoint "mount" "fixed" "world" "base" zeroPose None
          (Some limits11) None None None.

(** [<joint name="wheel" type="continuous">
       <parent link="base"/><child link="wheel"/>
       <limit lower="-1" upper="1"/></joint>], the element [exampleContinuous]
    is parsed from. *)
Definition wheelElement : XMLElement :=
  XNode (Some [("name", "wheel"); ("type", "continuous")])
        [("parent", XNode (Some [("link", "base")]) []);
         ("child", XNode (Some [("link", "wheel")]) []);
         ("limit", XNode (Some [("lower", "-1"); ("upper", "1")]) [])].

(** *** The elements [parseURDF] reads *)

Definition optList {A} (o : option A) : list A :=
  match o with Some a => [a] | None => [] end.

(** [parsed.robot], when truthy. *)
Definition robotElement (parsed : XMLElement) : option XMLElement :=
  XML.orNull (XML.member parsed "robot").

Definition robotChildren (parsed : XMLElement) (tag : string) : list XMLElement :=
  match robotElement parsed with
  | Some robotEl => getChildren robotEl tag
  | None => []
  end.

Definition materialsRead (parsed : XMLElement) : list XMLElement :=
  robotChildren parsed "material".

Definition linksRead (parsed : XMLElement) : list XMLElement :=
  robotChildren parsed "link".

Definition jointsRead (parsed : XMLElement) : list XMLElement :=
  robotChildren parsed "joint".

Definition visualsRead (parsed : XMLElement) : list XMLElement :=
  flat_map (fun l => getChildren l "visual") (linksRead parsed).

Definition collisionsRead (parsed : XMLElement) : list XMLElement :=
  flat_map (fun l => getChildren l "collision") (linksRead parsed).

Definition selfCollisionsRead (parsed : XMLElement) : list XMLElement :=
  flat_map (fun l => optList (getChild l "self_collision_checking")) (linksRead parsed).

(** The elements handed to [parseGeometry]: the first [geometry] child
    of every visual and collision of every link, and of the first
    [self_collision_checking] of every link. *)
Definition geometriesRead (parsed : XMLElement) : list XMLElement :=
  flat_map (fun h => optList (getChild h "geometry"))
           (visualsRead parsed ++ collisionsRead parsed ++ selfCollisionsRead parsed).

(** The elements handed to [parseOrigin]: the first [origin] child of
    the inertial, of every visual and collision and (when it has a
    geometry) of the self collision of a link, and of every joint. *)
Definition originsRead (parsed : XMLElement) : list XMLElement :=
  flat_map (fun l => match getChild l "inertial" with
                     | Some i => optList (getChild i "origin")
                     | None => []
                     end) (linksRead parsed)
  ++ flat_map (fun h => optList (getChild h "origin"))
              (visualsRead parsed ++ collisionsRead parsed)
  ++ flat_map (fun sc => match getChild sc "geometry" with
                         | Some _ => optList (getChild sc "origin")
                         | None => []
                         end) (selfCollisionsRead parsed)
  ++ flat_map (fun j => optList (getChild j "origin")) (jointsRead parsed).

(** The [box] elements whose [size] is read. *)
Definition boxesRead (parsed : XMLElement) : list XMLElement :=
  flat_map (fun g => optList (getChild g "box")) (geometriesRead parsed).

(** The [axis] elements whose [xyz] is read. *)
Definition axesRead (parsed : XMLElement) : list XMLElement :=
  flat_map (fun j => optList (getChild j "axis")) (jointsRead parsed).

(** The [color] elements whose [rgba] is read: the first of every
    material that is a child of the robot element. *)
Definition colorsRead (parsed : XMLElement) : list XMLElement :=
  flat_map (fun m => optList (getChild m "color")) (materialsRead parsed).

(** None of the five shape tags is a (truthy) child of the element. *)
Definition noShape (g : XMLElement) : bool :=
  match getChild g "box", getChild g "cylinder", getChild g "sphere",
        getChild g "mesh", getChild g "capsule" with
  | None, None, None, None, None => true
  | _, _, _, _, _ => false
  end.

(** The number of pieces [str.trim ().split (/\s+/)] yields. *)
Definition tokenCount (str : string) : nat :=
  List.length (JS.splitWhitespace (JS.trim str)).

(** [attrs[name]] of an element. *)
Definition attribute (element : XMLElement) (name : string) : option string :=
  JS.prop (getAttributes element) name.

(** Every element of the tree with the name of the property that holds
    it (the items of an array go under the name of the array). *)
Fixpoint descendants (tag : string) (e : XMLElement) : list (string * XMLElement) :=
  match e with
  | XText _ | XMethod _ => [(tag, e)]
  | XNode _ children =>
      (tag, e) ::
      (fix properties (l : list (string * XMLElement)) : list (string * XMLElement) :=
         match l with
         | [] => []
         | (name, c) :: l' => (descendants name c ++ properties l')%list
         end) children
  | XArray items =>
      (fix elements (l : list XMLElement) : list (string * XMLElement) :=
         match l with
         | [] => []
         | c :: l' => (descendants tag c ++ elements l')%list
         end) items
  end.

(** The value of a decimal digit. *)
Definition digit (c : ascii) : option Z :=
  let n := nat_of_ascii c in
  if ((48 <=? n) && (n <=? 57))%nat then Some (Z.of_nat (n - 48)) else None.

(** The digits at the head of [s]: their value after [acc], their
    number after [count], and what follows them. *)
Fixpoint readDigits (s : string) (acc : Z) (count : nat) : Z * nat * string :=
  match s with
  | EmptyString => (acc, count, s)
  | String c s' =>
      match digit c with
      | Some d => readDigits s' (10 * acc + d)%Z (S count)
      | None => (acc, count, s)
      end
  end.

(** A reading of [parseFloat] on plain decimal numerals (an optional
    minus sign, digits, an optional fraction), zero where there is no
    digit.  It only serves to run the parser on examples: the
    properties are proved for every function from strings to numbers. *)
Definition parseDecimal (s : string) : R :=
  let '(negative, s1) :=
    match s with
    | String "-"%char s' => (true, s')
    | _ => (false, s)
    end in
  let '(whole, _, s2) := readDigits s1 0%Z 0%nat in
  let '(fraction, places, _) :=
    match s2 with
    | String "."%char s' => readDigits s' 0%Z 0%nat
    | _ => (0%Z, 0%nat, s2)
    end in
  let magnitude := IZR whole + IZR fraction / 10 ^ places in
  if negative then - magnitude else magnitude.

Definition noOptions : ParseURDFOptions := mkParseURDFOptions None None None None.

(** *** Example documents *)

Definition element (attrs : JS.Dict) (children : list (string * XMLElement)) : XMLElement :=
  XNode (Some attrs) children.

(** [<color rgba="1 0 0"/>]: three numbers where four are expected. *)
Definition shortColor : XMLElement := element [("rgba", "1 0 0")] [].

(** A link whose visual carries its material in line:
    [<robot name="r"><link name="base"><visual>
       <geometry><sphere radius="1"/></geometry>
       <material name="red"><color rgba="1 0 0"/></material>
     </visual></link></robot>] *)
Definition inlineMaterialDocument : XMLElement :=
  XNode None
    [("robot",
      element [("name", "r")]
        [("link",
          element [("name", "base")]
            [("visual",
              XNode None
                [("geometry", XNode None [("sphere", element [("radius", "1")] [])]);
                 ("material", element [("name", "red")] [("color", shortColor)])])])])].

(** [<geometry><torus/></geometry>]: no supported shape. *)
Definition torusGeometry : XMLElement :=
  XNode None [("torus", element [("radius", "1")] [])].

(** [<robot name="r"><link name="base"><visual>
       <geometry><torus radius="1"/></geometry></visual></link></robot>] *)
Definition torusDocument : XMLElement :=
  XNode None
    [("robot",
      element [("name", "r")]
        [("link",
          element [("name", "base")]
            [("visual", XNode None [("geometry", torusGeometry)])])])].

(** A computation that ends in an exception. *)
Definition throws {A} (m : Result A) : Prop := exists msg, m = Throw msg.

(** What makes [parseLink] throw, among the things it reads. *)
Inductive linkFault (pf : string -> R) (options : ParseURDFOptions) (l : XMLElement) : Prop :=
| FaultInertial i :
    getChild l "inertial" = Some i -> throws (parseInertial pf i) -> linkFault pf options l
| FaultVisual v :
    In v (getChildren l "visual") -> throws (parseVisual pf v options) -> linkFault pf options l
| FaultCollision c :
    In c (getChildren l "collision") -> throws (parseCollision pf c options) ->
    linkFault pf options l
| FaultSelfGeometry sc g :
    getChild l "self_collision_checking" = Some sc ->
    getChild sc "geometry" = Some g -> throws (parseGeometry pf g options) ->
    linkFault pf options l
| FaultSelfOrigin sc g o :
    getChild l "self_collision_checking" = Some sc ->
    getChild sc "geometry" = Some g ->
    getChild sc "origin" = Some o -> throws (parseOrigin pf o) ->
    linkFault pf options l.

(** *** Mesh file names *)

(** [<geometry><mesh filename="..."/></geometry>] as the parser sees it. *)
Definition meshGeometryElement (filename : string) : XMLElement :=
  XNode None [("mesh", XNode (Some [("filename", filename)]) [])].





(** Options with a package map and a working path. *)
Definition optionsOf (map : option JS.Dict) (wp : option string) : ParseURDFOptions :=
  mkParseURDFOptions map wp None None.

(** *** Example robots *)

(** [<link name="..."/>] *)
Definition linkElement (name : string) : XMLElement :=
  element [("name", name)] [].

(** [<joint name=".." type="fixed"><parent link=".."/><child link=".."/></joint>] *)
Definition jointElement (name parent child : string) : XMLElement :=
  element [("name", name); ("type", "fixed")]
          [("parent", element [("link", parent)] []);
           ("child", element [("link", child)] [])].

Definition robotDocument (links joints : list XMLElement) : XMLElement :=
  XNode None [("robot", element [("name", "r")]
                                [("link", XArray links); ("joint", XArray joints)])].

(** A model with nothing in it, the answer of [modelOf] on a document
    that does not parse. *)
Definition emptyModel : RobotModel := mkRobotModel "" [] [] [] None.

(** The model [parseURDF] returns for a document, numbers read by
    [parseDecimal], no options. *)
Definition modelOf (parsed : XMLElement) : RobotModel :=
  match parseURDF parseDecimal parsed noOptions with
  | Ok model => model
  | Throw _ => emptyModel
  end.

(** One link that is its own child: no link qualifies as root. *)
Definition selfLoopDocument : XMLElement :=
  robotDocument [linkElement "A"] [jointElement "j" "A" "A"].

(** A cycle below the root: R -> A and A -> A. *)
Definition cycleDocument : XMLElement :=
  robotDocument [linkElement "R"; linkElement "A"]
                [jointElement "j1" "R" "A"; jointElement "j2" "A" "A"].

(** Two paths to one link: R -> A -> D and R -> B -> D. *)
Definition diamondDocument : XMLElement :=
  robotDocument [linkElement "R"; linkElement "A"; linkElement "B"; linkElement "D"]
                [jointElement "j1" "R" "A"; jointElement "j2" "R" "B";
                 jointElement "j3" "A" "D"; jointElement "j4" "B" "D"].

(** Build options: no debug markers, everything else by default. *)
Definition plainOptions : Builder.BuildRobotOptions :=
  Builder.mkBuildRobotOptions None None None None (Some false).

(** The names of the objects of a robot, in the order of their
    creation. *)
Definition objectNames (robot : Builder.URDFRobot) : list string :=
  map (fun n => Builder.name (Builder.objectOf n)) (Builder.objects robot).

(** The indices of the objects with a given name. *)
Definition objectsNamed (robot : Builder.URDFRobot) (name : string) : list nat :=
  map fst (filter (fun p => String.eqb (snd p) name)
                  (combine (seq 0 (List.length (objectNames robot))) (objectNames robot))).

(** [name] is the child of some joint of the model. *)
Definition isChildLink (model : RobotModel) (name : string) : Prop :=
  exists j, In j (JS.values (joints model)) /\ child j = name.

(** The set [childLinks] of [parseURDF]. *)
Definition childLinksOf (joints : JS.Map Joint) : JS.StringSet :=
  fold_left (fun set joint => JS.setAdd set (child joint)) (JS.values joints) [].

(** A joint object as [buildLink] leaves it: the fields set from its
    joint record, the closure holding the origin rotation of the
    record, the value zero, the transform of the origin pose. *)
Definition asBuilt (n : Builder.URDFJoint) : Prop :=
  let jointData := Builder.jointData n in
  builtClosure n
  /\ Builder.jointType n = j_type jointData
  /\ Builder.jointName n = j_name jointData
  /\ Builder.limits n = Types.limits jointData
  /\ Builder.axis n = match Types.axis jointData with
                      | Some a => normalize (a_xyz a)
                      | None => mkVector3 0 0 1
                      end
  /\ Builder.jointValue n = 0
  /\ localPosition n = xyz (origin jointData)
  /\ orientation n = Builder.originQuaternion n.

(** Every joint object of the store is as [buildLink] leaves it. *)
Definition jointsAsBuilt (robot : Builder.URDFRobot) : Prop :=
  forall id n, Builder.jointAt robot id = Some n -> asBuilt n.

(** *** The scene a build leaves *)

(** A node without its list of children: what [parent.add (child)]
    leaves alone. *)
Definition detached (n : Builder.Node) : Builder.Node :=
  Builder.mapObject
    (fun o => Builder.mkObject3D (Builder.name o) (Builder.position o)
                                 (Builder.quaternion o) [])
    n.

(** Every object of [robot] is an object of [robot'] under the same
    index, the same but for the children it may have gained. *)
Definition grown (robot robot' : Builder.URDFRobot) : Prop :=
  forall id n,
    nth_error (Builder.objects robot) id = Some n ->
    exists n', nth_error (Builder.objects robot') id = Some n' /\ detached n' = detached n.

(** The names two maps hold: every key of the first is a key of the
    second. *)
Definition keysKept {V} (m m' : JS.Map V) : Prop :=
  forall k, JS.get m k <> None -> JS.get m' k <> None.

(** The state after a call: the objects there were (with more
    children, maybe) and the names the two maps held. *)
Definition kept (robot robot' : Builder.URDFRobot) : Prop :=
  grown robot robot'
  /\ keysKept (Builder.links robot) (Builder.links robot')
  /\ keysKept (Builder.joints robot) (Builder.joints robot').

(** [robot.links] and [robot.joints] name objects of the right kind:
    a link name leads to the group [link_<name>] of a link of the model,
    a joint name to the joint object [joint_<name>] made from a joint
    record of the model with that name. *)
Definition mapsAgree (model : RobotModel) (robot : Builder.URDFRobot) : Prop :=
  (forall k id,
      JS.get (Builder.links robot) k = Some id ->
      JS.get (links model) k <> None
      /\ exists o, nth_error (Builder.objects robot) id = Some (Builder.GroupNode o)
                   /\ Builder.name o = "link_" ++ k)
  /\ (forall k id,
         JS.get (Builder.joints robot) k = Some id ->
         exists j, Builder.jointAt robot id = Some j
                   /\ Builder.jointName j = k
                   /\ Builder.name (Builder.object3D j) = "joint_" ++ k
                   /\ j_name (Builder.jointData j) = k
                   /\ In (Builder.jointData j) (JS.values (joints model))).

(** The calls of [buildLink]: started on [linkName], the recursion
    comes to [target] through joints of the model, each leaving a link
    of the model. *)
Inductive visits (model : RobotModel) : string -> string -> Prop :=
| visits_here linkName : visits model linkName linkName
| visits_below linkName jointData target :
    JS.get (links model) linkName <> None ->
    In jointData (JS.values (joints model)) ->
    parent jointData = linkName ->
    visits model (child jointData) target ->
    visits model linkName target.

(** The links of the model the build comes to from the root link. *)
Definition reachedLink (model : RobotModel) (linkName : string) : Prop :=
  exists root,
    rootLink model = Some root /\ root <> ""
    /\ visits model root linkName
    /\ JS.get (links model) linkName <> None.

(** [jointsByParent.get (linkName) || []] said without the map: the
    joints of the model whose parent is [linkName], in the order of the
    model. *)
Definition jointsFrom (model : RobotModel) (linkName : string) : list Joint :=
  filter (fun j => parent j =? linkName) (JS.values (joints model)).

(** The recursion started on the root link comes to [linkName]. *)
Definition fromRoot (model : RobotModel) (linkName : string) : Prop :=
  exists root, rootLink model = Some root /\ root <> "" /\ visits model root linkName.

(** The names [robot.links] and [robot.joints] hold belong to links
    the build came to and to joints that leave such links. *)
Definition mapsReached (model : RobotModel) (robot : Builder.URDFRobot) : Prop :=
  (forall k, JS.get (Builder.links robot) k <> None -> reachedLink model k)
  /\ (forall k, JS.get (Builder.joints robot) k <> None ->
                exists j, In j (JS.values (joints model)) /\ j_name j = k
                          /\ reachedLink model (parent j)).
(** The children of the object under an index. *)
Definition childrenAt (robot : Builder.URDFRobot) (id : Builder.ObjectId)
  : list Builder.ObjectId :=
  match nth_error (Builder.objects robot) id with
  | Some n => Builder.children (Builder.objectOf n)
  | None => []
  end.

(** The scene is a tree below object 0 but for the objects [orphan]
    holds of, which are created and not added yet: a child is younger
    than its parent, every object other than object 0 has a parent or
    is an orphan, no object has two parents, no object is twice the
    child of its parent. *)
Definition sceneTree (robot : Builder.URDFRobot) (orphan : Builder.ObjectId -> Prop) : Prop :=
  (forall p c, In c (childrenAt robot p) ->
               (p < c < List.length (Builder.objects robot))%nat /\ ~ orphan c)
  /\ (forall c, (0 < c < List.length (Builder.objects robot))%nat ->
                orphan c \/ exists p, In c (childrenAt robot p))
  /\ (forall p p' c, In c (childrenAt robot p) -> In c (childrenAt robot p') -> p = p')
  /\ (forall p, NoDup (childrenAt robot p))
  /\ (forall c, orphan c -> (c < List.length (Builder.objects robot))%nat).

Definition noOrphan (c : Builder.ObjectId) : Prop := False.

(** How a child hangs under its parent in a built scene, said of the
    two objects ([p] is the index of the parent): the group of a link
    hangs under the joint object of a joint whose child is the link, or
    (the root link) under the robot group, object 0; a joint object
    hangs under the group of the parent link of its joint; a debug
    sphere hangs under the group of its link; a debug line hangs under
    the group of the parent link of its joint and ends at the origin of
    the joint. *)
Definition hangs (model : RobotModel) (p : Builder.ObjectId)
           (parentNode childNode : Builder.Node) : Prop :=
  match childNode, parentNode with
  | Builder.GroupNode g, Builder.JointNode j =>
      Builder.name g = "link_" ++ child (Builder.jointData j)
  | Builder.GroupNode g, Builder.GroupNode _ =>
      p = 0%nat /\ exists root, rootLink model = Some root
                                /\ Builder.name g = "link_" ++ root
  | Builder.JointNode j, Builder.GroupNode o =>
      In (Builder.jointData j) (JS.values (joints model))
      /\ Builder.name o = "link_" ++ parent (Builder.jointData j)
  | Builder.SphereNode s _ _, Builder.GroupNode o =>
      exists linkName, Builder.name o = "link_" ++ linkName
                       /\ Builder.name s = "debug_sphere_" ++ linkName
  | Builder.LineNode l target _, Builder.GroupNode o =>
      exists jointData, In jointData (JS.values (joints model))
                        /\ Builder.name o = "link_" ++ parent jointData
                        /\ Builder.name l = "debug_line_" ++ j_name jointData
                        /\ target = xyz (origin jointData)
  | _, _ => False
  end.

(** Every child of the scene hangs under its parent as [hangs] says. *)
Definition hierarchy (model : RobotModel) (robot : Builder.URDFRobot) : Prop :=
  forall p c,
    In c (childrenAt robot p) ->
    exists parentNode childNode,
      nth_error (Builder.objects robot) p = Some parentNode
      /\ nth_error (Builder.objects robot) c = Some childNode
      /\ hangs model p parentNode childNode.

(** The object a call of [buildLink] for [linkName] may be given as
    parent: the robot group for the root link, the joint object of a
    joint whose child is the link otherwise. *)
Definition parentFor (model : RobotModel) (linkName : string)
           (robot : Builder.URDFRobot) (p : Builder.ObjectId) : Prop :=
  match nth_error (Builder.objects robot) p with
  | Some (Builder.JointNode j) => child (Builder.jointData j) = linkName
  | Some (Builder.GroupNode _) => p = 0%nat /\ rootLink model = Some linkName
  | _ => False
  end.
(** *** Joint values set by name *)

(** The values [robot.setJointValues (values)] hands to the joint
    object [id]: those of the entries whose name [robot.joints] maps to
    it, in the order of the entries. *)
Definition valuesFor (robot : Builder.URDFRobot) (id : Builder.ObjectId)
           (values : list (string * R)) : list R :=
  flat_map (fun entry : string * R =>
              match JS.get (Builder.joints robot) (fst entry) with
              | Some joint => if (joint =? id)%nat then [snd entry] else []
              | None => []
              end)
           values.

(** [<joint name="lift" type="prismatic">] with the origin [0 0 1], the
    axis [0 0 2] and the limits 0 and 1. *)
Definition examplePrismatic : Joint :=
  mkJoint "lift" "prismatic" "base" "slide"
          (mkPose (mkVector3 0 0 1) (mkRPY 0 0 0))
          (Some (mkJointAxis (mkVector3 0 0 2)))
          (Some (mkJointLimits (Some 0) (Some 1) None None))
          None None None.

(** A joint whose type is not one of the six of [types.ts]: the
    parser stores any non-empty [type] attribute. *)
Definition exampleCapitalised : Joint :=
  mkJoint "elbow" "Revolute" "upper_arm" "forearm" zeroPose None
          (Some limits11) None None None.

(** Limits the wrong way round: [lower = 1], [upper = -1]. *)
Definition exampleInverted : Joint :=
  mkJoint "elbow" "revolute" "upper_arm" "forearm" zeroPose None
          (Some (mkJointLimits (Some 1) (Some (-1)) None None)) None None None.
(** *** Pieces of a vector attribute *)

(** A piece of a vector attribute: not empty, no white space. *)
Definition isToken (s : string) : bool :=
  JS.truthy s && stringForall (fun c => negb (JS.isWhiteSpace c)) s.

(** A run of white space, maybe empty. *)
Definition isBlank (s : string) : bool := stringForall JS.isWhiteSpace s.

(** Pieces, each followed by its separator, and a last piece. *)
Fixpoint spaced (pieces : list (string * string)) (last : string) : string :=
  match pieces with
  | [] => last
  | (token, space) :: rest => token ++ space ++ spaced rest last
  end.

(** A piece followed by a separator that is not empty. *)
Definition isSeparated (piece : string * string) : bool :=
  isToken (fst piece) && isBlank (snd piece) && JS.truthy (snd piece).

(** *** The model as a function of the elements read *)

(** [map.set (key (v), v)] for every [v] in order, from the empty map:
    what the three loops of [parseURDF] do with the materials, links
    and joints they parse. *)
Definition fromList {V} (key : V -> string) (vs : list V) : JS.Map V :=
  fold_left (fun acc v => JS.set acc (key v) v) vs [].

(** The name [parseURDF] gives the model. *)
Definition robotName (robotEl : XMLElement) : string :=
  if JS.truthy (getAttribute robotEl "name" None)
  then getAttribute robotEl "name" None
  else "robot".

(** The [mesh] elements whose [scale] is read: the first [mesh] child
    of a geometry read that has no [box], [cylinder] or [sphere]. *)
Definition meshesRead (parsed : XMLElement) : list XMLElement :=
  flat_map (fun g => match getChild g "box", getChild g "cylinder", getChild g "sphere" with
                     | None, None, None => optList (getChild g "mesh")
                     | _, _, _ => []
                     end)
           (geometriesRead parsed).
(** *** Meshes *)

(** A group or a joint object: not a debug sphere, not a debug line. *)
Definition isStructural (n : Builder.Node) : bool :=
  match n with
  | Builder.GroupNode _ | Builder.JointNode _ => true
  | Builder.SphereNode _ _ _ | Builder.LineNode _ _ _ => false
  end.

(** *** An example arm *)

(** [<robot name="arm">
      <material name="steel"><color rgba="0.5 0.5 0.5 0.5"/></material>
      <link name="base"><visual>
        <geometry><mesh filename="package://arm/base.stl"/></geometry>
        <material name="steel"/></visual></link>
      <link name="slide"/>
      <link name="hand"><visual>
        <geometry><box size="1 1 1"/></geometry></visual></link>
      <link name="spare"/>
      <joint name="lift" type="prismatic">
        <parent link="base"/><child link="slide"/>
        <origin xyz="0 0 1"/><axis xyz="0 0 2"/>
        <limit lower="0" upper="1"/></joint>
      <joint name="wrist" type="revolute">
        <parent link="slide"/><child link="hand"/>
        <axis xyz="1 0 0"/><limit lower="-1" upper="1"/></joint>
    </robot>] *)
Definition armDocument : XMLElement :=
  XNode None
    [("robot",
      element [("name", "arm")]
        [("material",
          element [("name", "steel")]
                  [("color", element [("rgba", "0.5 0.5 0.5 0.5")] [])]);
         ("link",
          XArray
            [element [("name", "base")]
               [("visual",
                 XNode None
                   [("geometry", meshGeometryElement "package://arm/base.stl");
                    ("material", element [("name", "steel")] [])])];
             linkElement "slide";
             element [("name", "hand")]
               [("visual",
                 XNode None
                   [("geometry",
                     XNode None [("box", element [("size", "1 1 1")] [])])])];
             linkElement "spare"]);
         ("joint",
          XArray
            [element [("name", "lift"); ("type", "prismatic")]
               [("parent", element [("link", "base")] []);
                ("child", element [("link", "slide")] []);
                ("origin", element [("xyz", "0 0 1")] []);
                ("axis", element [("xyz", "0 0 2")] []);
                ("limit", element [("lower", "0"); ("upper", "1")] [])];
             element [("name", "wrist"); ("type", "revolute")]
               [("parent", element [("link", "slide")] []);
                ("child", element [("link", "hand")] []);
                ("axis", element [("xyz", "1 0 0")] []);
                ("limit", element [("lower", "-1"); ("upper", "1")] [])]])])].

(** The robot a build returns, the robot group alone standing for a
    build that does not return. *)
Definition builtOf (fuel : nat) (model : RobotModel) (options : Builder.BuildRobotOptions)
  : Builder.URDFRobot :=
  match Builder.buildRobotStructure fuel model options with
  | Some robot => robot
  | None => Builder.mkURDFRobot [] [] []
  end.

(** The arm, built without debug objects. *)
Definition armRobot : Builder.URDFRobot := builtOf 3 (modelOf armDocument) plainOptions.

(** A link with one visual, a mesh. *)
Definition meshLinkElement (name filename : string) : XMLElement :=
  element [("name", name)]
          [("visual", XNode None [("geometry", meshGeometryElement filename)])].

(** Two links called A: [<link name="A"/> <link name="B"/>
    <link name="A"><visual>..</visual></link>]. *)
Definition duplicateDocument : XMLElement :=
  robotDocument [linkElement "A"; linkElement "B"; meshLinkElement "A" "a.stl"] [].

(** [<joint name="j"><parent link="A"/><child link="B"/></joint>]: no
    type. *)
Definition untypedDocument : XMLElement :=
  robotDocument [linkElement "A"; linkElement "B"]
                [element [("name", "j")]
                         [("parent", element [("link", "A")] []);
                          ("child", element [("link", "B")] [])]].

(** A joint whose origin has an [rpy] of two pieces. *)
Definition shortRpyDocument : XMLElement :=
  robotDocument [linkElement "A"; linkElement "B"]
                [element [("name", "j"); ("type", "fixed")]
                         [("parent", element [("link", "A")] []);
                          ("child", element [("link", "B")] []);
                          ("origin", element [("rpy", "0 0")] [])]].
(** A cycle of the model through [linkName]: a joint leaves the link
    and the recursion started on its child comes back to the link. *)
Definition onCycle (model : RobotModel) (linkName : string) : Prop :=
  JS.get (links model) linkName <> None
  /\ exists jointData,
      In jointData (JS.values (joints model))
      /\ parent jointData = linkName
      /\ visits model (child jointData) linkName.

(** The debug objects of [buildRobot]: every group of a link is
    followed in the scene by the sphere of that link, every joint
    object by the line of its joint; the robot group (object 0) has
    none. *)
Definition debugMarked (jointRadius : R) (jointColor linkColor : N)
           (robot : Builder.URDFRobot) : Prop :=
  (forall id o,
      id <> 0%nat ->
      nth_error (Builder.objects robot) id = Some (Builder.GroupNode o) ->
      exists linkName s,
        Builder.name o = "link_" ++ linkName
        /\ nth_error (Builder.objects robot) (S id)
           = Some (Builder.SphereNode s jointRadius jointColor)
        /\ Builder.name s = "debug_sphere_" ++ linkName)
  /\ (forall id j,
         Builder.jointAt robot id = Some j ->
         exists l,
           nth_error (Builder.objects robot) (S id)
           = Some (Builder.LineNode l (xyz (origin (Builder.jointData j))) linkColor)
           /\ Builder.name l = "debug_line_" ++ j_name (Builder.jointData j)).
(** The link [base] of the arm and its visual. *)
Definition armBase : Link :=
  match JS.get (links (modelOf armDocument)) "base" with
  | Some link => link
  | None => mkLink "" None [] [] None
  end.

Definition armBaseVisual : Visual :=
  match visuals armBase with
  | visual :: _ => visual
  | [] => mkVisual None zeroPose (SphereGeometry 0) None
  end.

(** The rank of the links of [diamondDocument]: R above A and B, which
    are above D. *)
Definition diamondRank (linkName : string) : nat :=
  if linkName =? "R" then 2 else if linkName =? "D" then 0 else 1.

(** The arm as [buildRobot] builds it: with the debug objects, although
    the options say [showDebug: false]. *)
Definition armDebugRobot : Builder.URDFRobot :=
  match Builder.buildRobot 3 (modelOf armDocument) plainOptions with
  | Some robot => robot
  | None => Builder.mkURDFRobot [] [] []
  end.

(** A robot whose one joint is turned away from its parent:
    [<joint name="turn" type="revolute">] from [base] to [arm], with the
    origin [xyz="0 0 1"] and a yaw of a quarter turn, the axis [2 0 0]
    and no limits. *)
Definition turnedJoint : Joint :=
  mkJoint "turn" "revolute" "base" "arm"
          (mkPose (mkVector3 0 0 1) (mkRPY 0 0 (PI / 2)))
          (Some (mkJointAxis (mkVector3 2 0 0)))
          None None None None.

Definition turnedModel : RobotModel :=
  mkRobotModel "turned" []
               [("base", mkLink "base" None [] [] None);
                ("arm", mkLink "arm" None [] [] None)]
               [("turn", turnedJoint)]
               (Some "base").

Definition turnedRobot : Builder.URDFRobot := builtOf 2%nat turnedModel plainOptions.

(** The errors about a value of the wrong form: a vector or an [rpy]
    that does not have three pieces, a color that does not have four, a
    geometry without a shape the parser knows. *)
Definition isFormatError (msg : string) : Prop :=
  msg = "Unknown geometry type"
  \/ exists str, msg = "Invalid vector3 format: " ++ str
                 \/ msg = "Invalid RPY format: " ++ str
                 \/ msg = "Invalid color format: " ++ str.

(** [<robot name="r"><link name="a"><visual/><collision/></link>
    <joint/></robot>]: an empty element that stands alone under its
    parent comes out of the XML reader as the empty string. *)
Definition emptyPartsDocument : XMLElement :=
  XNode None
    [("robot",
      element [("name", "r")]
        [("link",
          element [("name", "a")] [("visual", XText ""); ("collision", XText "")]);
         ("joint", XText "")])].

(** A visual [loadRobot] asks a file for: a mesh with a file name. *)
Definition hasMeshFile (visual : Visual) : bool :=
  match v_geometry visual with
  | MeshGeometry filename _ => JS.truthy filename
  | _ => false
  end.

(* ================================================================== *)
(** * Properties *)
(* ================================================================== *)

(** ** Rotations *)

Lemma cos_half (a : R) : cos a = 1 - 2 * (sin (a / 2) * sin (a / 2)).
Proof.
  replace a with (2 * (a / 2)) at 1 by field.
  rewrite cos_2a_sin. ring.
Qed.

Lemma sin_half (a : R) : sin a = 2 * sin (a / 2) * cos (a / 2).
Proof.
  replace a with (2 * (a / 2)) at 1 by field.
  apply sin_2a.
Qed.

Lemma cos_half_sq (a : R) :
  cos (a / 2) * cos (a / 2) = 1 - sin (a / 2) * sin (a / 2).
Proof.
  pose proof (sin2_cos2 (a / 2)) as H. unfold Rsqr in H. lra.
Qed.

Lemma sandwich_multiply a b v :
  sandwich (multiply a b) v = sandwich a (sandwich b v).
Proof.
  destruct a, b, v; unfold sandwich, multiply; simpl. f_equal; ring.
Qed.

Lemma applyQuaternion_sandwich q v :
  qLengthSq q = 1 -> applyQuaternion v q = sandwich q v.
Proof.
  destruct q as [x y z w], v as [a b c].
  unfold qLengthSq, applyQuaternion, sandwich; simpl; intros H.
  assert (Hw : w * w = 1 - x * x - y * y - z * z) by lra.
  f_equal; rewrite Hw; ring.
Qed.

Lemma qLengthSq_multiply a b :
  qLengthSq (multiply a b) = qLengthSq a * qLengthSq b.
Proof. destruct a, b; unfold qLengthSq, multiply; simpl; ring. Qed.

(** The product of two unit quaternions rotates by the right factor
    first and by the left factor afterwards. *)
Lemma applyQuaternion_multiply a b v :
  qLengthSq a = 1 -> qLengthSq b = 1 ->
  applyQuaternion v (multiply a b) = applyQuaternion (applyQuaternion v b) a.
Proof.
  intros Ha Hb.
  rewrite !applyQuaternion_sandwich; auto.
  - apply sandwich_multiply.
  - rewrite qLengthSq_multiply, Ha, Hb; ring.
Qed.

Lemma qLengthSq_setFromAxisAngle u a :
  lengthSq u = 1 -> qLengthSq (setFromAxisAngle u a) = 1.
Proof.
  destruct u as [x y z]; unfold lengthSq, qLengthSq, setFromAxisAngle; simpl.
  intros H. rewrite cos_half_sq.
  replace (x * sin (a / 2) * (x * sin (a / 2)) + y * sin (a / 2) * (y * sin (a / 2))
           + z * sin (a / 2) * (z * sin (a / 2)))
    with ((x * x + y * y + z * z) * (sin (a / 2) * sin (a / 2))) by ring.
  rewrite H. ring.
Qed.

(** [setFromAxisAngle] on a unit axis is the rotation about that axis. *)
Lemma setFromAxisAngle_rotAxis (u : Vector3) (a : R) (v : Vector3) :
  lengthSq u = 1 ->
  applyQuaternion v (setFromAxisAngle u a) = rotAxis u a v.
Proof.
  intros Hu. unfold applyQuaternion, setFromAxisAngle, rotAxis, dot, cross.
  destruct u as [ux uy uz], v as [x y z]; unfold lengthSq in Hu; simpl in *.
  rewrite (cos_half a), (sin_half a).
  set (s := sin (a / 2)). set (c := cos (a / 2)).
  assert (E : forall A B K : R,
             A = B + K * (ux * ux + uy * uy + uz * uz - 1) -> A = B).
  { intros A B K H. rewrite Hu in H. rewrite H. ring. }
  f_equal.
  - apply (E _ _ (- 2 * s * s * x)). ring.
  - apply (E _ _ (- 2 * s * s * y)). ring.
  - apply (E _ _ (- 2 * s * s * z)). ring.
Qed.

Lemma rotAxis_X a v : rotAxis unitX a v = rotX a v.
Proof. destruct v; unfold rotAxis, rotX, unitX, dot, cross; simpl; f_equal; ring. Qed.

Lemma rotAxis_Y a v : rotAxis unitY a v = rotY a v.
Proof. destruct v; unfold rotAxis, rotY, unitY, dot, cross; simpl; f_equal; ring. Qed.

Lemma rotAxis_Z a v : rotAxis unitZ a v = rotZ a v.
Proof. destruct v; unfold rotAxis, rotZ, unitZ, dot, cross; simpl; f_equal; ring. Qed.

Lemma lengthSq_unit : lengthSq unitX = 1 /\ lengthSq unitY = 1 /\ lengthSq unitZ = 1.
Proof. unfold lengthSq, unitX, unitY, unitZ; simpl. repeat split; ring. Qed.

(** In three.js the order ZYX is the product [qZ * qY * qX]: a turn about
    Z, then about the new Y, then about the new X (intrinsic). *)
Lemma setFromEuler_ZYX a b c :
  setFromEuler (mkEuler a b c ZYX) =
  multiply (setFromAxisAngle unitZ c)
           (multiply (setFromAxisAngle unitY b) (setFromAxisAngle unitX a)).
Proof.
  unfold setFromEuler, multiply, setFromAxisAngle, unitX, unitY, unitZ; simpl.
  f_equal; ring.
Qed.

Lemma qLengthSq_setFromEuler e : qLengthSq (setFromEuler e) = 1.
Proof.
  destruct e as [a b c o].
  pose proof (cos_half_sq a) as Ha; pose proof (cos_half_sq b) as Hb;
    pose proof (cos_half_sq c) as Hc.
  unfold qLengthSq, setFromEuler; simpl.
  set (s1 := sin (a / 2)) in *; set (c1 := cos (a / 2)) in *.
  set (s2 := sin (b / 2)) in *; set (c2 := cos (b / 2)) in *.
  set (s3 := sin (c / 2)) in *; set (c3 := cos (c / 2)) in *.
  assert (E : forall A : R,
             A = (s1 * s1 + c1 * c1) * (s2 * s2 + c2 * c2) * (s3 * s3 + c3 * c3) -> A = 1).
  { intros A ->. rewrite Ha, Hb, Hc. ring. }
  destruct o; simpl; apply E; ring.
Qed.

(** C1. For every RPY triple the rotation the builder derives from a
    pose is the extrinsic composition: a turn of r about the fixed X
    axis first, then of p about the fixed Y axis, then of y about the
    fixed Z axis.  It is a unit quaternion, and it is the intrinsic ZYX
    product [qZ (y) * qY (p) * qX (r)] three.js computes for the order
    ZYX with the angles r, p, y. *)
Theorem rpyToEuler_extrinsic_XYZ :
  forall (rpy : RPY) (v : Vector3),
    let q := setFromEuler (Builder.rpyToEuler rpy) in
    applyQuaternion v q = rotZ (y rpy) (rotY (p rpy) (rotX (r rpy) v))
    /\ q = multiply (setFromAxisAngle unitZ (y rpy))
                    (multiply (setFromAxisAngle unitY (p rpy))
                              (setFromAxisAngle unitX (r rpy)))
    /\ qLengthSq q = 1.
Proof.
  intros rpy v q.
  destruct lengthSq_unit as (HX & HY & HZ).
  assert (Hq : q = multiply (setFromAxisAngle unitZ (y rpy))
                            (multiply (setFromAxisAngle unitY (p rpy))
                                      (setFromAxisAngle unitX (r rpy))))
    by apply setFromEuler_ZYX.
  split; [| split; [exact Hq | apply qLengthSq_setFromEuler]].
  rewrite Hq.
  rewrite applyQuaternion_multiply.
  - rewrite applyQuaternion_multiply by (apply qLengthSq_setFromAxisAngle; assumption).
    rewrite !setFromAxisAngle_rotAxis by assumption.
    now rewrite rotAxis_X, rotAxis_Y, rotAxis_Z.
  - now apply qLengthSq_setFromAxisAngle.
  - rewrite qLengthSq_multiply, !qLengthSq_setFromAxisAngle by assumption. ring.
Qed.

(** ** Joint values *)

(** Case analysis on every comparison of the goal, innermost first. *)
Ltac order_cases :=
  repeat match goal with
         | |- context [Rlt_dec ?a ?b] => destruct (Rlt_dec a b)
         | |- context [Rgt_dec ?a ?b] => destruct (Rgt_dec a b)
         end;
  unfold Rmax;
  repeat match goal with
         | |- context [Rle_dec ?a ?b] => destruct (Rle_dec a b)
         end;
  unfold Rmin;
  repeat match goal with
         | |- context [Rle_dec ?a ?b] => destruct (Rle_dec a b)
         end;
  try lra.

Lemma clampToLimits_clamped limits v :
  Builder.clampToLimits limits v = clamped limits v.
Proof.
  unfold Builder.clampToLimits, clamped.
  destruct limits as [l|]; [|reflexivity].
  destruct (lower l) as [lo|], (upper l) as [hi|]; order_cases.
Qed.

Lemma clamped_within limits v : withinLimits limits v -> clamped limits v = v.
Proof.
  unfold withinLimits, clamped. destruct limits as [l|]; [|reflexivity].
  destruct (lower l) as [lo|], (upper l) as [hi|]; intros [H1 H2]; order_cases.
Qed.

Lemma clamped_above l hi v :
  upper l = Some hi -> hi < v -> clamped (Some l) v = clamped (Some l) hi.
Proof.
  unfold clamped. intros -> Hv.
  destruct (lower l) as [lo|]; order_cases.
Qed.

Lemma clamped_below l lo v :
  lower l = Some lo -> v < lo -> clamped (Some l) v = clamped (Some l) lo.
Proof.
  unfold clamped. intros -> Hv.
  destruct (upper l) as [hi|]; order_cases.
Qed.

(** What a call leaves alone: the captured variables and the axis. *)
Lemma setJointValue_frame v n :
  Builder.jointData (Builder.setJointValue v n) = Builder.jointData n
  /\ Builder.originQuaternion (Builder.setJointValue v n) = Builder.originQuaternion n
  /\ Builder.axis (Builder.setJointValue v n) = Builder.axis n.
Proof.
  unfold Builder.setJointValue.
  destruct (_ || _); [|destruct (_ =? _)%string]; simpl; auto.
Qed.

Lemma setJointValue_jointValue v n :
  Builder.jointValue (Builder.setJointValue v n) = clamped (limitsOf n) v.
Proof.
  rewrite <- clampToLimits_clamped.
  unfold Builder.setJointValue, limitsOf.
  destruct (_ || _); [|destruct (_ =? _)%string]; reflexivity.
Qed.

(** The node after a call is a function of the clamped value alone. *)
Lemma setJointValue_clamped v w n :
  clamped (limitsOf n) v = clamped (limitsOf n) w ->
  Builder.setJointValue v n = Builder.setJointValue w n.
Proof.
  unfold limitsOf. rewrite <- !clampToLimits_clamped. intros H.
  unfold Builder.setJointValue. now rewrite H.
Qed.

(** A call does not read what an earlier call wrote. *)
Lemma setJointValue_last_wins v w n :
  Builder.setJointValue v (Builder.setJointValue w n) = Builder.setJointValue v n.
Proof.
  destruct n as [o ty ax nm lim jv jd oq].
  unfold Builder.setJointValue; simpl.
  destruct ((j_type jd =? "revolute") || (j_type jd =? "continuous")) eqn:E1;
    [|destruct (j_type jd =? "prismatic") eqn:E2]; simpl;
    rewrite ?E1, ?E2; reflexivity.
Qed.

Lemma setJointValue_rotary v n :
  typeOf n = "revolute" \/ typeOf n = "continuous" ->
  orientation (Builder.setJointValue v n) =
    multiply (Builder.originQuaternion n)
             (setFromAxisAngle (Builder.axis n) (clamped (limitsOf n) v))
  /\ localPosition (Builder.setJointValue v n) = localPosition n.
Proof.
  unfold typeOf, limitsOf. rewrite <- clampToLimits_clamped.
  unfold Builder.setJointValue, orientation, localPosition.
  intros [H | H]; rewrite H; simpl; auto.
Qed.

Lemma setJointValue_immovable v n :
  typeOf n = "fixed" \/ typeOf n = "floating" \/ typeOf n = "planar" ->
  Builder.object3D (Builder.setJointValue v n) = Builder.object3D n
  /\ typeOf (Builder.setJointValue v n) = typeOf n.
Proof.
  unfold typeOf, Builder.setJointValue.
  intros [H | [H | H]]; rewrite H; simpl; auto.
Qed.

Lemma builtClosure_newJointObject jd : builtClosure (Builder.newJointObject jd).
Proof. reflexivity. Qed.

Lemma builtClosure_setJointValue v n :
  builtClosure n -> builtClosure (Builder.setJointValue v n).
Proof.
  unfold builtClosure. destruct (setJointValue_frame v n) as (-> & -> & _). auto.
Qed.

(** C6. For every revolute joint node with declared limits: a value
    above the upper limit gives the transform that the upper limit
    itself gives, a value below the lower limit the transform that the
    lower limit gives, a value inside the limits is stored and applied
    as it is, and the call is idempotent: [N >= 1] calls with the same
    value leave the transform of one call, and after two calls the last
    value wins. *)
Theorem setJointValue_revolute_limits :
  forall (n : Builder.URDFJoint) (l : JointLimits) (v : R),
    typeOf n = "revolute" ->
    limitsOf n = Some l ->
    (forall hi, upper l = Some hi -> hi < v ->
       transform (Builder.setJointValue v n) = transform (Builder.setJointValue hi n))
    /\ (forall lo, lower l = Some lo -> v < lo ->
          transform (Builder.setJointValue v n) = transform (Builder.setJointValue lo n))
    /\ (withinLimits (Some l) v ->
          Builder.jointValue (Builder.setJointValue v n) = v
          /\ orientation (Builder.setJointValue v n) =
             multiply (Builder.originQuaternion n) (setFromAxisAngle (Builder.axis n) v))
    /\ (forall N, (1 <= N)%nat ->
          transform (setJointValueAll (repeat v N) n) = transform (Builder.setJointValue v n))
    /\ (forall w, transform (Builder.setJointValue v (Builder.setJointValue w n)) =
                  transform (Builder.setJointValue v n)).
Proof.
  intros n l v Htype Hl.
  split; [|split; [|split; [|split]]].
  - intros hi Hhi Hv. f_equal.
    apply setJointValue_clamped. rewrite Hl. now apply clamped_above.
  - intros lo Hlo Hv. f_equal.
    apply setJointValue_clamped. rewrite Hl. now apply clamped_below.
  - intros Hin. rewrite setJointValue_jointValue.
    destruct (setJointValue_rotary v n (or_introl Htype)) as [-> _].
    rewrite Hl, (clamped_within _ _ Hin). auto.
  - intros N HN. f_equal.
    destruct N as [|N]; [lia|]. clear HN.
    induction N as [|N IH].
    + reflexivity.
    + change (repeat v (S (S N))) with (v :: repeat v (S N)).
      rewrite <- IH. unfold setJointValueAll at 1. simpl fold_left at 1.
      fold (setJointValueAll (repeat v N) (Builder.setJointValue v (Builder.setJointValue v n))).
      now rewrite setJointValue_last_wins.
  - intros w. now rewrite setJointValue_last_wins.
Qed.

Lemma setJointValue_revolute_limits_witness :
  transform (Builder.setJointValue 5 (Builder.newJointObject exampleRevolute)) =
  transform (Builder.setJointValue 1 (Builder.newJointObject exampleRevolute)).
Proof.
  refine (proj1 (setJointValue_revolute_limits
                   (Builder.newJointObject exampleRevolute) limits11 5
                   eq_refl eq_refl) 1 eq_refl _).
  lra.
Defined.

(** C8. For every joint node of type fixed, floating or planar, any
    sequence of [setJointValue] calls (a total function: no call
    throws) leaves the local position and the local orientation of the
    node exactly as they were. *)
Theorem setJointValue_immovable_types :
  forall (n : Builder.URDFJoint) (vs : list R),
    typeOf n = "fixed" \/ typeOf n = "floating" \/ typeOf n = "planar" ->
    transform (setJointValueAll vs n) = transform n.
Proof.
  intros n vs. revert n.
  induction vs as [|v vs IH]; intros n Htype; [reflexivity|].
  destruct (setJointValue_immovable v n Htype) as [Ho Ht].
  change (setJointValueAll (v :: vs) n)
    with (setJointValueAll vs (Builder.setJointValue v n)).
  rewrite IH by (rewrite Ht; exact Htype).
  unfold transform, localPosition, orientation. now rewrite Ho.
Qed.

Lemma setJointValue_immovable_types_witness :
  transform (setJointValueAll [3; -7; 0] (Builder.newJointObject exampleFixed)) =
  transform (Builder.newJointObject exampleFixed).
Proof.
  apply (setJointValue_immovable_types (Builder.newJointObject exampleFixed) [3; -7; 0]).
  left; reflexivity.
Defined.

(** C10. For every joint node, of any type, and every value, the
    [jointValue] field after [setJointValue] is the value clamped to the
    declared lower and upper limits of the joint, and the value itself
    when the joint declares no limits; for the types fixed, floating
    and planar the field is written although the transform is not. *)
Theorem setJointValue_stores_clamped_value :
  forall (n : Builder.URDFJoint) (v : R),
    Builder.jointValue (Builder.setJointValue v n) = clamped (limitsOf n) v
    /\ (limitsOf n = None -> Builder.jointValue (Builder.setJointValue v n) = v)
    /\ (typeOf n = "fixed" \/ typeOf n = "floating" \/ typeOf n = "planar" ->
        transform (Builder.setJointValue v n) = transform n).
Proof.
  intros n v. split; [|split].
  - apply setJointValue_jointValue.
  - intros H. rewrite setJointValue_jointValue, H. reflexivity.
  - intros Htype. destruct (setJointValue_immovable v n Htype) as [Ho _].
    unfold transform, localPosition, orientation. now rewrite Ho.
Qed.

Lemma zero_half : 0 / 2 = 0.
Proof. field. Qed.

Lemma cos_half_lt_cos_one : cos (2 / 2) < cos (1 / 2).
Proof.
  pose proof PI2_1 as HPI.
  replace (2 / 2) with 1 by field.
  apply cos_decreasing_1; lra.
Qed.

Lemma parseDecimal_one : parseDecimal "1" = 1 /\ parseDecimal "-1" = -1.
Proof. unfold parseDecimal; simpl. split; field. Qed.

(** C4 (what the code does). A continuous joint whose element carries
    [lower = -1] and [upper = 1] (the parser keeps the limits of a joint
    of any type) is asked for the value 2: the node stores 1 and turns
    by 1 radian about its axis, not by the 2 radians requested. *)
Theorem setJointValue_continuous_is_clamped :
  let n := Builder.newJointObject exampleContinuous in
  let n' := Builder.setJointValue 2 n in
  parseJoint parseDecimal wheelElement noOptions = Ok exampleContinuous
  /\ Builder.jointValue n' = 1
  /\ orientation n' =
     multiply (Builder.originQuaternion n) (setFromAxisAngle (Builder.axis n) 1)
  /\ orientation n' <>
     multiply (Builder.originQuaternion n) (setFromAxisAngle (Builder.axis n) 2).
Proof.
  intros n n'.
  assert (Hc : clamped (limitsOf n) 2 = 1).
  { unfold clamped, limitsOf; simpl. order_cases. }
  destruct (setJointValue_rotary 2 n (or_intror eq_refl)) as [Hq _].
  fold n' in Hq. rewrite Hc in Hq.
  split; [|split; [|split]].
  - destruct parseDecimal_one as [H1 Hm1].
    transitivity
      (Ok (mkJoint "wheel" "continuous" "base" "wheel" zeroPose None
                   (Some (mkJointLimits (Some (parseDecimal "-1"))
                                        (Some (parseDecimal "1")) None None))
                   None None None)); [reflexivity|].
    rewrite H1, Hm1. reflexivity.
  - subst n'. now rewrite setJointValue_jointValue.
  - exact Hq.
  - rewrite Hq. intros H. apply (f_equal qw) in H.
    unfold n in H; simpl in H.
    rewrite zero_half, cos_0, sin_0 in H.
    pose proof cos_half_lt_cos_one. lra.
Qed.

(** ** Exceptions of the parser *)

Lemma throws_Throw {A} msg : throws (@Throw A msg).
Proof. now exists msg. Qed.

Lemma throws_bind_l {A B} (m : Result A) (k : A -> Result B) :
  throws m -> throws (bind m k).
Proof. intros [msg ->]. now exists msg. Qed.

Lemma throws_bind_r {A B} (m : Result A) (k : A -> Result B) :
  (forall a, throws (k a)) -> throws (bind m k).
Proof. intros H. destruct m as [a|msg]; [apply H | apply throws_Throw]. Qed.

Lemma forOf_throws {A S} (xs : list A) (body : S -> A -> Result S) (x : A) :
  In x xs -> (forall s, throws (body s x)) -> forall s, throws (forOf xs body s).
Proof.
  intros Hin Hx. induction xs as [|x0 xs IH]; [destruct Hin|]. intros s.
  cbn [forOf]. destruct Hin as [-> | Hin].
  - apply throws_bind_l, Hx.
  - apply throws_bind_r. intros s'. now apply IH.
Qed.

Lemma truthy_true s : JS.truthy s = true <-> s <> "".
Proof.
  unfold JS.truthy. destruct (String.eqb_spec s ""); simpl; split; congruence.
Qed.

Lemma parseVector3_throws pf str :
  tokenCount str <> 3%nat -> throws (parseVector3 pf str).
Proof.
  unfold tokenCount, parseVector3. intros H.
  destruct (Nat.eqb_spec (List.length (JS.splitWhitespace (JS.trim str))) 3);
    [contradiction | apply throws_Throw].
Qed.

Lemma parseOrigin_throws pf o str :
  attribute o "xyz" = Some str -> str <> "" -> tokenCount str <> 3%nat ->
  throws (parseOrigin pf o).
Proof.
  unfold attribute, parseOrigin. intros -> Hne%truthy_true Hcount.
  unfold orDefault at 1. rewrite Hne.
  apply throws_bind_l. now apply parseVector3_throws.
Qed.

Lemma parseColor_throws pf c str :
  attribute c "rgba" = Some str -> str <> "" -> tokenCount str <> 4%nat ->
  throws (parseColor pf c).
Proof.
  unfold attribute, parseColor, tokenCount. intros -> Hne%truthy_true Hcount.
  unfold orDefault. rewrite Hne.
  destruct (Nat.eqb_spec (List.length (JS.splitWhitespace (JS.trim str))) 4);
    [contradiction | apply throws_Throw].
Qed.

Lemma parseJointAxis_throws pf a str :
  attribute a "xyz" = Some str -> tokenCount str <> 3%nat ->
  throws (parseJointAxis pf a).
Proof.
  unfold attribute, parseJointAxis, getAttribute. intros -> Hcount.
  apply throws_bind_l. now apply parseVector3_throws.
Qed.

Lemma parseGeometry_noShape pf g options :
  noShape g = true -> throws (parseGeometry pf g options).
Proof.
  unfold noShape, parseGeometry.
  destruct (getChild g "box"), (getChild g "cylinder"), (getChild g "sphere"),
    (getChild g "mesh"), (getChild g "capsule"); try discriminate.
  intros _. apply throws_Throw.
Qed.

Lemma parseGeometry_box pf g options b str :
  getChild g "box" = Some b -> attribute b "size" = Some str ->
  tokenCount str <> 3%nat -> throws (parseGeometry pf g options).
Proof.
  unfold attribute, parseGeometry. intros -> Hsize Hcount.
  unfold getAttribute. rewrite Hsize.
  apply throws_bind_l. now apply parseVector3_throws.
Qed.

Lemma parseOriginOpt_throws pf originEl o :
  originEl = Some o -> throws (parseOrigin pf o) -> throws (parseOriginOpt pf originEl).
Proof. now intros ->. Qed.

Lemma parseVisual_throws pf v options :
  (exists g, getChild v "geometry" = Some g /\ throws (parseGeometry pf g options))
  \/ (exists o, getChild v "origin" = Some o /\ throws (parseOrigin pf o)) ->
  throws (parseVisual pf v options).
Proof.
  unfold parseVisual. intros [(g & -> & Hg) | (o & Ho & Hthrow)].
  - apply throws_bind_r; intros origin. now apply throws_bind_l.
  - destruct (getChild v "geometry"); [|apply throws_Throw].
    apply throws_bind_l. now apply parseOriginOpt_throws with o.
Qed.

Lemma parseCollision_throws pf c options :
  (exists g, getChild c "geometry" = Some g /\ throws (parseGeometry pf g options))
  \/ (exists o, getChild c "origin" = Some o /\ throws (parseOrigin pf o)) ->
  throws (parseCollision pf c options).
Proof.
  unfold parseCollision. intros [(g & -> & Hg) | (o & Ho & Hthrow)].
  - apply throws_bind_r; intros origin. now apply throws_bind_l.
  - destruct (getChild c "geometry"); [|apply throws_Throw].
    apply throws_bind_l. now apply parseOriginOpt_throws with o.
Qed.

Lemma parseInertial_throws pf i o :
  getChild i "origin" = Some o -> throws (parseOrigin pf o) ->
  throws (parseInertial pf i).
Proof.
  unfold parseInertial. intros Ho Hthrow.
  apply throws_bind_l. now apply parseOriginOpt_throws with o.
Qed.

Lemma parseLink_throws pf l options :
  linkFault pf options l -> throws (parseLink pf l options).
Proof.
  intros H. unfold parseLink.
  destruct (negb (JS.truthy (getAttribute l "name" None))); [apply throws_Throw|].
  destruct H as [i Hi Hthrow | v Hv Hthrow | c Hc Hthrow
                 | sc g Hsc Hg Hthrow | sc g o Hsc Hg Ho Hthrow].
  - rewrite Hi. apply throws_bind_l. now apply throws_bind_l.
  - apply throws_bind_r; intros inertial. apply throws_bind_l.
    apply forOf_throws with v; [assumption|].
    intros acc. now apply throws_bind_l.
  - apply throws_bind_r; intros inertial. apply throws_bind_r; intros visuals.
    apply throws_bind_l.
    apply forOf_throws with c; [assumption|].
    intros acc. now apply throws_bind_l.
  - do 3 (apply throws_bind_r; intro). apply throws_bind_l.
    rewrite Hsc, Hg. apply throws_bind_r; intros origin. now apply throws_bind_l.
  - do 3 (apply throws_bind_r; intro). apply throws_bind_l.
    rewrite Hsc, Hg. apply throws_bind_l. now apply parseOriginOpt_throws with o.
Qed.

Lemma parseJoint_throws pf j options :
  (exists o, getChild j "origin" = Some o /\ throws (parseOrigin pf o))
  \/ (exists a, getChild j "axis" = Some a /\ throws (parseJointAxis pf a)) ->
  throws (parseJoint pf j options).
Proof.
  intros H. unfold parseJoint.
  destruct (negb (JS.truthy (getAttribute j "name" None))); [apply throws_Throw|].
  destruct (negb (JS.truthy (getAttribute j "type" None))); [apply throws_Throw|].
  destruct (getChild j "parent"); [|apply throws_Throw].
  destruct (getChild j "child"); [|apply throws_Throw].
  destruct (_ || _); [apply throws_Throw|].
  destruct H as [(o & Ho & Hthrow) | (a & Ha & Hthrow)].
  - apply throws_bind_l. now apply parseOriginOpt_throws with o.
  - apply throws_bind_r; intros origin. apply throws_bind_l.
    rewrite Ha. now apply throws_bind_l.
Qed.

Lemma parseMaterial_throws pf m c :
  getChild m "color" = Some c -> throws (parseColor pf c) ->
  throws (parseMaterial pf m).
Proof.
  intros Hc Hthrow. unfold parseMaterial.
  destruct (negb (JS.truthy (getAttribute m "name" None))); [apply throws_Throw|].
  rewrite Hc. apply throws_bind_l. now apply throws_bind_l.
Qed.

Lemma parseURDF_throws pf parsed options :
  (exists m, In m (materialsRead parsed) /\ throws (parseMaterial pf m))
  \/ (exists l, In l (linksRead parsed) /\ throws (parseLink pf l options))
  \/ (exists j, In j (jointsRead parsed) /\ throws (parseJoint pf j options)) ->
  throws (parseURDF pf parsed options).
Proof.
  unfold materialsRead, linksRead, jointsRead, robotChildren, robotElement, parseURDF.
  destruct (XML.orNull (XML.member parsed "robot")) as [robotEl|];
    [|intros _; apply throws_Throw].
  intros [(m & Hin & Hthrow) | [(l & Hin & Hthrow) | (j & Hin & Hthrow)]].
  - apply throws_bind_l. apply forOf_throws with m; [assumption|].
    intros acc. now apply throws_bind_l.
  - apply throws_bind_r; intros materials. apply throws_bind_l.
    apply forOf_throws with l; [assumption|].
    intros acc. now apply throws_bind_l.
  - do 2 (apply throws_bind_r; intro). apply throws_bind_l.
    apply forOf_throws with j; [assumption|].
    intros acc. now apply throws_bind_l.
Qed.

Lemma In_optList {A} (o : option A) (x : A) : In x (optList o) <-> o = Some x.
Proof.
  destruct o as [a|]; simpl; split; try tauto; try discriminate.
  - intros [-> | []]; reflexivity.
  - intros [= ->]; now left.
Qed.

Lemma geometriesRead_fault pf options parsed g :
  In g (geometriesRead parsed) -> throws (parseGeometry pf g options) ->
  exists l, In l (linksRead parsed) /\ linkFault pf options l.
Proof.
  unfold geometriesRead, visualsRead, collisionsRead, selfCollisionsRead.
  intros (h & Hh & Hg%In_optList)%in_flat_map Hthrow.
  apply in_app_or in Hh as [Hh | Hh]; [|apply in_app_or in Hh as [Hh | Hh]];
    apply in_flat_map in Hh as (l & Hl & Hh); exists l; split; auto.
  - apply FaultVisual with h; [assumption|].
    apply parseVisual_throws. left. now exists g.
  - apply FaultCollision with h; [assumption|].
    apply parseCollision_throws. left. now exists g.
  - apply In_optList in Hh. now apply FaultSelfGeometry with h g.
Qed.

Lemma originsRead_fault pf options parsed o :
  In o (originsRead parsed) -> throws (parseOrigin pf o) ->
  (exists l, In l (linksRead parsed) /\ linkFault pf options l)
  \/ (exists j, In j (jointsRead parsed) /\ throws (parseJoint pf j options)).
Proof.
  unfold originsRead, visualsRead, collisionsRead, selfCollisionsRead.
  intros Hin Hthrow.
  apply in_app_or in Hin as [Hin | Hin]; [|apply in_app_or in Hin as [Hin | Hin];
                                            [|apply in_app_or in Hin as [Hin | Hin]]].
  - apply in_flat_map in Hin as (l & Hl & Hin). left. exists l. split; auto.
    destruct (getChild l "inertial") as [i|] eqn:Hi; [|destruct Hin].
    apply In_optList in Hin.
    apply FaultInertial with i; [assumption|]. now apply parseInertial_throws with o.
  - apply in_flat_map in Hin as (h & Hh & Ho%In_optList). left.
    apply in_app_or in Hh as [Hh | Hh];
      apply in_flat_map in Hh as (l & Hl & Hh); exists l; split; auto.
    + apply FaultVisual with h; [assumption|].
      apply parseVisual_throws. right. now exists o.
    + apply FaultCollision with h; [assumption|].
      apply parseCollision_throws. right. now exists o.
  - apply in_flat_map in Hin as (sc & Hsc & Hin). left.
    apply in_flat_map in Hsc as (l & Hl & Hsc%In_optList). exists l. split; auto.
    destruct (getChild sc "geometry") as [g|] eqn:Hg; [|destruct Hin].
    apply In_optList in Hin. now apply FaultSelfOrigin with sc g o.
  - apply in_flat_map in Hin as (j & Hj & Ho%In_optList). right.
    exists j. split; auto. apply parseJoint_throws. left. now exists o.
Qed.

(** C9 (amended). Parsing fails with an error, and so returns no
    model, whenever
    - an element the parser reads as a geometry (the first [geometry]
      child of a visual or collision of a link of the robot, or of the
      first [self_collision_checking] of a link) has none of the five
      shape tags box, cylinder, sphere, mesh, capsule as a child; or
    - a vector attribute the parser reads does not split into the
      expected number of pieces: a non-empty [xyz] of an origin it reads
      (3), the [size] of the box of a geometry it reads (3), the [xyz]
      of the first axis of a joint (3), a non-empty [rgba] of the first
      color of a material of the robot element (4). *)
Theorem parseURDF_fails_on_bad_format :
  forall (pf : string -> R) (parsed : XMLElement) (options : ParseURDFOptions),
    (exists g, In g (geometriesRead parsed) /\ noShape g = true)
    \/ (exists o str, In o (originsRead parsed) /\ attribute o "xyz" = Some str
                      /\ str <> "" /\ tokenCount str <> 3%nat)
    \/ (exists b str, In b (boxesRead parsed) /\ attribute b "size" = Some str
                      /\ tokenCount str <> 3%nat)
    \/ (exists a str, In a (axesRead parsed) /\ attribute a "xyz" = Some str
                      /\ tokenCount str <> 3%nat)
    \/ (exists c str, In c (colorsRead parsed) /\ attribute c "rgba" = Some str
                      /\ str <> "" /\ tokenCount str <> 4%nat) ->
    exists msg, parseURDF pf parsed options = Throw msg.
Proof.
  intros pf parsed options H. change (throws (parseURDF pf parsed options)).
  apply parseURDF_throws.
  destruct H as [(g & Hg & Hshape)
                | [(o & str & Ho & Hattr & Hne & Hcount)
                  | [(b & str & Hb & Hattr & Hcount)
                    | [(a & str & Ha & Hattr & Hcount)
                      | (c & str & Hc & Hattr & Hne & Hcount)]]]].
  - right; left.
    destruct (geometriesRead_fault pf options parsed g Hg) as (l & Hl & Hfault).
    + now apply parseGeometry_noShape.
    + exists l. split; auto. now apply parseLink_throws.
  - destruct (originsRead_fault pf options parsed o Ho) as [(l & Hl & Hfault) | Hj].
    + now apply parseOrigin_throws with str.
    + right; left. exists l. split; auto. now apply parseLink_throws.
    + right; right. exact Hj.
  - right; left.
    unfold boxesRead in Hb. apply in_flat_map in Hb as (g & Hg & Hb%In_optList).
    destruct (geometriesRead_fault pf options parsed g Hg) as (l & Hl & Hfault).
    + now apply parseGeometry_box with b str.
    + exists l. split; auto. now apply parseLink_throws.
  - right; right.
    unfold axesRead in Ha. apply in_flat_map in Ha as (j & Hj & Ha%In_optList).
    exists j. split; auto. apply parseJoint_throws. right. exists a. split; auto.
    now apply parseJointAxis_throws with str.
  - left.
    unfold colorsRead in Hc. apply in_flat_map in Hc as (m & Hm & Hc%In_optList).
    exists m. split; auto. apply parseMaterial_throws with c; auto.
    now apply parseColor_throws with str.
Qed.

Lemma parseURDF_fails_on_bad_format_witness :
  exists msg, parseURDF parseDecimal torusDocument noOptions = Throw msg.
Proof.
  apply (parseURDF_fails_on_bad_format parseDecimal torusDocument noOptions).
  left. exists torusGeometry. split; [|reflexivity].
  left. reflexivity.
Defined.

(** Counterexample to C9 as stated: the document holds a color whose
    [rgba] has three pieces, inside the material of a visual, and
    [parseURDF] returns a model: the parser keeps the name of such a
    material and never reads its color. *)
Lemma inline_material_color_counterexample :
  In ("color", shortColor) (descendants "" inlineMaterialDocument)
  /\ attribute shortColor "rgba" = Some "1 0 0"
  /\ tokenCount "1 0 0" <> 4%nat
  /\ exists model, parseURDF parseDecimal inlineMaterialDocument noOptions = Ok model.
Proof.
  split; [|split; [reflexivity | split; [discriminate|]]].
  - simpl. do 7 right. left. reflexivity.
  - eexists. reflexivity.
Qed.

(** ** File names *)












(** ** What the prototypes add *)

(** An identifier that names a member of [Object.prototype] is found in
    every package map: with the empty map [package://constructor/a.stl]
    is rewritten with the text of [Object]. *)
Lemma resolveFilename_inherited_member :
  resolveFilename (optionsOf (Some []) None) "package://constructor/a.stl"
  = "function Object() { [native code] }/a.stl".
Proof. reflexivity. Qed.

(** A robot element that is a text, as in [<robot>hello</robot>]: the
    property [link] of a string is a method of strings, it is read as
    the one link element and has no name. *)
Lemma parseURDF_text_robot pf text options :
  text <> "" ->
  parseURDF pf (XNode None [("robot", XText text)]) options
  = Throw "Link element missing name attribute".
Proof.
  intros Hne%truthy_true. unfold parseURDF.
  cbn [XML.member JS.get String.eqb Ascii.eqb Bool.eqb XML.orNull XML.truthy].
  rewrite Hne. reflexivity.
Qed.

(** ** The traversal of the builder *)

Lemma forEach_None {A S} (xs : list A) (body : S -> A -> option S) (x : A) :
  In x xs -> (forall s, body s x = None) -> forall s, Builder.forEach xs body s = None.
Proof.
  intros Hin Hx. induction xs as [|x0 xs IH]; [destruct Hin|]. intros s.
  cbn [Builder.forEach]. destruct Hin as [-> | Hin].
  - now rewrite Hx.
  - destruct (body s x0); auto.
Qed.

Section Traversal.

Variable model : RobotModel.
Variable jointRadius : R.
Variables jointColor linkColor : N.
Variable showDebug : bool.
Variable jointsByParent : JS.Map (list Joint).

Let buildLink := Builder.buildLink model jointRadius jointColor linkColor
                                   showDebug jointsByParent.

(** A call on a link of the model does not return when the call on the
    child of one of its joints does not. *)
Lemma buildLink_stuck_child fuel linkName parentObject robot link jointData :
  JS.get (Types.links model) linkName = Some link ->
  In jointData (Builder.childJointsOf jointsByParent linkName) ->
  (forall parent robot', buildLink fuel (child jointData) parent robot' = None) ->
  buildLink (S fuel) linkName parentObject robot = None.
Proof.
  intros Hlink Hin Hchild. unfold buildLink. cbn [Builder.buildLink].
  rewrite Hlink.
  destruct (Builder.createLinkGroup jointRadius jointColor showDebug
                                    linkName parentObject robot) as [linkGroup robot1].
  apply forEach_None with jointData; [assumption|].
  intros robot2.
  destruct (Builder.createJointObject linkColor showDebug linkGroup jointData robot2)
    as [jointObject robot3].
  apply Hchild.
Qed.

(** A link that is the child of one of its own joints: no amount of
    fuel lets the call return. *)
Lemma buildLink_self_loop linkName link jointData :
  JS.get (Types.links model) linkName = Some link ->
  In jointData (Builder.childJointsOf jointsByParent linkName) ->
  child jointData = linkName ->
  forall fuel parentObject robot, buildLink fuel linkName parentObject robot = None.
Proof.
  intros Hlink Hin Hchild fuel.
  induction fuel as [|fuel IH]; intros parentObject robot; [reflexivity|].
  apply buildLink_stuck_child with link jointData; auto.
  now rewrite Hchild.
Qed.

End Traversal.

Lemma cycle_never_returns fuel options :
  Builder.buildRobotStructure fuel (modelOf cycleDocument) options = None.
Proof.
  unfold Builder.buildRobotStructure.
  change (rootLink (modelOf cycleDocument)) with (Some "R").
  cbn [JS.truthy String.eqb negb].
  destruct fuel as [|fuel]; [reflexivity|].
  destruct (JS.get (joints (modelOf cycleDocument)) "j1") as [j1|] eqn:E1;
    [|discriminate E1].
  destruct (JS.get (joints (modelOf cycleDocument)) "j2") as [j2|] eqn:E2;
    [|discriminate E2].
  injection E1 as E1. injection E2 as E2.
  eapply buildLink_stuck_child with (jointData := j1).
  - reflexivity.
  - subst j1. left. reflexivity.
  - intros parent robot'.
    eapply buildLink_self_loop with (jointData := j2);
      subst j1 j2; try reflexivity.
    left. reflexivity.
Qed.

(** C3 (what the code does). [buildLink] keeps no record of the links
    it has built.  On the cyclic robot (R -> A, A -> A), which the
    parser accepts with root R, the build returns for no amount of
    fuel and no options: the recursion never ends.  On the robot with
    two paths to the link D (R -> A -> D, R -> B -> D) the build
    returns a tree with two groups for D, objects 5 and 9, and
    [robot.links] names the second one: the second arrival is not
    skipped, it wins. *)
Theorem buildLink_revisits_links :
  parseURDF parseDecimal cycleDocument noOptions = Ok (modelOf cycleDocument)
  /\ (forall fuel options,
        Builder.buildRobotStructure fuel (modelOf cycleDocument) options = None
        /\ Builder.buildRobot fuel (modelOf cycleDocument) options = None)
  /\ parseURDF parseDecimal diamondDocument noOptions = Ok (modelOf diamondDocument)
  /\ exists robot,
       Builder.buildRobotStructure 3 (modelOf diamondDocument) plainOptions = Some robot
       /\ objectsNamed robot "link_D" = [5; 9]%nat
       /\ JS.get (Builder.links robot) "D" = Some 9%nat.
Proof.
  split; [reflexivity|].
  split; [intros fuel options; split; apply cycle_never_returns|].
  split; [reflexivity|].
  assert (H : option_map
                (fun robot => (objectsNamed robot "link_D",
                               JS.get (Builder.links robot) "D"))
                (Builder.buildRobotStructure 3 (modelOf diamondDocument) plainOptions)
              = Some ([5; 9]%nat, Some 9%nat))
    by (lazy; reflexivity).
  destruct (Builder.buildRobotStructure 3 (modelOf diamondDocument) plainOptions)
    as [robot|]; [|discriminate H].
  exists robot. injection H as H1 H2. auto.
Qed.

(** ** The root link *)

Lemma setHas_setAdd s x k :
  JS.setHas (JS.setAdd s x) k = JS.setHas s k || String.eqb k x.
Proof.
  unfold JS.setAdd. destruct (JS.setHas s x) eqn:E.
  - destruct (String.eqb_spec k x) as [->|]; [now rewrite E | now rewrite orb_false_r].
  - unfold JS.setHas. rewrite existsb_app. simpl. now rewrite orb_false_r.
Qed.

Lemma setHas_fold (js : list Joint) (acc : JS.StringSet) (k : string) :
  JS.setHas (fold_left (fun set joint => JS.setAdd set (child joint)) js acc) k = true
  <-> JS.setHas acc k = true \/ exists j, In j js /\ child j = k.
Proof.
  revert acc. induction js as [|j js IH]; intros acc; cbn [fold_left].
  - split; [now left | intros [H | (j & [] & _)]; exact H].
  - rewrite IH, setHas_setAdd, orb_true_iff. split.
    + intros [[H | H] | (j' & Hin & Hc)].
      * now left.
      * right. exists j. split; [now left|]. symmetry. now apply String.eqb_eq.
      * right. exists j'. split; [now right | assumption].
    + intros [H | (j' & [-> | Hin] & Hc)].
      * left; now left.
      * left; right. apply String.eqb_eq. now symmetry.
      * right. now exists j'.
Qed.

Lemma setHas_childLinksOf (joints : JS.Map Joint) (k : string) :
  JS.setHas (childLinksOf joints) k = true
  <-> exists j, In j (JS.values joints) /\ child j = k.
Proof.
  unfold childLinksOf. rewrite setHas_fold. split.
  - intros [H | H]; [discriminate H | exact H].
  - now right.
Qed.

Lemma findRootLink_Some childLinks names root :
  findRootLink childLinks names = Some root
  <-> exists before after,
        names = (before ++ root :: after)%list
        /\ JS.setHas childLinks root = false
        /\ forall n, In n before -> JS.setHas childLinks n = true.
Proof.
  induction names as [|n names IH]; cbn [findRootLink].
  - split; [discriminate|]. intros (before & after & H & _). now destruct before.
  - destruct (JS.setHas childLinks n) eqn:E; cbn [negb].
    + rewrite IH. split.
      * intros (before & after & -> & Hroot & Hbefore).
        exists (n :: before), after. repeat split; auto.
        intros m [<- | Hm]; auto.
      * intros (before & after & Heq & Hroot & Hbefore).
        destruct before as [|b before]; cbn in Heq; injection Heq as -> ->.
        -- congruence.
        -- exists before, after. repeat split; auto.
           intros m Hm. apply Hbefore. now right.
    + split.
      * intros [= ->]. exists [], names. repeat split; auto; intros m [].
      * intros (before & after & Heq & Hroot & Hbefore).
        destruct before as [|b before]; cbn in Heq; injection Heq as -> ->.
        -- reflexivity.
        -- rewrite (Hbefore b) in E by now left. discriminate.
Qed.

Lemma findRootLink_None childLinks names :
  findRootLink childLinks names = None
  <-> forall n, In n names -> JS.setHas childLinks n = true.
Proof.
  induction names as [|n names IH]; cbn [findRootLink].
  - split; [intros _ m [] | reflexivity].
  - destruct (JS.setHas childLinks n) eqn:E; cbn [negb].
    + rewrite IH. split.
      * intros H m [<- | Hm]; auto.
      * intros H m Hm. apply H. now right.
    + split; [discriminate|]. intros H. rewrite (H n) in E by now left. discriminate.
Qed.

(** The root link of a parsed model is what the search loop finds. *)
Lemma parseURDF_rootLink pf parsed options model :
  parseURDF pf parsed options = Ok model ->
  rootLink model = findRootLink (childLinksOf (joints model)) (JS.keys (links model)).
Proof.
  unfold parseURDF.
  destruct (XML.orNull (XML.member parsed "robot")) as [robotEl|]; [|discriminate].
  destruct (forOf (getChildren robotEl "material") _ _) as [materials|]; [|discriminate].
  destruct (forOf (getChildren robotEl "link") _ _) as [links|]; [|discriminate].
  destruct (forOf (getChildren robotEl "joint") _ _) as [joints|]; [|discriminate].
  cbn [bind]. intros [= <-]. reflexivity.
Qed.

(** Without a root link nothing is built. *)
Lemma buildRobotStructure_no_root fuel model options :
  rootLink model = None ->
  exists robot,
    Builder.buildRobotStructure fuel model options = Some robot
    /\ Builder.links robot = [] /\ Builder.joints robot = [].
Proof.
  intros H. unfold Builder.buildRobotStructure. rewrite H.
  eexists. split; [reflexivity|]. split; reflexivity.
Qed.

(** C5. After parsing, the root link of the model is the first name,
    in the iteration order of the links of the model, that is the child
    of no joint of the model.  When every link is the child of some
    joint, the root link is left unset, and building from the model
    returns (with any fuel and any options) a tree whose mappings of
    links and of joints are both empty. *)
Theorem rootLink_is_first_non_child :
  forall (pf : string -> R) (parsed : XMLElement) (options : ParseURDFOptions)
         (model : RobotModel),
    parseURDF pf parsed options = Ok model ->
    (forall root,
        rootLink model = Some root
        <-> exists before after,
              JS.keys (links model) = (before ++ root :: after)%list
              /\ ~ isChildLink model root
              /\ forall n, In n before -> isChildLink model n)
    /\ ((forall n, In n (JS.keys (links model)) -> isChildLink model n) ->
        rootLink model = None
        /\ forall fuel buildOptions,
            exists robot,
              Builder.buildRobotStructure fuel model buildOptions = Some robot
              /\ Builder.links robot = [] /\ Builder.joints robot = []).
Proof.
  intros pf parsed options model Hparse.
  pose proof (parseURDF_rootLink pf parsed options model Hparse) as Hroot.
  assert (Hchild : forall n, JS.setHas (childLinksOf (joints model)) n = true
                             <-> isChildLink model n)
    by (intros n; apply setHas_childLinksOf).
  split.
  - intros root. rewrite Hroot, findRootLink_Some. split.
    + intros (before & after & Hk & Hr & Hb). exists before, after.
      repeat split; auto.
      * rewrite <- Hchild. congruence.
      * intros n Hn. apply Hchild. auto.
    + intros (before & after & Hk & Hr & Hb). exists before, after.
      repeat split; auto.
      * destruct (JS.setHas (childLinksOf (joints model)) root) eqn:E; auto.
        exfalso. apply Hr. now apply Hchild.
      * intros n Hn. apply Hchild. auto.
  - intros Hall.
    assert (Hnone : rootLink model = None).
    { rewrite Hroot. apply findRootLink_None. intros n Hn. apply Hchild. auto. }
    split; [exact Hnone|].
    intros fuel buildOptions. now apply buildRobotStructure_no_root.
Qed.

Lemma rootLink_is_first_non_child_witness :
  rootLink (modelOf selfLoopDocument) = None
  /\ forall fuel buildOptions,
      exists robot,
        Builder.buildRobotStructure fuel (modelOf selfLoopDocument) buildOptions
        = Some robot
        /\ Builder.links robot = [] /\ Builder.joints robot = [].
Proof.
  refine (proj2 (rootLink_is_first_non_child parseDecimal selfLoopDocument noOptions
                                              (modelOf selfLoopDocument) eq_refl) _).
  intros n [<- | []].
  destruct (JS.get (joints (modelOf selfLoopDocument)) "j") as [j|] eqn:E;
    [|discriminate E].
  exists j. injection E as <-. split; [left|]; reflexivity.
Defined.

(** ** Joint objects of a built robot *)

Lemma lengthSq_normalize v : lengthSq v <> 0 -> lengthSq (normalize v) = 1.
Proof.
  destruct v as [x y z]. unfold lengthSq, normalize, divideScalar, multiplyScalar, vlength.
  cbn [vx vy vz]. intros Hs.
  set (s := x * x + y * y + z * z) in *.
  assert (Hpos : 0 <= s) by (unfold s; nra).
  assert (Hsq : sqrt s * sqrt s = s) by now apply sqrt_sqrt.
  assert (Hne : sqrt s <> 0) by (intros E; rewrite E in Hsq; lra).
  destruct (Req_dec_T (sqrt s) 0) as [E | _]; [contradiction|].
  replace (x * (1 / sqrt s) * (x * (1 / sqrt s)) + y * (1 / sqrt s) * (y * (1 / sqrt s))
           + z * (1 / sqrt s) * (z * (1 / sqrt s)))
    with (s / (sqrt s * sqrt s)) by (unfold s; field; assumption).
  rewrite Hsq. now field.
Qed.

(** The axis of a new joint object has unit length unless the record
    gives the zero vector (which [normalize] leaves as it is). *)
Lemma newJointObject_axis_unit jointData :
  (forall a, Types.axis jointData = Some a -> lengthSq (a_xyz a) <> 0) ->
  lengthSq (Builder.axis (Builder.newJointObject jointData)) = 1.
Proof.
  intros H. cbn [Builder.newJointObject Builder.axis].
  destruct (Types.axis jointData) as [a|].
  - apply lengthSq_normalize. now apply H.
  - unfold lengthSq; simpl; ring.
Qed.

Lemma asBuilt_newJointObject jointData : asBuilt (Builder.newJointObject jointData).
Proof. repeat split. Qed.

Lemma asBuilt_withChild n c :
  asBuilt n ->
  asBuilt (Builder.withObject3D n (Builder.withChild (Builder.object3D n) c)).
Proof. destruct n as [[nm pos q ch] ty ax jn lim jv jd oq]. exact (fun H => H). Qed.

Lemma nth_error_updateNth {A} (f : A -> A) (l : list A) (i k : nat) :
  nth_error (Builder.updateNth i f l) k =
  if Nat.eqb i k then option_map f (nth_error l k) else nth_error l k.
Proof.
  revert i k. induction l as [|x l IH]; intros i k.
  - destruct i, k; cbn; try reflexivity. now destruct (Nat.eqb i k).
  - destruct i, k; cbn; try reflexivity. apply IH.
Qed.

Lemma jointsAsBuilt_add parent child robot :
  jointsAsBuilt robot -> jointsAsBuilt (Builder.add parent child robot).
Proof.
  intros H id n. unfold Builder.jointAt, Builder.add. cbn [Builder.objects].
  rewrite nth_error_updateNth.
  specialize (H id). unfold Builder.jointAt in H.
  destruct (Nat.eqb parent id); [|apply H].
  destruct (nth_error (Builder.objects robot) id) as [[o | o ? ? | o ? ? | j]|];
    cbn; try discriminate.
  intros [= <-]. apply asBuilt_withChild. now apply H.
Qed.

Lemma jointsAsBuilt_alloc node robot :
  jointsAsBuilt robot ->
  (forall n, node = Builder.JointNode n -> asBuilt n) ->
  jointsAsBuilt (snd (Builder.alloc node robot)).
Proof.
  intros H Hnode id n. unfold Builder.jointAt, Builder.alloc. cbn [snd Builder.objects].
  destruct (Nat.lt_ge_cases id (List.length (Builder.objects robot))) as [Hlt | Hge].
  - rewrite nth_error_app1 by assumption. apply H.
  - rewrite nth_error_app2 by assumption.
    destruct (id - List.length (Builder.objects robot))%nat as [|k]; cbn.
    + destruct node; try discriminate. intros [= <-]. now apply Hnode.
    + destruct k; discriminate.
Qed.

Lemma jointsAsBuilt_maps robot joints links :
  jointsAsBuilt robot ->
  jointsAsBuilt (Builder.mkURDFRobot (Builder.objects robot) joints links).
Proof. exact (fun H => H). Qed.

Section BuildInvariants.

Variable model : RobotModel.
Variable jointRadius : R.
Variables jointColor linkColor : N.
Variable showDebug : bool.
Variable jointsByParent : JS.Map (list Joint).

Let buildLink := Builder.buildLink model jointRadius jointColor linkColor
                                   showDebug jointsByParent.

Lemma jointsAsBuilt_createLinkGroup linkName parentObject robot :
  jointsAsBuilt robot ->
  jointsAsBuilt (snd (Builder.createLinkGroup jointRadius jointColor showDebug
                                              linkName parentObject robot)).
Proof.
  intros H. unfold Builder.createLinkGroup.
  destruct (Builder.alloc _ robot) as [linkGroup robot1] eqn:E1.
  assert (H1 : jointsAsBuilt robot1).
  { change robot1 with (snd (linkGroup, robot1)). rewrite <- E1.
    apply jointsAsBuilt_alloc; [assumption | discriminate]. }
  destruct showDebug.
  - destruct (Builder.alloc _ (Builder.setLink _ _ _)) as [sphere robot2] eqn:E2.
    cbn [snd]. apply jointsAsBuilt_add.
    change robot2 with (snd (sphere, robot2)). rewrite <- E2.
    apply jointsAsBuilt_alloc; [|discriminate].
    apply jointsAsBuilt_maps. now apply jointsAsBuilt_add.
  - cbn [snd]. apply jointsAsBuilt_maps. now apply jointsAsBuilt_add.
Qed.

Lemma jointsAsBuilt_createJointObject linkGroup jointData robot :
  jointsAsBuilt robot ->
  jointsAsBuilt (snd (Builder.createJointObject linkColor showDebug
                                                linkGroup jointData robot)).
Proof.
  intros H. unfold Builder.createJointObject.
  destruct (Builder.alloc _ robot) as [jointObject robot1] eqn:E1.
  assert (H1 : jointsAsBuilt robot1).
  { change robot1 with (snd (jointObject, robot1)). rewrite <- E1.
    apply jointsAsBuilt_alloc; [assumption|].
    intros n [= <-]. apply asBuilt_newJointObject. }
  destruct showDebug.
  - destruct (Builder.alloc _ robot1) as [line robot2] eqn:E2.
    cbn [snd]. apply jointsAsBuilt_maps. do 2 apply jointsAsBuilt_add.
    change robot2 with (snd (line, robot2)). rewrite <- E2.
    apply jointsAsBuilt_alloc; [assumption | discriminate].
  - cbn [snd]. apply jointsAsBuilt_maps. now apply jointsAsBuilt_add.
Qed.

Lemma forEach_invariant {A S} (P : S -> Prop) (xs : list A) (body : S -> A -> option S) :
  (forall s x s', In x xs -> P s -> body s x = Some s' -> P s') ->
  forall s s', P s -> Builder.forEach xs body s = Some s' -> P s'.
Proof.
  induction xs as [|x xs IH]; intros Hbody s s' Hs; cbn [Builder.forEach].
  - now intros [= <-].
  - destruct (body s x) as [s1|] eqn:E; [|discriminate].
    apply IH.
    + intros s2 x2 s3 Hin. apply Hbody. now right.
    + apply (Hbody s x s1); auto. now left.
Qed.

(** [buildLink] only adds joint objects made by [newJointObject] and
    only extends the children of the objects there are. *)
Lemma jointsAsBuilt_buildLink fuel :
  forall linkName parentObject robot robot',
    jointsAsBuilt robot ->
    buildLink fuel linkName parentObject robot = Some robot' ->
    jointsAsBuilt robot'.
Proof.
  unfold buildLink.
  induction fuel as [|fuel IH]; intros linkName parentObject robot robot' H;
    cbn [Builder.buildLink]; [discriminate|].
  destruct (JS.get (Types.links model) linkName); [|now intros [= <-]].
  pose proof (jointsAsBuilt_createLinkGroup linkName parentObject robot H) as H1.
  destruct (Builder.createLinkGroup _ _ _ _ _ _) as [linkGroup robot1].
  cbn [snd] in H1.
  apply forEach_invariant with (P := jointsAsBuilt); [|assumption].
  intros s jointData s' _ Hs.
  pose proof (jointsAsBuilt_createJointObject linkGroup jointData s Hs) as H2.
  destruct (Builder.createJointObject _ _ _ _ _) as [jointObject robot2].
  cbn [snd] in H2. now apply IH.
Qed.

Lemma forEach_returns {A S} (xs : list A) (body : S -> A -> option S) :
  (forall s x, In x xs -> exists s', body s x = Some s') ->
  forall s, exists s', Builder.forEach xs body s = Some s'.
Proof.
  induction xs as [|x xs IH]; intros Hbody s; cbn [Builder.forEach].
  - now exists s.
  - destruct (Hbody s x) as [s1 ->]; [now left|].
    apply IH. intros s2 x2 Hin. apply Hbody. now right.
Qed.

(** A rank that decreases along the joints bounds the depth of the
    recursion: with more fuel than the rank of the link the call
    returns. *)
Lemma buildLink_returns_ranked (rank : string -> nat) :
  (forall linkName jointData,
      In jointData (Builder.childJointsOf jointsByParent linkName) ->
      (rank (child jointData) < rank linkName)%nat) ->
  forall fuel linkName parentObject robot,
    (rank linkName < fuel)%nat ->
    exists robot', buildLink fuel linkName parentObject robot = Some robot'.
Proof.
  intros Hrank. unfold buildLink.
  induction fuel as [|fuel IH]; intros linkName parentObject robot Hfuel; [lia|].
  cbn [Builder.buildLink].
  destruct (JS.get (Types.links model) linkName); [|now exists robot].
  destruct (Builder.createLinkGroup _ _ _ _ _ _) as [linkGroup robot1].
  apply forEach_returns. intros s jointData Hin.
  destruct (Builder.createJointObject _ _ _ _ _) as [jointObject robot2].
  apply IH. specialize (Hrank linkName jointData Hin). lia.
Qed.

End BuildInvariants.

Lemma get_set {V} (m : JS.Map V) (k k' : string) (v : V) :
  JS.get (JS.set m k v) k' = if (k =? k')%string then Some v else JS.get m k'.
Proof.
  induction m as [|[k0 v0] m IH]; cbn [JS.set JS.get].
  - reflexivity.
  - destruct (String.eqb_spec k0 k) as [-> | Hk0]; cbn [JS.get].
    + destruct (String.eqb_spec k k'); reflexivity.
    + rewrite IH. destruct (String.eqb_spec k0 k') as [-> | Hk0'];
        [|reflexivity].
      destruct (String.eqb_spec k k'); [congruence | reflexivity].
Qed.

(** The joints listed under a parent by [indexByParent] are joints of
    the model with that parent. *)
Lemma indexByParent_sound model linkName jointData :
  In jointData (Builder.childJointsOf (Builder.indexByParent model) linkName) ->
  In jointData (JS.values (joints model)) /\ parent jointData = linkName.
Proof.
  unfold Builder.childJointsOf, Builder.indexByParent.
  set (Q := fun j : Joint => In j (JS.values (joints model))).
  assert (G : forall js acc,
             (forall k l j, JS.get acc k = Some l -> In j l -> Q j /\ parent j = k) ->
             (forall j, In j js -> Q j) ->
             forall k l j,
               JS.get
                 (fold_left
                    (fun jointsByParent joint =>
                       JS.set jointsByParent (parent joint)
                              (match JS.get jointsByParent (parent joint) with
                               | Some l => l
                               | None => []
                               end ++ [joint])%list)
                    js acc) k = Some l ->
               In j l -> Q j /\ parent j = k).
  { induction js as [|j0 js IH]; intros acc Hacc Hjs k l j; cbn [fold_left].
    - apply Hacc.
    - apply IH; [|intros j1 Hj1; apply Hjs; now right].
      clear k l j. intros k l j. rewrite get_set.
      destruct (String.eqb_spec (parent j0) k) as [<- | Hk]; [|apply Hacc].
      intros [= <-] [Hin | [<- | []]]%in_app_or.
      + destruct (JS.get acc (parent j0)) as [l0|] eqn:E; [|destruct Hin].
        now apply Hacc with l0.
      + split; [|reflexivity]. apply Hjs. now left. }
  destruct (JS.get _ linkName) as [l|] eqn:E; [|intros []].
  intros Hin.
  apply (G (JS.values (joints model)) []) with (l := l); auto.
  intros k l0 j; discriminate.
Qed.

(** On an acyclic model (the links can be ranked so that every joint
    goes from a link to one of lower rank) the build returns once the
    fuel exceeds the rank of the root. *)
Lemma buildRobotStructure_returns_acyclic model options (rank : string -> nat) fuel :
  (forall j, In j (JS.values (joints model)) -> (rank (child j) < rank (parent j))%nat) ->
  (forall root, rootLink model = Some root -> (rank root < fuel)%nat) ->
  exists robot, Builder.buildRobotStructure fuel model options = Some robot.
Proof.
  intros Hrank Hfuel. unfold Builder.buildRobotStructure.
  destruct (rootLink model) as [root|]; [|eexists; reflexivity].
  destruct (JS.truthy root); [|eexists; reflexivity].
  apply buildLink_returns_ranked with rank; [|now apply Hfuel].
  intros linkName jointData [Hin <-]%indexByParent_sound. now apply Hrank.
Qed.

(** Every joint object of a built robot is as [buildLink] makes it. *)
Lemma buildRobotStructure_jointsAsBuilt fuel model options robot :
  Builder.buildRobotStructure fuel model options = Some robot ->
  jointsAsBuilt robot.
Proof.
  unfold Builder.buildRobotStructure.
  set (robot0 := Builder.mkURDFRobot _ [] []).
  assert (H0 : jointsAsBuilt robot0).
  { intros [|[|id]] n; cbn; discriminate. }
  destruct (rootLink model) as [root|]; [|now intros [= <-]].
  destruct (JS.truthy root); [|now intros [= <-]].
  now apply jointsAsBuilt_buildLink.
Qed.

(** The joint objects of a built robot meet what the properties of
    [setJointValue] ask of a node: the closure holds the origin rotation
    of the joint record, and the axis has unit length unless the record
    gives the zero vector. *)
Lemma built_joint_closure_and_axis fuel model options robot id n :
  Builder.buildRobotStructure fuel model options = Some robot ->
  Builder.jointAt robot id = Some n ->
  builtClosure n
  /\ ((forall a, Types.axis (Builder.jointData n) = Some a -> lengthSq (a_xyz a) <> 0) ->
      lengthSq (Builder.axis n) = 1).
Proof.
  intros Hbuild Hn.
  destruct (buildRobotStructure_jointsAsBuilt fuel model options robot Hbuild id n Hn)
    as (Hclosure & _ & _ & _ & Haxis & _).
  split; [exact Hclosure|].
  intros Hnz. rewrite Haxis.
  exact (newJointObject_axis_unit (Builder.jointData n) Hnz).
Qed.

(** ** The scene a build leaves *)

Lemma indexByParent_fold (js : list Joint) (acc : JS.Map (list Joint)) (linkName : string) :
  Builder.childJointsOf
    (fold_left
       (fun jointsByParent joint =>
          let list := match JS.get jointsByParent (parent joint) with
                      | Some l => l
                      | None => []
                      end in
          JS.set jointsByParent (parent joint) (list ++ [joint])%list)
       js acc) linkName
  = (Builder.childJointsOf acc linkName
     ++ filter (fun j => parent j =? linkName) js)%list.
Proof.
  revert acc. induction js as [|j js IH]; intros acc; cbn [fold_left filter].
  - now rewrite app_nil_r.
  - rewrite IH. unfold Builder.childJointsOf at 1. rewrite get_set.
    destruct (String.eqb_spec (parent j) linkName) as [E | E].
    + unfold Builder.childJointsOf. rewrite E.
      now rewrite <- app_assoc.
    + reflexivity.
Qed.

Lemma childJointsOf_indexByParent model linkName :
  Builder.childJointsOf (Builder.indexByParent model) linkName = jointsFrom model linkName.
Proof. apply (indexByParent_fold (JS.values (joints model)) [] linkName). Qed.

Lemma In_jointsFrom model linkName j :
  In j (jointsFrom model linkName) <-> In j (JS.values (joints model)) /\ parent j = linkName.
Proof.
  unfold jointsFrom. rewrite filter_In.
  split; intros [H1 H2]; split; auto; now apply String.eqb_eq.
Qed.

Lemma grown_refl robot : grown robot robot.
Proof. intros id n H. now exists n. Qed.

Lemma grown_trans a b c : grown a b -> grown b c -> grown a c.
Proof.
  intros Hab Hbc id n H.
  destruct (Hab id n H) as (n1 & H1 & E1).
  destruct (Hbc id n1 H1) as (n2 & H2 & E2).
  exists n2. split; [assumption | congruence].
Qed.

Lemma grown_alloc node robot : grown robot (snd (Builder.alloc node robot)).
Proof.
  intros id n H. exists n. split; [|reflexivity].
  cbn [Builder.alloc snd Builder.objects].
  rewrite nth_error_app1; [assumption|].
  apply nth_error_Some. congruence.
Qed.

Lemma detached_withChild n c :
  detached (Builder.mapObject (fun o => Builder.withChild o c) n) = detached n.
Proof. now destruct n as [o | o ? ? | o ? ? | j]. Qed.

Lemma grown_add parent child robot : grown robot (Builder.add parent child robot).
Proof.
  intros id n H. cbn [Builder.add Builder.objects].
  rewrite nth_error_updateNth, H.
  destruct (Nat.eqb parent id); cbn [option_map].
  - eexists. split; [reflexivity | apply detached_withChild].
  - now exists n.
Qed.

Lemma grown_maps robot robot' joints links :
  grown robot robot' ->
  grown robot (Builder.mkURDFRobot (Builder.objects robot') joints links).
Proof. exact (fun H => H). Qed.

Lemma alloc_fst node robot :
  fst (Builder.alloc node robot) = List.length (Builder.objects robot).
Proof. reflexivity. Qed.

Lemma alloc_nth node robot :
  nth_error (Builder.objects (snd (Builder.alloc node robot)))
            (List.length (Builder.objects robot)) = Some node.
Proof.
  cbn [Builder.alloc snd Builder.objects].
  rewrite nth_error_app2 by lia. now rewrite Nat.sub_diag.
Qed.

Lemma keysKept_refl {V} (m : JS.Map V) : keysKept m m.
Proof. now intros k. Qed.

Lemma keysKept_trans {V} (a b c : JS.Map V) : keysKept a b -> keysKept b c -> keysKept a c.
Proof. intros Hab Hbc k H. auto. Qed.

Lemma keysKept_set {V} (m : JS.Map V) k v : keysKept m (JS.set m k v).
Proof.
  intros k' H. rewrite get_set. now destruct (k =? k').
Qed.

Lemma detached_group n' o :
  detached n' = detached (Builder.GroupNode o) ->
  exists o', n' = Builder.GroupNode o'
             /\ Builder.name o' = Builder.name o
             /\ Builder.position o' = Builder.position o
             /\ Builder.quaternion o' = Builder.quaternion o.
Proof.
  destruct n' as [o' | o' ? ? | o' ? ? | j']; cbn; try discriminate.
  intros [= H1 H2 H3]. now exists o'.
Qed.

Lemma detached_joint n' j :
  detached n' = detached (Builder.JointNode j) ->
  exists j', n' = Builder.JointNode j'
             /\ Builder.name (Builder.object3D j') = Builder.name (Builder.object3D j)
             /\ Builder.jointName j' = Builder.jointName j
             /\ Builder.jointData j' = Builder.jointData j.
Proof.
  destruct n' as [o' | o' ? ? | o' ? ? | j']; cbn; try discriminate.
  intros [= H1 H2 H3 H4 H5 H6 H7 H8 H9 H10]. now exists j'.
Qed.

Lemma mapsAgree_grown model robot robot' :
  mapsAgree model robot -> grown robot robot' ->
  Builder.links robot' = Builder.links robot ->
  Builder.joints robot' = Builder.joints robot ->
  mapsAgree model robot'.
Proof.
  intros [Hl Hj] Hg El Ej. split.
  - intros k id. rewrite El. intros H.
    destruct (Hl k id H) as (Hm & o & Ho & Hname). split; [assumption|].
    destruct (Hg id _ Ho) as (n' & Hn' & (o' & -> & Hname' & _)%detached_group).
    exists o'. split; [assumption | congruence].
  - intros k id. rewrite Ej. intros H.
    destruct (Hj k id H) as (j & Hat & H1 & H2 & H3 & H4).
    unfold Builder.jointAt in Hat.
    destruct (nth_error (Builder.objects robot) id) as [[| | |j0]|] eqn:E; try discriminate.
    injection Hat as ->.
    destruct (Hg id _ E) as (n' & Hn' & (j' & -> & Hname & Hjn & Hjd)%detached_joint).
    exists j'. unfold Builder.jointAt. rewrite Hn'.
    repeat split; congruence.
Qed.

(** What [createLinkGroup] leaves: the objects there were, the new
    group under the index returned, entered in [robot.links]. *)
Lemma createLinkGroup_spec jointRadius jointColor showDebug linkName parentObject robot :
  let linkGroup := fst (Builder.createLinkGroup jointRadius jointColor showDebug
         linkName parentObject robot) in
  let robot' := snd (Builder.createLinkGroup jointRadius jointColor showDebug
         linkName parentObject robot) in
  grown robot robot'
  /\ linkGroup = List.length (Builder.objects robot)
  /\ Builder.links robot' = JS.set (Builder.links robot) linkName linkGroup
  /\ Builder.joints robot' = Builder.joints robot
  /\ exists o, nth_error (Builder.objects robot') linkGroup = Some (Builder.GroupNode o)
               /\ Builder.name o = "link_" ++ linkName.
Proof.
  unfold Builder.createLinkGroup.
  set (group := Builder.GroupNode _).
  destruct (Builder.alloc group robot) as [linkGroup robot1] eqn:E1.
  assert (Hid : linkGroup = List.length (Builder.objects robot))
    by (change linkGroup with (fst (linkGroup, robot1)); now rewrite <- E1).
  assert (H1 : grown robot robot1)
    by (change robot1 with (snd (linkGroup, robot1)); rewrite <- E1; apply grown_alloc).
  assert (N1 : nth_error (Builder.objects robot1) linkGroup = Some group)
    by (change robot1 with (snd (linkGroup, robot1)); rewrite <- E1, Hid; apply alloc_nth).
  assert (L1 : Builder.links robot1 = Builder.links robot /\
               Builder.joints robot1 = Builder.joints robot)
    by (change robot1 with (snd (linkGroup, robot1)); now rewrite <- E1).
  destruct L1 as [L1 J1].
  set (robot3 := Builder.setLink linkName linkGroup (Builder.add parentObject linkGroup robot1)).
  assert (H3 : grown robot1 robot3) by apply grown_add.
  assert (G : forall robot4,
             grown robot3 robot4 ->
             Builder.links robot4 = Builder.links robot3 ->
             Builder.joints robot4 = Builder.joints robot3 ->
             grown robot robot4
             /\ linkGroup = List.length (Builder.objects robot)
             /\ Builder.links robot4 = JS.set (Builder.links robot) linkName linkGroup
             /\ Builder.joints robot4 = Builder.joints robot
             /\ exists o, nth_error (Builder.objects robot4) linkGroup
                          = Some (Builder.GroupNode o)
                          /\ Builder.name o = "link_" ++ linkName).
  { intros robot4 H4 L4 J4.
    split; [eapply grown_trans; [exact H1|]; eapply grown_trans; [exact H3 | exact H4]|].
    split; [exact Hid|].
    split; [rewrite L4; cbn; now rewrite L1|].
    split; [rewrite J4; cbn; exact J1|].
    destruct (H3 _ _ N1) as (n3 & N3 & E3).
    destruct (H4 _ _ N3) as (n4 & N4 & E4).
    rewrite E3 in E4. apply detached_group in E4 as (o & -> & Hname & _).
    exists o. split; [exact N4 | exact Hname]. }
  destruct showDebug.
  - destruct (Builder.alloc _ robot3) as [sphere robot4] eqn:E4. cbn [fst snd].
    apply G.
    + eapply grown_trans; [|apply grown_add].
      change robot4 with (snd (sphere, robot4)). rewrite <- E4. apply grown_alloc.
    + change robot4 with (snd (sphere, robot4)). now rewrite <- E4.
    + change robot4 with (snd (sphere, robot4)). now rewrite <- E4.
  - cbn [fst snd]. apply G; [apply grown_refl | reflexivity | reflexivity].
Qed.

(** What [createJointObject] leaves: the objects there were, the new
    joint object under the index returned, entered in [robot.joints]. *)
Lemma createJointObject_spec linkColor showDebug linkGroup jointData robot :
  let jointObject := fst (Builder.createJointObject linkColor showDebug
         linkGroup jointData robot) in
  let robot' := snd (Builder.createJointObject linkColor showDebug
         linkGroup jointData robot) in
  grown robot robot'
  /\ jointObject = List.length (Builder.objects robot)
  /\ Builder.links robot' = Builder.links robot
  /\ Builder.joints robot' = JS.set (Builder.joints robot) (j_name jointData) jointObject
  /\ exists j, Builder.jointAt robot' jointObject = Some j
               /\ detached (Builder.JointNode j)
                  = detached (Builder.JointNode (Builder.newJointObject jointData)).
Proof.
  unfold Builder.createJointObject.
  set (node := Builder.JointNode _).
  destruct (Builder.alloc node robot) as [jointObject robot1] eqn:E1.
  assert (Hid : jointObject = List.length (Builder.objects robot))
    by (change jointObject with (fst (jointObject, robot1)); now rewrite <- E1).
  assert (H1 : grown robot robot1)
    by (change robot1 with (snd (jointObject, robot1)); rewrite <- E1; apply grown_alloc).
  assert (N1 : nth_error (Builder.objects robot1) jointObject = Some node)
    by (change robot1 with (snd (jointObject, robot1)); rewrite <- E1, Hid; apply alloc_nth).
  assert (L1 : Builder.links robot1 = Builder.links robot /\
               Builder.joints robot1 = Builder.joints robot)
    by (change robot1 with (snd (jointObject, robot1)); now rewrite <- E1).
  destruct L1 as [L1 J1].
  assert (G : forall robot2,
             grown robot1 robot2 ->
             Builder.links robot2 = Builder.links robot1 ->
             Builder.joints robot2 = Builder.joints robot1 ->
             let robot' := Builder.setJoint (j_name jointData) jointObject
                             (Builder.add linkGroup jointObject robot2) in
             grown robot robot'
             /\ jointObject = List.length (Builder.objects robot)
             /\ Builder.links robot' = Builder.links robot
             /\ Builder.joints robot'
                = JS.set (Builder.joints robot) (j_name jointData) jointObject
             /\ exists j, Builder.jointAt robot' jointObject = Some j
                          /\ detached (Builder.JointNode j) = detached node).
  { intros robot2 H2 L2 J2 robot'.
    assert (H3 : grown robot2 robot') by apply grown_add.
    split; [eapply grown_trans; [exact H1|]; eapply grown_trans; [exact H2 | exact H3]|].
    split; [exact Hid|].
    split; [cbn; congruence|].
    split; [cbn; congruence|].
    destruct (H2 _ _ N1) as (n2 & N2 & E2).
    destruct (H3 _ _ N2) as (n3 & N3 & E3).
    rewrite E2 in E3. pose proof E3 as E3'.
    apply detached_joint in E3 as (j & -> & _).
    exists j. unfold Builder.jointAt. rewrite N3. split; [reflexivity | exact E3']. }
  destruct showDebug.
  - destruct (Builder.alloc _ robot1) as [line robot2] eqn:E2. cbn [fst snd].
    apply (G (Builder.add linkGroup line robot2)).
    + eapply grown_trans; [|apply grown_add].
      change robot2 with (snd (line, robot2)). rewrite <- E2. apply grown_alloc.
    + change robot2 with (snd (line, robot2)). now rewrite <- E2.
    + change robot2 with (snd (line, robot2)). now rewrite <- E2.
  - cbn [fst snd]. apply G; [apply grown_refl | reflexivity | reflexivity].
Qed.


Lemma kept_refl robot : kept robot robot.
Proof. split; [apply grown_refl | split; apply keysKept_refl]. Qed.

Lemma kept_trans a b c : kept a b -> kept b c -> kept a c.
Proof.
  intros (H1 & H2 & H3) (H4 & H5 & H6).
  split; [eapply grown_trans; eassumption|].
  split; eapply keysKept_trans; eassumption.
Qed.

Lemma kept_createLinkGroup jointRadius jointColor showDebug linkName parentObject robot :
  kept robot (snd (Builder.createLinkGroup jointRadius jointColor showDebug
                                             linkName parentObject robot)).
Proof.
  destruct (createLinkGroup_spec jointRadius jointColor showDebug linkName parentObject robot)
    as (Hg & _ & Hl & Hj & _).
  split; [exact Hg|]. split.
  - rewrite Hl. apply keysKept_set.
  - rewrite Hj. apply keysKept_refl.
Qed.

Lemma kept_createJointObject linkColor showDebug linkGroup jointData robot :
  kept robot (snd (Builder.createJointObject linkColor showDebug
                                               linkGroup jointData robot)).
Proof.
  destruct (createJointObject_spec linkColor showDebug linkGroup jointData robot)
    as (Hg & _ & Hl & Hj & _).
  split; [exact Hg|]. split.
  - rewrite Hl. apply keysKept_refl.
  - rewrite Hj. apply keysKept_set.
Qed.

Lemma forEach_each {A S} (rel : S -> S -> Prop) (Q : A -> S -> Prop)
      (xs : list A) (body : S -> A -> option S) :
  (forall s, rel s s) ->
  (forall a b c, rel a b -> rel b c -> rel a c) ->
  (forall x s s', Q x s -> rel s s' -> Q x s') ->
  (forall s x s', In x xs -> body s x = Some s' -> rel s s' /\ Q x s') ->
  forall s s', Builder.forEach xs body s = Some s' ->
               rel s s' /\ forall x, In x xs -> Q x s'.
Proof.
  intros Hrefl Htrans Hmono.
  induction xs as [|x xs IH]; intros Hbody s s'; cbn [Builder.forEach].
  - intros [= <-]. split; [apply Hrefl | intros x []].
  - destruct (body s x) as [s1|] eqn:E; [|discriminate].
    intros Hrest.
    destruct (Hbody s x s1 (or_introl eq_refl) E) as [R1 Q1].
    destruct (IH (fun s0 x0 s0' Hin => Hbody s0 x0 s0' (or_intror Hin)) s1 s' Hrest)
      as [R2 Q2].
    split; [now apply Htrans with s1|].
    intros x0 [<- | Hin]; [now apply Hmono with s1 | now apply Q2].
Qed.

Section BuildScene.

Variable model : RobotModel.
Variable jointRadius : R.
Variables jointColor linkColor : N.
Variable showDebug : bool.
Variable jointsByParent : JS.Map (list Joint).

Hypothesis jointsByParent_index :
  forall linkName, Builder.childJointsOf jointsByParent linkName = jointsFrom model linkName.

Let buildLink := Builder.buildLink model jointRadius jointColor linkColor
                                   showDebug jointsByParent.

(** A call of [buildLink] that returns keeps the objects and the names
    there were. *)
Lemma buildLink_kept fuel :
  forall linkName parentObject robot robot',
    buildLink fuel linkName parentObject robot = Some robot' -> kept robot robot'.
Proof.
  unfold buildLink.
  induction fuel as [|fuel IH]; intros linkName parentObject robot robot';
    cbn [Builder.buildLink]; [discriminate|].
  destruct (JS.get (links model) linkName); [|intros [= <-]; apply kept_refl].
  pose proof (kept_createLinkGroup jointRadius jointColor showDebug linkName parentObject robot) as H1.
  destruct (Builder.createLinkGroup _ _ _ _ _ _) as [linkGroup robot1].
  cbn [snd] in H1.
  apply forEach_invariant with (P := kept robot); [|assumption].
  intros s jointData s' _ Hs.
  pose proof (kept_createJointObject linkColor showDebug linkGroup jointData s) as H2.
  destruct (Builder.createJointObject _ _ _ _ _) as [jointObject robot2].
  cbn [snd] in H2. intros H3%IH.
  apply kept_trans with s; [assumption|]. now apply kept_trans with robot2.
Qed.

Lemma mapsAgree_createLinkGroup linkName parentObject robot :
  JS.get (links model) linkName <> None ->
  mapsAgree model robot ->
  mapsAgree model (snd (Builder.createLinkGroup jointRadius jointColor showDebug
                                                 linkName parentObject robot)).
Proof.
  intros Hlink Hagree.
  destruct (createLinkGroup_spec jointRadius jointColor showDebug linkName parentObject robot)
    as (Hg & Hid & Hl & Hj & o & Ho & Hname).
  set (robot' := snd (Builder.createLinkGroup jointRadius jointColor showDebug
         linkName parentObject robot)) in *.
  set (linkGroup := fst (Builder.createLinkGroup jointRadius jointColor showDebug
         linkName parentObject robot)) in *.
  assert (Hold : mapsAgree model
                   (Builder.mkURDFRobot (Builder.objects robot')
                                        (Builder.joints robot) (Builder.links robot))).
  { apply mapsAgree_grown with robot; auto. }
  destruct Hold as [Hl0 Hj0]. split.
  - intros k id. rewrite Hl, get_set.
    destruct (String.eqb_spec linkName k) as [<- | Hk]; [|apply Hl0].
    intros [= <-]. split; [assumption|]. now exists o.
  - intros k id. rewrite Hj. intros H.
    destruct (Hj0 k id H) as (j & Hat & Hrest). now exists j.
Qed.

Lemma mapsAgree_createJointObject linkGroup jointData robot :
  In jointData (JS.values (joints model)) ->
  mapsAgree model robot ->
  mapsAgree model (snd (Builder.createJointObject linkColor showDebug
                                                   linkGroup jointData robot)).
Proof.
  intros Hin Hagree.
  destruct (createJointObject_spec linkColor showDebug linkGroup jointData robot)
    as (Hg & Hid & Hl & Hj & j & Hat & Hdet).
  set (robot' := snd (Builder.createJointObject linkColor showDebug
         linkGroup jointData robot)) in *.
  set (jointObject := fst (Builder.createJointObject linkColor showDebug
         linkGroup jointData robot)) in *.
  assert (Hold : mapsAgree model
                   (Builder.mkURDFRobot (Builder.objects robot')
                                        (Builder.joints robot) (Builder.links robot))).
  { apply mapsAgree_grown with robot; auto. }
  destruct Hold as [Hl0 Hj0]. split.
  - intros k id. rewrite Hl. apply Hl0.
  - intros k id. rewrite Hj, get_set.
    destruct (String.eqb_spec (j_name jointData) k) as [<- | Hk].
    + intros [= <-]. exists j. split; [exact Hat|].
      apply detached_joint in Hdet as (j' & [= <-] & H1 & H2 & H3).
      rewrite H1, H2, H3. repeat split; auto.
    + intros H. destruct (Hj0 k id H) as (j0 & Hat0 & Hrest). now exists j0.
Qed.

(** [buildLink] keeps the two maps in agreement with the scene. *)
Lemma mapsAgree_buildLink fuel :
  forall linkName parentObject robot robot',
    mapsAgree model robot ->
    buildLink fuel linkName parentObject robot = Some robot' ->
    mapsAgree model robot'.
Proof.
  unfold buildLink.
  induction fuel as [|fuel IH]; intros linkName parentObject robot robot' H;
    cbn [Builder.buildLink]; [discriminate|].
  destruct (JS.get (links model) linkName) as [link|] eqn:Hlink; [|now intros [= <-]].
  assert (Hsome : JS.get (links model) linkName <> None) by congruence.
  pose proof (mapsAgree_createLinkGroup linkName parentObject robot Hsome H) as H1.
  destruct (Builder.createLinkGroup _ _ _ _ _ _) as [linkGroup robot1].
  cbn [snd] in H1.
  intros Hloop.
  assert (G : mapsAgree model robot' /\ True).
  { revert Hloop. generalize dependent robot1.
    assert (Hin : forall j, In j (Builder.childJointsOf jointsByParent linkName) ->
                            In j (JS.values (joints model))).
    { intros j. rewrite jointsByParent_index. now intros [Hj _]%In_jointsFrom. }
    induction (Builder.childJointsOf jointsByParent linkName) as [|jointData rest IHl];
      intros robot1 H1; cbn [Builder.forEach].
    - intros [= <-]. auto.
    - pose proof (mapsAgree_createJointObject linkGroup jointData robot1
                    (Hin jointData (or_introl eq_refl)) H1) as H2.
          destruct (Builder.createJointObject _ _ _ _ _) as [jointObject robot2].
      cbn [snd] in H2.
      destruct (Builder.buildLink _ _ _ _ _ _ fuel _ _ robot2) as [robot3|] eqn:E3;
        [|discriminate].
      apply IHl; [intros j Hj; apply Hin; now right|].
      now apply IH with (child jointData) jointObject robot2. }
  apply G.
Qed.


Lemma visits_snoc a b jointData :
  visits model a b ->
  JS.get (links model) b <> None ->
  In jointData (JS.values (joints model)) ->
  parent jointData = b ->
  visits model a (child jointData).
Proof.
  intros Hv Hb Hin Hp. induction Hv as [n | n j t Hn Hj Hpj Hv IH].
  - apply visits_below with jointData; auto. apply visits_here.
  - apply visits_below with j; auto.
Qed.

Lemma reachedLink_fromRoot linkName :
  fromRoot model linkName -> JS.get (links model) linkName <> None ->
  reachedLink model linkName.
Proof. intros (root & H1 & H2 & H3) H. now exists root. Qed.

(** Soundness: what a call started on a link the build came to enters
    in the maps belongs to links the build came to. *)
Lemma mapsReached_buildLink fuel :
  forall linkName parentObject robot robot',
    fromRoot model linkName ->
    mapsReached model robot ->
    buildLink fuel linkName parentObject robot = Some robot' ->
    mapsReached model robot'.
Proof.
  unfold buildLink.
  induction fuel as [|fuel IH]; intros linkName parentObject robot robot' Hfrom H;
    cbn [Builder.buildLink]; [discriminate|].
  destruct (JS.get (links model) linkName) as [link|] eqn:Hlink; [|now intros [= <-]].
  assert (Hsome : JS.get (links model) linkName <> None) by congruence.
  assert (Hreached : reachedLink model linkName) by now apply reachedLink_fromRoot.
  destruct (createLinkGroup_spec jointRadius jointColor showDebug linkName parentObject robot) as (_ & _ & Hl & Hj & _).
  destruct (Builder.createLinkGroup _ _ _ _ _ _) as [linkGroup robot1].
  cbn [fst snd] in Hl, Hj.
  assert (H1 : mapsReached model robot1).
  { destruct H as [HL HJ]. split.
    - intros k. rewrite Hl, get_set.
      destruct (String.eqb_spec linkName k) as [<- | Hk]; [auto | apply HL].
    - intros k. rewrite Hj. apply HJ. }
  clear Hl Hj H.
  assert (Hin : forall j, In j (Builder.childJointsOf jointsByParent linkName) ->
                          In j (JS.values (joints model)) /\ parent j = linkName).
  { intros j. rewrite jointsByParent_index. apply In_jointsFrom. }
  revert H1. generalize robot1. clear robot1.
  induction (Builder.childJointsOf jointsByParent linkName) as [|jointData rest IHl];
    intros robot1 H1; cbn [Builder.forEach].
  - now intros [= <-].
  - destruct (Hin jointData (or_introl eq_refl)) as [Hj Hp].
    destruct (createJointObject_spec linkColor showDebug linkGroup jointData robot1) as (_ & _ & Hl2 & Hj2 & _).
    destruct (Builder.createJointObject _ _ _ _ _) as [jointObject robot2].
    cbn [fst snd] in Hl2, Hj2.
    assert (H2 : mapsReached model robot2).
    { destruct H1 as [HL HJ]. split.
      - intros k. rewrite Hl2. apply HL.
      - intros k. rewrite Hj2, get_set.
        destruct (String.eqb_spec (j_name jointData) k) as [<- | Hk]; [|apply HJ].
        intros _. exists jointData. repeat split; auto. now rewrite Hp. }
    destruct (Builder.buildLink _ _ _ _ _ _ fuel _ _ robot2) as [robot3|] eqn:E3;
      [|discriminate].
    apply IHl; [intros j Hj'; apply Hin; now right|].
    apply IH with (child jointData) jointObject robot2; auto.
    destruct Hfrom as (root & Hr1 & Hr2 & Hr3).
    exists root. repeat split; auto. now apply visits_snoc with linkName.
Qed.

(** Completeness: a call that returns has entered every link of the
    model it comes to, and every joint that leaves such a link. *)
Lemma buildLink_enters fuel :
  forall linkName parentObject robot robot',
    buildLink fuel linkName parentObject robot = Some robot' ->
    forall target,
      visits model linkName target ->
      JS.get (links model) target <> None ->
      JS.get (Builder.links robot') target <> None
      /\ forall j, In j (JS.values (joints model)) -> parent j = target ->
                   JS.get (Builder.joints robot') (j_name j) <> None.
Proof.
  induction fuel as [|fuel IH]; intros linkName parentObject robot robot';
    unfold buildLink; cbn [Builder.buildLink]; [discriminate|].
  destruct (JS.get (links model) linkName) as [link|] eqn:Hlink.
  2:{ intros _ target Hv Ht. exfalso.
      destruct Hv as [n | n j t Hn _ _ _]; congruence. }
  destruct (createLinkGroup_spec jointRadius jointColor showDebug linkName parentObject robot) as (_ & _ & Hl & _).
  destruct (Builder.createLinkGroup _ _ _ _ _ _) as [linkGroup robot1].
  cbn [fst snd] in Hl.
  intros Hloop.
  set (Q := fun (x : Joint) (s : Builder.URDFRobot) =>
              JS.get (Builder.joints s) (j_name x) <> None
              /\ forall target,
                  visits model (child x) target ->
                  JS.get (links model) target <> None ->
                  JS.get (Builder.links s) target <> None
                  /\ forall j, In j (JS.values (joints model)) -> parent j = target ->
                               JS.get (Builder.joints s) (j_name j) <> None).
  assert (Hmono : forall x s s', Q x s -> kept s s' -> Q x s').
  { intros x s s' [Q1 Q2] (_ & KL & KJ). split; [now apply KJ|].
    intros target Hv Ht. destruct (Q2 target Hv Ht) as [Q3 Q4].
    split; [now apply KL|]. intros j Hj Hp. apply KJ. now apply Q4. }
  pose proof (fun Hbody => forEach_each kept Q _ _ kept_refl kept_trans Hmono Hbody
                                        _ _ Hloop) as F.
  destruct F as [Hkept Heach].
  - intros s x s' _.
    pose proof (kept_createJointObject linkColor showDebug linkGroup x s) as K2.
    destruct (createJointObject_spec linkColor showDebug linkGroup x s) as (_ & _ & _ & Hj2 & _).
    destruct (Builder.createJointObject _ _ _ _ _) as [jointObject robot2].
    cbn [fst snd] in K2, Hj2. intros Hcall.
    pose proof (buildLink_kept fuel _ _ _ _ Hcall) as K3.
    split; [now apply kept_trans with robot2|].
    split.
    + destruct K3 as (_ & _ & KJ). apply KJ. rewrite Hj2, get_set.
      now rewrite String.eqb_refl.
    + intros target Hv Ht. now apply (IH _ _ _ _ Hcall).
  - intros target Hv Ht.
    destruct Hkept as (_ & KL & KJ).
    assert (Hidx : forall j, In j (JS.values (joints model)) -> parent j = linkName ->
                             In j (Builder.childJointsOf jointsByParent linkName)).
    { intros j Hj Hp. rewrite jointsByParent_index. now apply In_jointsFrom. }
    inversion Hv as [n E1 E2 | n j0 t Hn Hj0 Hp0 Hv0 E1 E2]; subst.
    + split.
      * apply KL. rewrite Hl, get_set. now rewrite String.eqb_refl.
      * intros j Hj Hp. now apply (Heach j (Hidx j Hj Hp)).
    + destruct (Heach j0 (Hidx j0 Hj0 eq_refl)) as [_ Q2]. now apply Q2.
Qed.

End BuildScene.

(** A build that returns is a call of [buildLink] on the root link from
    the robot group alone, or (no root link) the robot group alone. *)
Lemma buildRobotStructure_cases fuel model options robot :
  Builder.buildRobotStructure fuel model options = Some robot ->
  exists group,
    Builder.name group = name model
    /\ Builder.position group = mkVector3 0 0 0
    /\ Builder.quaternion group =
       (if Builder.getOr (Builder.convertToYUp options) true
        then setFromEuler (mkEuler (- PI / 2) 0 0 XYZ)
        else identityQuaternion)
    /\ Builder.children group = []
    /\ let robot0 := Builder.mkURDFRobot [Builder.GroupNode group] [] [] in
       ((rootLink model = None \/ rootLink model = Some "") /\ robot = robot0)
       \/ exists root,
           rootLink model = Some root /\ root <> ""
           /\ Builder.buildLink model
                (Builder.getOr (Builder.jointRadius options) (2 / 100))
                (Builder.getOr (Builder.jointColor options) 0xff0000%N)
                (Builder.getOr (Builder.linkColor options) 0x00ff00%N)
                (Builder.getOr (Builder.showDebug options) true)
                (Builder.indexByParent model) fuel root 0%nat robot0 = Some robot.
Proof.
  unfold Builder.buildRobotStructure.
  set (group := if Builder.getOr (Builder.convertToYUp options) true then _ else _).
  intros H. exists group.
  split; [unfold group; now destruct (Builder.getOr _ true)|].
  split; [unfold group; now destruct (Builder.getOr _ true)|].
  split; [unfold group; now destruct (Builder.getOr _ true)|].
  split; [unfold group; now destruct (Builder.getOr _ true)|].
  cbv zeta. set (robot0 := Builder.mkURDFRobot [Builder.GroupNode group] [] []) in *.
  destruct (rootLink model) as [root|]; [|left; split; [now left | congruence]].
  destruct (JS.truthy root) eqn:E.
  - right. exists root. apply truthy_true in E. auto.
  - left. split; [|congruence]. right.
    unfold JS.truthy in E. apply negb_false_iff, String.eqb_eq in E. now subst.
Qed.

Lemma buildRobotStructure_kept fuel model options robot :
  Builder.buildRobotStructure fuel model options = Some robot ->
  exists group,
    Builder.name group = name model
    /\ Builder.position group = mkVector3 0 0 0
    /\ Builder.quaternion group =
       (if Builder.getOr (Builder.convertToYUp options) true
        then setFromEuler (mkEuler (- PI / 2) 0 0 XYZ)
        else identityQuaternion)
    /\ kept (Builder.mkURDFRobot [Builder.GroupNode group] [] []) robot.
Proof.
  intros (group & H1 & H2 & H3 & _ & H)%buildRobotStructure_cases.
  exists group. repeat (split; [assumption|]).
  destruct H as [[_ ->] | (root & _ & _ & H)]; [apply kept_refl|].
  now apply buildLink_kept in H.
Qed.

Lemma convertToYUp_rotation (v : Vector3) :
  applyQuaternion v (setFromEuler (mkEuler (- PI / 2) 0 0 XYZ))
  = mkVector3 (vx v) (vz v) (- vy v).
Proof.
  assert (E : setFromEuler (mkEuler (- PI / 2) 0 0 XYZ)
              = setFromAxisAngle unitX (- PI / 2)).
  { unfold setFromEuler, setFromAxisAngle, unitX; cbn [ex ey ez order vx vy vz].
    rewrite zero_half, sin_0, cos_0. f_equal; ring. }
  rewrite E, setFromAxisAngle_rotAxis by apply lengthSq_unit.
  rewrite rotAxis_X. unfold rotX.
  replace (- PI / 2) with (- (PI / 2)) by field.
  rewrite cos_neg, sin_neg, cos_PI2, sin_PI2.
  destruct v as [x y z]; cbn [vx vy vz]. f_equal; ring.
Qed.

Lemma applyQuaternion_identity (v : Vector3) : applyQuaternion v identityQuaternion = v.
Proof.
  destruct v as [x y z]. unfold applyQuaternion, identityQuaternion; cbn. f_equal; ring.
Qed.

(** X1. The robot group is object 0 of every built scene; it carries
    the name of the model and sits at the origin.  Unless
    [convertToYUp] is switched off it turns the Z-up frame of URDF into
    the Y-up frame of three.js: the point [(x, y, z)] of the robot goes
    to [(x, z, -y)], so the URDF up axis becomes the three.js up axis.
    With [convertToYUp: false] the group does not turn anything.
    Building the links below leaves name, position and orientation of
    the group as they are. *)
Theorem robot_group_converts_to_Y_up :
  forall (fuel : nat) (model : RobotModel) (options : Builder.BuildRobotOptions)
         (robot : Builder.URDFRobot),
    Builder.buildRobotStructure fuel model options = Some robot ->
    exists group,
      nth_error (Builder.objects robot) 0 = Some (Builder.GroupNode group)
      /\ Builder.name group = name model
      /\ Builder.position group = mkVector3 0 0 0
      /\ (Builder.convertToYUp options <> Some false ->
          forall v, applyQuaternion v (Builder.quaternion group)
                    = mkVector3 (vx v) (vz v) (- vy v))
      /\ (Builder.convertToYUp options = Some false ->
          forall v, applyQuaternion v (Builder.quaternion group) = v).
Proof.
  intros fuel model options robot
         (group0 & Hname & Hpos & Hq & Hgrown & _)%buildRobotStructure_kept.
  destruct (Hgrown 0%nat (Builder.GroupNode group0) eq_refl)
    as (n' & Hn' & (group & -> & Hname' & Hpos' & Hq')%detached_group).
  exists group. split; [exact Hn'|].
  split; [congruence|]. split; [congruence|].
  rewrite Hq', Hq. split.
  - intros Hyes v.
    destruct (Builder.convertToYUp options) as [[|]|]; cbn [Builder.getOr];
      try apply convertToYUp_rotation. congruence.
  - intros -> v. apply applyQuaternion_identity.
Qed.

Lemma buildRobotStructure_mapsAgree fuel model options robot :
  Builder.buildRobotStructure fuel model options = Some robot -> mapsAgree model robot.
Proof.
  intros (group & _ & _ & _ & _ & H)%buildRobotStructure_cases.
  cbv zeta in H.
  assert (H0 : mapsAgree model (Builder.mkURDFRobot [Builder.GroupNode group] [] []))
    by (split; intros k id; discriminate).
  destruct H as [[_ ->] | (root & _ & _ & H)]; [exact H0|].
  eapply mapsAgree_buildLink; [|exact H0 | exact H].
  apply childJointsOf_indexByParent.
Qed.

(** X2. [robot.links] and [robot.joints] of a built robot lead to the
    objects they name: a link name to a group of the scene called
    [link_<name>], for a link of the model; a joint name to a joint
    object called [joint_<name>] whose [jointName] is that name and
    whose joint record is a joint of the model with that name.  Every
    joint object of the scene is as [buildLink] makes it: value zero,
    position and orientation those of the origin of its joint. *)
Theorem built_maps_lead_to_their_objects :
  forall (fuel : nat) (model : RobotModel) (options : Builder.BuildRobotOptions)
         (robot : Builder.URDFRobot),
    Builder.buildRobotStructure fuel model options = Some robot ->
    (forall k id,
        JS.get (Builder.links robot) k = Some id ->
        JS.get (links model) k <> None
        /\ exists o, nth_error (Builder.objects robot) id = Some (Builder.GroupNode o)
                     /\ Builder.name o = "link_" ++ k)
    /\ (forall k id,
           JS.get (Builder.joints robot) k = Some id ->
           exists j, Builder.jointAt robot id = Some j
                     /\ Builder.jointName j = k
                     /\ Builder.name (Builder.object3D j) = "joint_" ++ k
                     /\ j_name (Builder.jointData j) = k
                     /\ In (Builder.jointData j) (JS.values (joints model)))
    /\ (forall id j,
           Builder.jointAt robot id = Some j ->
           Builder.jointValue j = 0
           /\ localPosition j = xyz (origin (Builder.jointData j))
           /\ orientation j
              = setFromEuler (Builder.rpyToEuler (rpy (origin (Builder.jointData j))))
           /\ Builder.jointType j = j_type (Builder.jointData j)
           /\ Builder.limits j = limits (Builder.jointData j)).
Proof.
  intros fuel model options robot Hbuild.
  destruct (buildRobotStructure_mapsAgree fuel model options robot Hbuild) as [HL HJ].
  split; [exact HL|]. split; [exact HJ|].
  intros id j Hat.
  destruct (buildRobotStructure_jointsAsBuilt fuel model options robot Hbuild id j Hat)
    as (Hc & Ht & _ & Hlim & _ & Hv & Hp & Ho).
  rewrite Ho, Hc. auto.
Qed.

(** The names [robot.links] holds after a build are exactly the
    links of the model the recursion comes to from the root link (along
    joints of the model, each leaving a link of the model), and the
    names [robot.joints] holds are exactly the names of the joints whose
    parent is such a link.  A link that cannot be reached from the root
    link, a second root for instance, is not built. *)
Lemma buildRobotStructure_reached :
  forall (fuel : nat) (model : RobotModel) (options : Builder.BuildRobotOptions)
         (robot : Builder.URDFRobot),
    Builder.buildRobotStructure fuel model options = Some robot ->
    (forall k, JS.get (Builder.links robot) k <> None <-> reachedLink model k)
    /\ (forall k, JS.get (Builder.joints robot) k <> None
                  <-> exists j, In j (JS.values (joints model)) /\ j_name j = k
                                /\ reachedLink model (parent j)).
Proof.
  intros fuel model options robot (group & _ & _ & _ & _ & H)%buildRobotStructure_cases.
  cbv zeta in H.
  destruct H as [[Hroot ->] | (root & Hroot & Hne & H)].
  - assert (Hno : forall k, ~ reachedLink model k).
    { intros k (root & H1 & H2 & _). destruct Hroot; congruence. }
    split; intros k; (split; [now intros [] |]).
    + now intros ?%Hno.
    + now intros (j & _ & _ & ?%Hno).
  - assert (Hidx := childJointsOf_indexByParent model).
    assert (Hfrom : fromRoot model root) by (exists root; repeat split; auto; apply visits_here).
    assert (H0 : mapsReached model (Builder.mkURDFRobot [Builder.GroupNode group] [] []))
      by (split; intros k []; reflexivity).
    destruct (mapsReached_buildLink _ _ _ _ _ _ Hidx _ _ _ _ _ Hfrom H0 H) as [SL SJ].
    split; intros k; (split; [auto|]).
    + intros (root' & H1 & _ & Hv & Hk).
      assert (root' = root) by congruence. subst root'.
      now apply (buildLink_enters _ _ _ _ _ _ Hidx _ _ _ _ _ H k Hv Hk).
    + intros (j & Hj & <- & (root' & H1 & _ & Hv & Hk)).
      assert (root' = root) by congruence. subst root'.
      now apply (buildLink_enters _ _ _ _ _ _ Hidx _ _ _ _ _ H (parent j) Hv Hk).
Qed.

(** X3. The names [robot.links] holds after a build are exactly the
    links of the model the recursion comes to from the root link (along
    joints of the model, each leaving a link of the model), and the
    names [robot.joints] holds are exactly the names of the joints whose
    parent is such a link.  A link that cannot be reached from the root
    link, a second root for instance, is not built. *)
Theorem built_links_are_the_reached_links :
  forall (fuel : nat) (model : RobotModel) (options : Builder.BuildRobotOptions)
         (robot : Builder.URDFRobot),
    Builder.buildRobotStructure fuel model options = Some robot ->
    (forall k, JS.get (Builder.links robot) k <> None <-> reachedLink model k)
    /\ (forall k, JS.get (Builder.joints robot) k <> None
                  <-> exists j, In j (JS.values (joints model)) /\ j_name j = k
                                /\ reachedLink model (parent j)).
Proof. exact buildRobotStructure_reached. Qed.
(** ** The scene is a tree *)

Lemma objectOf_mapObject f n :
  Builder.objectOf (Builder.mapObject f n) = f (Builder.objectOf n).
Proof. now destruct n. Qed.

Lemma length_updateNth {A} (i : nat) (f : A -> A) (l : list A) :
  List.length (Builder.updateNth i f l) = List.length l.
Proof.
  revert i. induction l as [|x l IH]; intros [|i]; cbn; auto.
Qed.

Lemma childrenAt_alloc node robot id :
  Builder.children (Builder.objectOf node) = [] ->
  childrenAt (snd (Builder.alloc node robot)) id = childrenAt robot id.
Proof.
  intros Hnode. unfold childrenAt. cbn [Builder.alloc snd Builder.objects].
  destruct (Nat.lt_ge_cases id (List.length (Builder.objects robot))) as [Hlt | Hge].
  - now rewrite nth_error_app1.
  - rewrite nth_error_app2 by assumption.
    replace (nth_error (Builder.objects robot) id) with (@None Builder.Node)
      by (symmetry; now apply nth_error_None).
    destruct (id - List.length (Builder.objects robot))%nat as [|[|k]]; cbn; auto.
Qed.

Lemma childrenAt_add parent child robot id :
  childrenAt (Builder.add parent child robot) id =
  if ((parent =? id) && (id <? List.length (Builder.objects robot)))%nat
  then (childrenAt robot id ++ [child])%list
  else childrenAt robot id.
Proof.
  unfold childrenAt. cbn [Builder.add Builder.objects].
  rewrite nth_error_updateNth.
  destruct (Nat.eqb parent id); cbn [andb]; [|reflexivity].
  destruct (Nat.ltb_spec id (List.length (Builder.objects robot))) as [Hlt | Hge].
  - destruct (nth_error (Builder.objects robot) id) as [n|] eqn:E.
    + cbn [option_map]. now rewrite objectOf_mapObject.
    + apply nth_error_None in E. lia.
  - apply nth_error_None in Hge. now rewrite Hge.
Qed.

Lemma sceneTree_ext robot (orphan orphan' : Builder.ObjectId -> Prop) :
  (forall c, orphan c <-> orphan' c) -> sceneTree robot orphan -> sceneTree robot orphan'.
Proof.
  intros E (T1 & T2 & T3 & T4 & T5).
  split; [|split; [|split; [|split]]]; auto.
  - intros p c H. destruct (T1 p c H) as [H1 H2]. split; [assumption|].
    now rewrite <- E.
  - intros c H. destruct (T2 c H) as [H1 | H1]; [left; now apply E | now right].
  - intros c H. apply T5. now apply E.
Qed.

Lemma sceneTree_alloc node robot orphan :
  Builder.children (Builder.objectOf node) = [] ->
  sceneTree robot orphan ->
  sceneTree (snd (Builder.alloc node robot))
            (fun c => orphan c \/ c = List.length (Builder.objects robot)).
Proof.
  intros Hnode (T1 & T2 & T3 & T4 & T5).
  assert (Hlen : List.length (Builder.objects (snd (Builder.alloc node robot)))
                 = S (List.length (Builder.objects robot))).
  { cbn [Builder.alloc snd Builder.objects]. rewrite length_app. cbn. lia. }
  split; [|split; [|split; [|split]]].
  - intros p c. rewrite childrenAt_alloc, Hlen by assumption. intros H.
    destruct (T1 p c H) as [H1 H2]. split; [lia|]. intros [H3 | H3]; [auto | lia].
  - intros c. rewrite Hlen. intros H.
    destruct (Nat.eq_dec c (List.length (Builder.objects robot))) as [-> | Hc];
      [left; now right|].
    destruct (T2 c) as [H1 | (p & H1)]; [lia | left; now left | right].
    exists p. now rewrite childrenAt_alloc.
  - intros p p' c. rewrite !childrenAt_alloc by assumption. apply T3.
  - intros p. rewrite childrenAt_alloc by assumption. apply T4.
  - intros c. rewrite Hlen. intros [H | ->]; [|lia]. specialize (T5 c H). lia.
Qed.

Lemma sceneTree_add parent child robot orphan :
  (parent < child)%nat -> orphan child ->
  (parent < List.length (Builder.objects robot))%nat ->
  sceneTree robot orphan ->
  sceneTree (Builder.add parent child robot) (fun c => orphan c /\ c <> child).
Proof.
  intros Hlt Horphan Hvalid (T1 & T2 & T3 & T4 & T5).
  assert (Hlen : List.length (Builder.objects (Builder.add parent child robot))
                 = List.length (Builder.objects robot))
    by (cbn [Builder.add Builder.objects]; apply length_updateNth).
  assert (Hin : forall p c,
             In c (childrenAt (Builder.add parent child robot) p)
             <-> In c (childrenAt robot p) \/ (p = parent /\ c = child)).
  { intros p c. rewrite childrenAt_add.
    destruct (Nat.eqb_spec parent p) as [<- | Hp]; cbn [andb].
    - destruct (Nat.ltb_spec parent (List.length (Builder.objects robot))); [|lia].
      rewrite in_app_iff. cbn [In]. intuition (subst; auto).
    - intuition (subst; auto; try lia). }
  split; [|split; [|split; [|split]]].
  - intros p c [H | [-> ->]]%Hin; rewrite Hlen.
    + destruct (T1 p c H) as [H1 H2]. split; [assumption | tauto].
    + specialize (T5 child Horphan). split; [lia | tauto].
  - intros c. rewrite Hlen. intros H.
    destruct (T2 c H) as [H1 | (p & H1)].
    + destruct (Nat.eq_dec c child) as [-> | Hc]; [right | left; now split].
      exists parent. apply Hin. now right.
    + right. exists p. apply Hin. now left.
  - intros p p' c H H'. apply Hin in H, H'.
    destruct H as [H | [E1 E2]], H' as [H' | [E1' E2']]; subst; auto.
    + now apply T3 with c.
    + now destruct (T1 p child H).
    + now destruct (T1 p' child H').
  - intros p. rewrite childrenAt_add.
    destruct (Nat.eqb_spec parent p) as [<- | Hp]; cbn [andb]; [|apply T4].
    destruct (Nat.ltb_spec parent (List.length (Builder.objects robot))); [|apply T4].
    apply NoDup_app; [apply T4 | repeat constructor; intros [] | ].
    intros c Hc [<- | []]. now destruct (T1 parent child Hc).
  - intros c [H _]. rewrite Hlen. now apply T5.
Qed.

Lemma length_alloc node robot :
  List.length (Builder.objects (snd (Builder.alloc node robot)))
  = S (List.length (Builder.objects robot)).
Proof. cbn [Builder.alloc snd Builder.objects]. rewrite length_app. cbn. lia. Qed.

Lemma length_add parent child robot :
  List.length (Builder.objects (Builder.add parent child robot))
  = List.length (Builder.objects robot).
Proof. cbn [Builder.add Builder.objects]. apply length_updateNth. Qed.

Lemma sceneTree_maps robot joints links orphan :
  sceneTree robot orphan ->
  sceneTree (Builder.mkURDFRobot (Builder.objects robot) joints links) orphan.
Proof. exact (fun H => H). Qed.

(** A new object that is added at once to an object there is. *)
Lemma sceneTree_alloc_add node parent robot :
  Builder.children (Builder.objectOf node) = [] ->
  (parent < List.length (Builder.objects robot))%nat ->
  sceneTree robot noOrphan ->
  sceneTree (Builder.add parent (List.length (Builder.objects robot))
                         (snd (Builder.alloc node robot))) noOrphan.
Proof.
  intros Hnode Hvalid H.
  eapply sceneTree_ext; [|apply sceneTree_add; [exact Hvalid | | | apply sceneTree_alloc; eassumption]].
  - unfold noOrphan. intros c; cbn beta. tauto.
  - cbn beta. now right.
  - rewrite length_alloc. lia.
Qed.

Section SceneTree.

Variable model : RobotModel.
Variable jointRadius : R.
Variables jointColor linkColor : N.
Variable showDebug : bool.
Variable jointsByParent : JS.Map (list Joint).

Let buildLink := Builder.buildLink model jointRadius jointColor linkColor
                                   showDebug jointsByParent.

Lemma sceneTree_createLinkGroup linkName parentObject robot :
  (parentObject < List.length (Builder.objects robot))%nat ->
  sceneTree robot noOrphan ->
  sceneTree (snd (Builder.createLinkGroup jointRadius jointColor showDebug
                                          linkName parentObject robot)) noOrphan.
Proof.
  intros Hvalid H. unfold Builder.createLinkGroup.
  set (group := Builder.GroupNode _).
  pose proof (sceneTree_alloc_add group parentObject robot eq_refl Hvalid H) as H2.
  pose proof (alloc_fst group robot) as Eg.
  pose proof (length_alloc group robot) as L1.
  destruct (Builder.alloc group robot) as [linkGroup robot1].
  cbn [fst snd] in H2, Eg, L1. rewrite <- Eg in H2.
  set (robot3 := Builder.setLink linkName linkGroup
                                 (Builder.add parentObject linkGroup robot1)).
  assert (H3 : sceneTree robot3 noOrphan) by exact H2.
  assert (L3 : List.length (Builder.objects robot3) = S (List.length (Builder.objects robot))).
  { rewrite <- L1. apply (length_add parentObject linkGroup robot1). }
  destruct showDebug; cbn [snd]; [|exact H3].
  set (sphere := Builder.SphereNode _ _ _).
  assert (Hg : (linkGroup < List.length (Builder.objects robot3))%nat) by lia.
  pose proof (sceneTree_alloc_add sphere linkGroup robot3 eq_refl Hg H3) as H5.
  pose proof (alloc_fst sphere robot3) as Eg4.
  destruct (Builder.alloc sphere robot3) as [sphereId robot4].
  cbn [fst snd] in H5, Eg4. rewrite <- Eg4 in H5.
  exact H5.
Qed.

Lemma sceneTree_createJointObject linkGroup jointData robot :
  (linkGroup < List.length (Builder.objects robot))%nat ->
  sceneTree robot noOrphan ->
  sceneTree (snd (Builder.createJointObject linkColor showDebug
                                            linkGroup jointData robot)) noOrphan.
Proof.
  intros Hvalid H. unfold Builder.createJointObject.
  set (node := Builder.JointNode _).
  pose proof (sceneTree_alloc node robot noOrphan eq_refl H) as H1.
  pose proof (length_alloc node robot) as L1.
  pose proof (alloc_fst node robot) as Eg.
  destruct (Builder.alloc node robot) as [jointObject robot1].
  cbn [fst snd] in H1, L1, Eg.
  assert (G : forall robot2,
             sceneTree robot2 (fun c => noOrphan c \/ c = jointObject) ->
             (List.length (Builder.objects robot) < List.length (Builder.objects robot2))%nat ->
             sceneTree (Builder.setJoint (j_name jointData) jointObject
                          (Builder.add linkGroup jointObject robot2)) noOrphan).
  { intros robot2 H2 L2.
    apply sceneTree_maps with (robot := Builder.add linkGroup jointObject robot2).
    eapply sceneTree_ext; [|apply sceneTree_add; [| | |exact H2]].
    - unfold noOrphan. intros c; cbn beta. tauto.
    - lia.
    - cbn beta. now right.
    - lia. }
  destruct showDebug; cbn [snd].
  - set (line := Builder.LineNode _ _ _).
    pose proof (sceneTree_alloc line robot1 _ eq_refl H1) as H2.
    pose proof (length_alloc line robot1) as L2.
    pose proof (alloc_fst line robot1) as Eg2.
    destruct (Builder.alloc line robot1) as [lineId robot2].
    cbn [fst snd] in H2, L2, Eg2.
    apply G.
    + eapply sceneTree_ext; [|apply sceneTree_add; [| | |exact H2]].
      * intros c; cbn beta. unfold noOrphan. split.
        -- intros [[[[] | Hc] | Hc] Hne]; [right; lia | lia].
        -- intros [[] | ->]. split; [left; right; lia | lia].
      * lia.
      * cbn beta. now right.
      * lia.
    + rewrite length_add. lia.
  - apply G; [rewrite <- Eg in H1; exact H1 | lia].
Qed.


Lemma sceneTree_buildLink fuel :
  forall linkName parentObject robot robot',
    (parentObject < List.length (Builder.objects robot))%nat ->
    sceneTree robot noOrphan ->
    buildLink fuel linkName parentObject robot = Some robot' ->
    sceneTree robot' noOrphan.
Proof.
  unfold buildLink.
  induction fuel as [|fuel IH]; intros linkName parentObject robot robot' Hvalid H;
    cbn [Builder.buildLink]; [discriminate|].
  destruct (JS.get (links model) linkName); [|now intros [= <-]].
  pose proof (sceneTree_createLinkGroup linkName parentObject robot Hvalid H) as H1.
  destruct (createLinkGroup_spec jointRadius jointColor showDebug linkName parentObject robot)
    as (_ & _ & _ & _ & o & Ho & _).
  destruct (Builder.createLinkGroup _ _ _ _ _ _) as [linkGroup robot1].
  cbn [fst snd] in H1, Ho.
  assert (V1 : (linkGroup < List.length (Builder.objects robot1))%nat)
    by (apply nth_error_Some; congruence).
  clear Ho. intros Hloop.
  apply (forEach_invariant
           (fun s => sceneTree s noOrphan
                     /\ (linkGroup < List.length (Builder.objects s))%nat)
           _ _) with (s' := robot') in Hloop; [tauto | | tauto].
  intros s jointData s' _ [Hs Vs].
  pose proof (sceneTree_createJointObject linkGroup jointData s Vs Hs) as H2.
  destruct (createJointObject_spec linkColor showDebug linkGroup jointData s)
    as (G2 & _ & _ & _ & j & Hj & _).
  destruct (Builder.createJointObject _ _ _ _ _) as [jointObject robot2].
  cbn [fst snd] in H2, Hj, G2. intros Hcall.
  assert (V2 : (jointObject < List.length (Builder.objects robot2))%nat).
  { apply nth_error_Some. unfold Builder.jointAt in Hj.
    destruct (nth_error (Builder.objects robot2) jointObject); congruence. }
  split; [now apply (IH _ _ _ _ V2 H2 Hcall)|].
  pose proof (buildLink_kept _ _ _ _ _ _ _ _ _ _ _ Hcall) as (G3 & _).
  apply nth_error_Some.
  destruct (nth_error (Builder.objects s) linkGroup) as [n|] eqn:E;
    [|apply nth_error_None in E; lia].
  destruct (G2 _ _ E) as (n2 & E2 & _). destruct (G3 _ _ E2) as (n3 & E3 & _).
  congruence.
Qed.

End SceneTree.

(** X4. The scene a build returns is a tree below the robot group
    (object 0): every child was created after its parent and is an
    object of the scene, every object other than the robot group is the
    child of exactly one object, and no object is twice among the
    children of its parent. *)
Theorem built_scene_is_a_tree :
  forall (fuel : nat) (model : RobotModel) (options : Builder.BuildRobotOptions)
         (robot : Builder.URDFRobot),
    Builder.buildRobotStructure fuel model options = Some robot ->
    (forall p c, In c (childrenAt robot p) ->
                 (p < c < List.length (Builder.objects robot))%nat)
    /\ (forall c, (0 < c < List.length (Builder.objects robot))%nat ->
                  exists p, In c (childrenAt robot p)
                            /\ forall p', In c (childrenAt robot p') -> p' = p)
    /\ (forall p, NoDup (childrenAt robot p)).
Proof.
  intros fuel model options robot (group & _ & _ & _ & Hch & H)%buildRobotStructure_cases.
  cbv zeta in H.
  assert (H0 : sceneTree (Builder.mkURDFRobot [Builder.GroupNode group] [] []) noOrphan).
  { assert (E : forall p, childrenAt (Builder.mkURDFRobot [Builder.GroupNode group] [] []) p
                          = []).
    { intros [|[|p]]; unfold childrenAt; cbn; auto. }
    split; [|split; [|split; [|split]]].
    - intros p c. now rewrite E.
    - intros c. cbn. lia.
    - intros p p' c. now rewrite E.
    - intros p. rewrite E. constructor.
    - intros c []. }
  assert (Htree : sceneTree robot noOrphan).
  { destruct H as [[_ ->] | (root & _ & _ & H)]; [exact H0|].
    eapply sceneTree_buildLink; [|exact H0 | exact H]. cbn. lia. }
  destruct Htree as (T1 & T2 & T3 & T4 & _).
  split; [|split].
  - intros p c Hc. now destruct (T1 p c Hc).
  - intros c Hc. destruct (T2 c Hc) as [[] | (p & Hp)].
    exists p. split; [exact Hp|]. intros p' Hp'. now apply T3 with c.
  - exact T4.
Qed.

(** ** The scene follows the kinematic chain *)

Lemma hangs_detached model p a a' b b' :
  detached a' = detached a -> detached b' = detached b ->
  hangs model p a b -> hangs model p a' b'.
Proof.
  destruct a as [oa | oa ? ? | oa ? ? | ja], a' as [oa' | oa' ? ? | oa' ? ? | ja'];
    cbn; try discriminate;
    destruct b as [ob | ob ? ? | ob ? ? | jb], b' as [ob' | ob' ? ? | ob' ? ? | jb'];
    cbn; try discriminate; try tauto;
    intros Ea Eb; injection Ea; injection Eb; intros;
    repeat match goal with
           | H : Builder.name _ = Builder.name _ |- _ => rewrite H; clear H
           | H : Builder.jointData _ = Builder.jointData _ |- _ => rewrite H; clear H
           end;
    subst; assumption.
Qed.

Lemma hierarchy_grown_edge model robot robot' p c :
  grown robot robot' ->
  (exists parentNode childNode,
      nth_error (Builder.objects robot) p = Some parentNode
      /\ nth_error (Builder.objects robot) c = Some childNode
      /\ hangs model p parentNode childNode) ->
  exists parentNode childNode,
    nth_error (Builder.objects robot') p = Some parentNode
    /\ nth_error (Builder.objects robot') c = Some childNode
    /\ hangs model p parentNode childNode.
Proof.
  intros Hg (a & b & Ha & Hb & H).
  destruct (Hg _ _ Ha) as (a' & Ha' & Ea). destruct (Hg _ _ Hb) as (b' & Hb' & Eb).
  exists a', b'. repeat split; auto. now apply hangs_detached with a b.
Qed.

Lemma hierarchy_alloc model node robot :
  Builder.children (Builder.objectOf node) = [] ->
  hierarchy model robot -> hierarchy model (snd (Builder.alloc node robot)).
Proof.
  intros Hnode H p c. rewrite childrenAt_alloc by assumption. intros Hc.
  apply hierarchy_grown_edge with robot; [apply grown_alloc | now apply H].
Qed.

Lemma hierarchy_add model parent child robot :
  hierarchy model robot ->
  (exists parentNode childNode,
      nth_error (Builder.objects robot) parent = Some parentNode
      /\ nth_error (Builder.objects robot) child = Some childNode
      /\ hangs model parent parentNode childNode) ->
  hierarchy model (Builder.add parent child robot).
Proof.
  intros H Hnew p c. rewrite childrenAt_add. intros Hc.
  apply hierarchy_grown_edge with robot; [apply grown_add|].
  destruct (Nat.eqb_spec parent p) as [<- | Hp]; cbn [andb] in Hc; [|now apply H].
  destruct (Nat.ltb parent _); [|now apply H].
  apply in_app_or in Hc as [Hc | [<- | []]]; [now apply H | exact Hnew].
Qed.

Lemma nth_error_alloc_old node robot id n :
  nth_error (Builder.objects robot) id = Some n ->
  nth_error (Builder.objects (snd (Builder.alloc node robot))) id = Some n.
Proof.
  intros H. cbn [Builder.alloc snd Builder.objects].
  rewrite nth_error_app1; [assumption|]. apply nth_error_Some. congruence.
Qed.

Lemma hierarchy_createLinkGroup model jointRadius jointColor showDebug
      linkName parentObject robot :
  parentFor model linkName robot parentObject ->
  hierarchy model robot ->
  hierarchy model (snd (Builder.createLinkGroup jointRadius jointColor showDebug
                                                linkName parentObject robot)).
Proof.
  intros Hparent H. unfold Builder.createLinkGroup.
  set (group := Builder.GroupNode _).
  pose proof (hierarchy_alloc model group robot eq_refl H) as H1.
  pose proof (alloc_nth group robot) as N1.
  pose proof (alloc_fst group robot) as Eg.
  assert (P1 : exists a, nth_error (Builder.objects (snd (Builder.alloc group robot)))
                                   parentObject = Some a
                         /\ hangs model parentObject a group).
  { unfold parentFor in Hparent.
    destruct (nth_error (Builder.objects robot) parentObject) as [a|] eqn:E; [|contradiction].
    exists a. split; [now apply nth_error_alloc_old|].
    destruct a as [o | | | j]; try contradiction; cbn.
    - destruct Hparent as [-> Hroot]. split; [reflexivity|]. now exists linkName.
    - now rewrite Hparent. }
  destruct (Builder.alloc group robot) as [linkGroup robot1].
  cbn [fst snd] in H1, N1, Eg, P1. rewrite <- Eg in N1.
  destruct P1 as (a & Na & Ha).
  set (robot3 := Builder.setLink linkName linkGroup
                                 (Builder.add parentObject linkGroup robot1)).
  assert (H3 : hierarchy model robot3).
  { apply (hierarchy_add model parentObject linkGroup robot1 H1). now exists a, group. }
  destruct showDebug; cbn [snd]; [|exact H3].
  set (sphere := Builder.SphereNode _ _ _).
  pose proof (hierarchy_alloc model sphere robot3 eq_refl H3) as H4.
  pose proof (alloc_nth sphere robot3) as N4.
  pose proof (alloc_fst sphere robot3) as Eg4.
  assert (P4 : exists a, nth_error (Builder.objects (snd (Builder.alloc sphere robot3)))
                                   linkGroup = Some a
                         /\ hangs model linkGroup a sphere).
  { destruct (grown_add parentObject linkGroup robot1 _ _ N1)
      as (n3 & N3 & (o3 & -> & Hname & _)%detached_group).
    exists (Builder.GroupNode o3). split; [now apply nth_error_alloc_old|].
    cbn. exists linkName. now rewrite Hname. }
  destruct (Builder.alloc sphere robot3) as [sphereId robot4].
  cbn [fst snd] in H4, N4, Eg4, P4. rewrite <- Eg4 in N4.
  destruct P4 as (a4 & Na4 & Ha4).
  apply (hierarchy_add model linkGroup sphereId robot4 H4). now exists a4, sphere.
Qed.

Lemma hierarchy_createJointObject model linkColor showDebug linkGroup jointData robot :
  (exists o, nth_error (Builder.objects robot) linkGroup = Some (Builder.GroupNode o)
             /\ Builder.name o = "link_" ++ parent jointData) ->
  In jointData (JS.values (joints model)) ->
  hierarchy model robot ->
  hierarchy model (snd (Builder.createJointObject linkColor showDebug
                                                  linkGroup jointData robot)).
Proof.
  intros (o & No & Hname) Hin H. unfold Builder.createJointObject.
  set (node := Builder.JointNode _).
  pose proof (hierarchy_alloc model node robot eq_refl H) as H1.
  pose proof (alloc_nth node robot) as N1.
  pose proof (alloc_fst node robot) as Eg.
  pose proof (nth_error_alloc_old node robot _ _ No) as No1.
  destruct (Builder.alloc node robot) as [jointObject robot1].
  cbn [fst snd] in H1, N1, Eg, No1. rewrite <- Eg in N1.
  assert (G : forall robot2,
             hierarchy model robot2 -> grown robot1 robot2 ->
             hierarchy model (Builder.setJoint (j_name jointData) jointObject
                                (Builder.add linkGroup jointObject robot2))).
  { intros robot2 H2 G2.
    apply (hierarchy_add model linkGroup jointObject robot2 H2).
    destruct (G2 _ _ No1) as (a & Na & (o' & -> & Hname' & _)%detached_group).
    destruct (G2 _ _ N1) as (b & Nb & Eb).
    exists (Builder.GroupNode o'), b. repeat split; auto.
    apply hangs_detached with (Builder.GroupNode o') node; auto.
    cbn. split; [assumption | rewrite Hname'; exact Hname]. }
  destruct showDebug; cbn [snd]; [|apply G; [exact H1 | apply grown_refl]].
  set (line := Builder.LineNode _ _ _).
  pose proof (hierarchy_alloc model line robot1 eq_refl H1) as H2.
  pose proof (alloc_nth line robot1) as N2.
  pose proof (alloc_fst line robot1) as Eg2.
  pose proof (nth_error_alloc_old line robot1 _ _ No1) as No2.
  pose proof (grown_alloc line robot1) as G2.
  destruct (Builder.alloc line robot1) as [lineId robot2].
  cbn [fst snd] in H2, N2, Eg2, No2, G2. rewrite <- Eg2 in N2.
  apply G.
  - apply (hierarchy_add model linkGroup lineId robot2 H2).
    exists (Builder.GroupNode o), line. repeat split; auto.
    cbn. exists jointData. auto.
  - eapply grown_trans; [exact G2 | apply grown_add].
Qed.

Section Hierarchy.

Variable model : RobotModel.
Variable jointRadius : R.
Variables jointColor linkColor : N.
Variable showDebug : bool.
Variable jointsByParent : JS.Map (list Joint).

Hypothesis jointsByParent_index :
  forall linkName, Builder.childJointsOf jointsByParent linkName = jointsFrom model linkName.

Let buildLink := Builder.buildLink model jointRadius jointColor linkColor
                                   showDebug jointsByParent.

Lemma hierarchy_buildLink fuel :
  forall linkName parentObject robot robot',
    parentFor model linkName robot parentObject ->
    hierarchy model robot ->
    buildLink fuel linkName parentObject robot = Some robot' ->
    hierarchy model robot'.
Proof.
  unfold buildLink.
  induction fuel as [|fuel IH]; intros linkName parentObject robot robot' Hparent H;
    cbn [Builder.buildLink]; [discriminate|].
  destruct (JS.get (links model) linkName); [|now intros [= <-]].
  pose proof (hierarchy_createLinkGroup model jointRadius jointColor showDebug
                                        linkName parentObject robot Hparent H) as H1.
  destruct (createLinkGroup_spec jointRadius jointColor showDebug linkName parentObject robot)
    as (_ & _ & _ & _ & o & Ho & Hname).
  destruct (Builder.createLinkGroup _ _ _ _ _ _) as [linkGroup robot1].
  cbn [fst snd] in H1, Ho.
  assert (Hin : forall j, In j (Builder.childJointsOf jointsByParent linkName) ->
                          In j (JS.values (joints model)) /\ parent j = linkName).
  { intros j. rewrite jointsByParent_index. apply In_jointsFrom. }
  intros Hloop.
  apply (forEach_invariant
           (fun s => hierarchy model s
                     /\ exists o, nth_error (Builder.objects s) linkGroup
                                  = Some (Builder.GroupNode o)
                                  /\ Builder.name o = "link_" ++ linkName)
           _ _) with (s' := robot') in Hloop; [tauto | | split; [assumption | now exists o]].
  intros s jointData s' [Hj Hp]%Hin [Hs (os & Nos & Hnames)].
  assert (Hgroup : exists o, nth_error (Builder.objects s) linkGroup
                             = Some (Builder.GroupNode o)
                             /\ Builder.name o = "link_" ++ parent jointData)
    by (exists os; now rewrite Hp).
  pose proof (hierarchy_createJointObject model linkColor showDebug linkGroup jointData s
                                          Hgroup Hj Hs) as H2.
  destruct (createJointObject_spec linkColor showDebug linkGroup jointData s)
    as (G2 & _ & _ & _ & j & Hat & Hdet).
  destruct (Builder.createJointObject _ _ _ _ _) as [jointObject robot2].
  cbn [fst snd] in H2, Hat, Hdet, G2. intros Hcall.
  assert (P2 : parentFor model (child jointData) robot2 jointObject).
  { unfold parentFor. unfold Builder.jointAt in Hat.
    destruct (nth_error (Builder.objects robot2) jointObject) as [[| | |j']|];
      try discriminate.
    injection Hat as ->.
    apply detached_joint in Hdet as (j'' & [= <-] & _ & _ & Hjd). now rewrite Hjd. }
  split; [now apply (IH _ _ _ _ P2 H2 Hcall)|].
  pose proof (buildLink_kept _ _ _ _ _ _ _ _ _ _ _ Hcall) as (G3 & _).
  destruct (G2 _ _ Nos) as (n2 & E2 & D2). destruct (G3 _ _ E2) as (n3 & E3 & D3).
  rewrite D2 in D3. apply detached_group in D3 as (o3 & -> & Hname3 & _).
  exists o3. split; [assumption | congruence].
Qed.

End Hierarchy.

(** X5. The scene follows the kinematic chain.  Under every joint
    object hang only groups of the child link of its joint; a joint
    object hangs under a group of the parent link of its joint, and its
    joint is a joint of the model; the group of a link hangs under such
    a joint object or, for the root link, under the robot group; the
    debug sphere of a link hangs under the group of the link and the
    debug line of a joint under the group of the parent link, ending at
    the origin of the joint. *)
Theorem built_scene_follows_the_joints :
  forall (fuel : nat) (model : RobotModel) (options : Builder.BuildRobotOptions)
         (robot : Builder.URDFRobot),
    Builder.buildRobotStructure fuel model options = Some robot ->
    forall p c,
      In c (childrenAt robot p) ->
      exists parentNode childNode,
        nth_error (Builder.objects robot) p = Some parentNode
        /\ nth_error (Builder.objects robot) c = Some childNode
        /\ hangs model p parentNode childNode.
Proof.
  intros fuel model options robot (group & _ & _ & _ & Hch & H)%buildRobotStructure_cases.
  cbv zeta in H.
  assert (H0 : hierarchy model (Builder.mkURDFRobot [Builder.GroupNode group] [] [])).
  { intros [|[|p]] c; unfold childrenAt; cbn; try contradiction. now rewrite Hch. }
  destruct H as [[_ ->] | (root & Hroot & _ & H)]; [exact H0|].
  eapply hierarchy_buildLink; [| |exact H0 | exact H].
  - apply childJointsOf_indexByParent.
  - unfold parentFor; cbn. auto.
Qed.
(** ** More on joint values *)

(** X6. A prismatic joint slides along its axis: after [setJointValue]
    the local position of the node is the origin of the joint plus the
    axis times the applied value (the request brought inside the
    declared limits), computed from the origin and not from the
    position the node had, so that a call after another call leaves what
    the last call alone leaves; the orientation of the node is not
    touched. *)
Theorem setJointValue_prismatic_position :
  forall (n : Builder.URDFJoint) (v : R),
    typeOf n = "prismatic" ->
    let n' := Builder.setJointValue v n in
    let applied := Builder.jointValue n' in
    applied = clamped (limitsOf n) v
    /\ localPosition n'
       = addScaledVector (xyz (origin (Builder.jointData n))) (Builder.axis n) applied
    /\ orientation n' = orientation n
    /\ (withinLimits (limitsOf n) 0 ->
        localPosition (Builder.setJointValue 0 n) = xyz (origin (Builder.jointData n)))
    /\ forall w, Builder.setJointValue v (Builder.setJointValue w n) = n'.
Proof.
  intros n v Htype n' applied.
  assert (Ha : applied = clamped (limitsOf n) v) by apply setJointValue_jointValue.
  assert (Hpos : forall u, localPosition (Builder.setJointValue u n)
                           = addScaledVector (xyz (origin (Builder.jointData n)))
                                             (Builder.axis n) (clamped (limitsOf n) u)).
  { intros u. unfold limitsOf. rewrite <- clampToLimits_clamped.
    unfold typeOf in Htype. unfold Builder.setJointValue, localPosition.
    rewrite Htype. reflexivity. }
  split; [exact Ha|]. split; [rewrite Ha; apply Hpos|].
  split; [|split].
  - unfold typeOf in Htype. unfold n', Builder.setJointValue, orientation.
    rewrite Htype. reflexivity.
  - intros H0. rewrite Hpos, (clamped_within _ _ H0).
    destruct (xyz (origin (Builder.jointData n))) as [x y z].
    unfold addScaledVector; cbn [vx vy vz]. f_equal; ring.
  - intros w. apply setJointValue_last_wins.
Qed.

Lemma setJointValue_prismatic_position_witness :
  localPosition (Builder.setJointValue 5 (Builder.newJointObject examplePrismatic))
  = addScaledVector (mkVector3 0 0 1) (normalize (mkVector3 0 0 2)) 1.
Proof.
  destruct (setJointValue_prismatic_position
              (Builder.newJointObject examplePrismatic) 5 eq_refl) as (Ha & Hp & _).
  rewrite Hp, Ha. unfold clamped, limitsOf; cbn.
  replace (Rmin 1 (Rmax 0 5)) with 1; [reflexivity|].
  unfold Rmin, Rmax.
  destruct (Rle_dec 0 5); [|lra].
  destruct (Rle_dec 1 5); lra.
Defined.

(** X7. Calls of [setJointValue] do not add up, whatever the type of
    the joint: after any sequence of calls the node is the one the last
    call alone leaves. *)
Theorem setJointValueAll_is_the_last_call :
  forall (n : Builder.URDFJoint) (vs : list R) (v : R),
    setJointValueAll (vs ++ [v]) n = Builder.setJointValue v n.
Proof.
  intros n vs. revert n. induction vs as [|w vs IH]; intros n v; [reflexivity|].
  change (setJointValueAll ((w :: vs) ++ [v]) n)
    with (setJointValueAll (vs ++ [v]) (Builder.setJointValue w n)).
  rewrite IH. apply setJointValue_last_wins.
Qed.

Lemma setJointValue_other_type v n :
  typeOf n <> "revolute" -> typeOf n <> "continuous" -> typeOf n <> "prismatic" ->
  Builder.object3D (Builder.setJointValue v n) = Builder.object3D n
  /\ typeOf (Builder.setJointValue v n) = typeOf n.
Proof.
  unfold typeOf, Builder.setJointValue.
  intros H1%String.eqb_neq H2%String.eqb_neq H3%String.eqb_neq.
  rewrite H1, H2, H3. auto.
Qed.

(** X8. The type of a joint is compared with the three names
    revolute, continuous and prismatic letter by letter: a node whose
    joint has any other type (fixed, floating, planar, but also a name
    of another case such as Revolute, or a name URDF does not know)
    keeps its position and orientation through any sequence of
    [setJointValue] calls, while the value of the last call is stored,
    clamped, as for any joint. *)
Theorem setJointValue_ignores_other_types :
  forall (n : Builder.URDFJoint) (vs : list R) (v : R),
    typeOf n <> "revolute" -> typeOf n <> "continuous" -> typeOf n <> "prismatic" ->
    transform (setJointValueAll (vs ++ [v]) n) = transform n
    /\ Builder.jointValue (setJointValueAll (vs ++ [v]) n) = clamped (limitsOf n) v.
Proof.
  intros n vs v H1 H2 H3.
  assert (E : setJointValueAll (vs ++ [v]) n = Builder.setJointValue v n).
  { revert n H1 H2 H3. induction vs as [|w vs IH]; intros n H1 H2 H3; [reflexivity|].
    change (setJointValueAll ((w :: vs) ++ [v]) n)
      with (setJointValueAll (vs ++ [v]) (Builder.setJointValue w n)).
    destruct (setJointValue_other_type w n H1 H2 H3) as [_ Ht].
    rewrite IH by (rewrite Ht; assumption). apply setJointValue_last_wins. }
  rewrite E. split; [|apply setJointValue_jointValue].
  destruct (setJointValue_other_type v n H1 H2 H3) as [Ho _].
  unfold transform, localPosition, orientation. now rewrite Ho.
Qed.

Lemma setJointValue_ignores_other_types_witness :
  transform (setJointValueAll [3; -7; 2] (Builder.newJointObject exampleCapitalised))
  = transform (Builder.newJointObject exampleCapitalised).
Proof.
  apply (setJointValue_ignores_other_types
           (Builder.newJointObject exampleCapitalised) [3; -7] 2); discriminate.
Defined.

(** X9. The value a joint object stores lies inside the declared
    limits when they are the right way round ([lower <= upper]); when
    they are not ([upper < lower]) every request ends at the upper
    limit.  With the lower limit alone the value is never below it, with
    the upper limit alone never above it. *)
Theorem setJointValue_value_range :
  forall (n : Builder.URDFJoint) (l : JointLimits) (v : R),
    limitsOf n = Some l ->
    let applied := Builder.jointValue (Builder.setJointValue v n) in
    (forall lo hi, lower l = Some lo -> upper l = Some hi -> lo <= hi ->
                   lo <= applied <= hi)
    /\ (forall lo hi, lower l = Some lo -> upper l = Some hi -> hi < lo ->
                      applied = hi)
    /\ (forall lo, lower l = Some lo -> upper l = None ->
                   lo <= applied /\ (lo <= v -> applied = v))
    /\ (forall hi, lower l = None -> upper l = Some hi ->
                   applied <= hi /\ (v <= hi -> applied = v)).
Proof.
  intros n l v Hl applied.
  assert (Ha : applied = clamped (Some l) v)
    by (unfold applied; now rewrite setJointValue_jointValue, Hl).
  rewrite Ha. unfold clamped.
  split; [|split; [|split]].
  - intros lo hi -> -> H. order_cases.
  - intros lo hi -> -> H. order_cases.
  - intros lo -> ->. split; [|intros H]; order_cases.
  - intros hi -> ->. split; [|intros H]; order_cases.
Qed.

Lemma setJointValue_value_range_witness :
  Builder.jointValue (Builder.setJointValue 5 (Builder.newJointObject exampleInverted)) = -1.
Proof.
  refine (proj1 (proj2 (setJointValue_value_range
                          (Builder.newJointObject exampleInverted)
                          (mkJointLimits (Some 1) (Some (-1)) None None) 5 eq_refl))
                1 (-1) eq_refl eq_refl _).
  lra.
Defined.

(** ** [robot.setJointValues] *)

(** One entry of [robot.setJointValues]. *)
Lemma setJointValues_step name value robot :
  let robot' := Builder.setJointValues [(name, value)] robot in
  Builder.joints robot' = Builder.joints robot
  /\ Builder.links robot' = Builder.links robot
  /\ forall id,
      nth_error (Builder.objects robot') id =
      match nth_error (Builder.objects robot) id with
      | Some (Builder.JointNode j) =>
          Some (Builder.JointNode (setJointValueAll (valuesFor robot id [(name, value)]) j))
      | other => other
      end.
Proof.
  unfold Builder.setJointValues, valuesFor. cbn [fold_left flat_map fst snd].
  destruct (JS.get (Builder.joints robot) name) as [joint|] eqn:E.
  - cbn [Builder.joints Builder.links Builder.objects]. repeat split.
    intros id. rewrite nth_error_updateNth, app_nil_r.
    destruct (Nat.eqb joint id);
      destruct (nth_error (Builder.objects robot) id) as [[o | o ? ? | o ? ? | j]|];
      reflexivity.
  - repeat split. intros id.
    destruct (nth_error (Builder.objects robot) id) as [[o | o ? ? | o ? ? | j]|];
      reflexivity.
Qed.

Lemma setJointValueAll_app vs ws n :
  setJointValueAll (vs ++ ws) n = setJointValueAll ws (setJointValueAll vs n).
Proof. unfold setJointValueAll. apply fold_left_app. Qed.

Lemma valuesFor_joints robot robot' id values :
  Builder.joints robot' = Builder.joints robot ->
  valuesFor robot' id values = valuesFor robot id values.
Proof. intros E. unfold valuesFor. now rewrite E. Qed.

Lemma valuesFor_cons robot id entry values :
  valuesFor robot id (entry :: values)
  = (valuesFor robot id [entry] ++ valuesFor robot id values)%list.
Proof. unfold valuesFor. cbn [flat_map]. now rewrite app_nil_r. Qed.

(** X10. [robot.setJointValues (values)] is [setJointValue] on the
    joint objects the names of the entries lead to, in the order of the
    entries: a joint object receives the values of the entries whose
    name [robot.joints] maps to it, every other object of the scene is
    left as it is, and so are [robot.joints] and [robot.links].  An
    entry whose name [robot.joints] does not hold is skipped: it
    changes nothing and stops nothing. *)
Theorem setJointValues_sets_the_named_joints :
  forall (values : list (string * R)) (robot : Builder.URDFRobot),
    let robot' := Builder.setJointValues values robot in
    Builder.joints robot' = Builder.joints robot
    /\ Builder.links robot' = Builder.links robot
    /\ (forall id,
           nth_error (Builder.objects robot') id =
           match nth_error (Builder.objects robot) id with
           | Some (Builder.JointNode j) =>
               Some (Builder.JointNode (setJointValueAll (valuesFor robot id values) j))
           | other => other
           end)
    /\ ((forall name value, In (name, value) values ->
                            JS.get (Builder.joints robot) name = None) ->
        robot' = robot).
Proof.
  intros values. induction values as [|[name value] values IH]; intros robot robot'.
  - change robot' with robot. repeat split; auto. intros id.
    destruct (nth_error (Builder.objects robot) id) as [[o | o ? ? | o ? ? | j]|];
      reflexivity.
  - destruct (setJointValues_step name value robot) as (J1 & L1 & N1).
    set (robot1 := Builder.setJointValues [(name, value)] robot) in *.
    assert (E : robot' = Builder.setJointValues values robot1) by reflexivity.
    destruct (IH robot1) as (J2 & L2 & N2 & U2). cbv zeta in *. rewrite <- E in *.
    split; [congruence|]. split; [congruence|]. split.
    + intros id. rewrite N2, N1.
      destruct (nth_error (Builder.objects robot) id) as [[o | o ? ? | o ? ? | j]|];
        try reflexivity.
      rewrite (valuesFor_joints robot robot1 id values J1).
      now rewrite (valuesFor_cons robot id (name, value) values), setJointValueAll_app.
    + intros Hnone.
      assert (E1 : robot1 = robot).
      { unfold robot1, Builder.setJointValues. cbn [fold_left].
        now rewrite (Hnone name value (or_introl eq_refl)). }
      rewrite U2; [exact E1|].
      intros name' value' Hin. rewrite E1. apply (Hnone name' value'). now right.
Qed.

(** ** The axis of a joint object *)

Lemma lengthSq_zero v : lengthSq v = 0 -> v = mkVector3 0 0 0.
Proof.
  destruct v as [x y z]. unfold lengthSq; cbn [vx vy vz]. intros H.
  assert (x = 0) by nra. assert (y = 0) by nra. assert (z = 0) by nra.
  now subst.
Qed.

Lemma normalize_direction v :
  lengthSq v <> 0 -> v = multiplyScalar (normalize v) (vlength v).
Proof.
  destruct v as [x y z].
  unfold lengthSq, normalize, divideScalar, multiplyScalar, vlength.
  cbn [vx vy vz]. intros Hs.
  set (s := x * x + y * y + z * z) in *.
  assert (Hpos : 0 <= s) by (unfold s; nra).
  assert (Hsq : sqrt s * sqrt s = s) by now apply sqrt_sqrt.
  assert (Hne : sqrt s <> 0) by (intros E; rewrite E in Hsq; lra).
  destruct (Req_dec_T (sqrt s) 0) as [E | _]; [contradiction|].
  f_equal; now field.
Qed.

Lemma normalize_zero v : lengthSq v = 0 -> normalize v = v.
Proof.
  intros ->%lengthSq_zero. unfold normalize, divideScalar, multiplyScalar, vlength.
  cbn [vx vy vz].
  replace (0 * 0 + 0 * 0 + 0 * 0) with 0 by ring. rewrite sqrt_0.
  destruct (Req_dec_T 0 0) as [_ | H]; [|contradiction].
  f_equal; field.
Qed.

(** X11. The axis of a joint object of a built robot.  A joint without
    an axis turns or slides about [(0, 0, 1)].  A declared axis that is
    not the zero vector is brought to length one and keeps its
    direction.  A declared axis that is the zero vector stays the zero
    vector ([normalize] divides by one): a prismatic joint then never
    moves, and the orientation of a revolute or continuous joint after
    [setJointValue] is the origin rotation scaled by the cosine of half
    the applied value, a quaternion of squared norm [cos^2], which is no
    rotation unless that cosine is 1 or -1. *)
Theorem built_joint_axis :
  forall (fuel : nat) (model : RobotModel) (options : Builder.BuildRobotOptions)
         (robot : Builder.URDFRobot) (id : Builder.ObjectId) (n : Builder.URDFJoint),
    Builder.buildRobotStructure fuel model options = Some robot ->
    Builder.jointAt robot id = Some n ->
    (axis (Builder.jointData n) = None -> Builder.axis n = mkVector3 0 0 1)
    /\ (forall a, axis (Builder.jointData n) = Some a -> lengthSq (a_xyz a) <> 0 ->
                  lengthSq (Builder.axis n) = 1
                  /\ a_xyz a = multiplyScalar (Builder.axis n) (vlength (a_xyz a)))
    /\ (forall a, axis (Builder.jointData n) = Some a -> lengthSq (a_xyz a) = 0 ->
                  Builder.axis n = mkVector3 0 0 0
                  /\ forall v,
                      let n' := Builder.setJointValue v n in
                      let half := Builder.jointValue n' / 2 in
                      (typeOf n = "prismatic" -> localPosition n' = localPosition n)
                      /\ (typeOf n = "revolute" \/ typeOf n = "continuous" ->
                          qLengthSq (orientation n') = cos half * cos half)).
Proof.
  intros fuel model options robot id n Hbuild Hn.
  destruct (buildRobotStructure_jointsAsBuilt fuel model options robot Hbuild id n Hn)
    as (Hclosure & _ & _ & _ & Haxis & _ & Hpos & _).
  split; [|split].
  - intros E. now rewrite Haxis, E.
  - intros a E Hnz. rewrite Haxis, E.
    split; [now apply lengthSq_normalize | now apply normalize_direction].
  - intros a E Hz.
    assert (Hzero : Builder.axis n = mkVector3 0 0 0).
    { rewrite Haxis, E, (normalize_zero _ Hz). now apply lengthSq_zero. }
    split; [exact Hzero|].
    intros v n' half. split.
    + intros Htype. unfold typeOf in Htype.
      unfold n', Builder.setJointValue, localPosition. rewrite Htype. cbn.
      rewrite Hzero. unfold localPosition in Hpos. rewrite Hpos.
      destruct (xyz (origin (Builder.jointData n))) as [x y z].
      unfold addScaledVector; cbn [vx vy vz]. f_equal; ring.
    + intros Htype.
      destruct (setJointValue_rotary v n Htype) as [Hq _].
      fold n' in Hq. rewrite Hq, qLengthSq_multiply, Hclosure, qLengthSq_setFromEuler.
      unfold half, n'. rewrite (setJointValue_jointValue v n), Hzero.
      unfold qLengthSq, setFromAxisAngle; cbn [qx qy qz qw vx vy vz]. ring.
Qed.
(** ** Vector attributes *)

Lemma append_assoc (a b c : string) : (a ++ b) ++ c = a ++ b ++ c.
Proof. induction a as [|x a IH]; cbn; [reflexivity | now rewrite IH]. Qed.

Lemma append_nil_r (a : string) : a ++ "" = a.
Proof. induction a as [|x a IH]; cbn; [reflexivity | now rewrite IH]. Qed.

Lemma isToken_inv t :
  isToken t = true ->
  exists c t', t = String c t' /\ JS.isWhiteSpace c = false
               /\ stringForall (fun c => negb (JS.isWhiteSpace c)) t' = true.
Proof.
  unfold isToken. destruct t as [|c t']; cbn; [discriminate|].
  intros [Hc Ht]%andb_true_iff. exists c, t'. repeat split; auto.
  now apply negb_true_iff.
Qed.

Lemma splitLoop_piece t rest cur inSep :
  stringForall (fun c => negb (JS.isWhiteSpace c)) t = true ->
  JS.splitLoop (t ++ rest) cur inSep
  = JS.splitLoop rest (cur ++ t) (if t =? "" then inSep else false).
Proof.
  revert cur inSep. induction t as [|c t IH]; intros cur inSep; cbn [stringForall append].
  - intros _. now rewrite append_nil_r.
  - intros [Hc Ht]%andb_true_iff. apply negb_true_iff in Hc.
    cbn [JS.splitLoop]. rewrite Hc, (IH _ _ Ht), append_assoc. cbn [append String.eqb].
    now destruct (t =? "").
Qed.

Lemma splitLoop_blank_in w rest :
  isBlank w = true ->
  JS.splitLoop (w ++ rest) "" true = JS.splitLoop rest "" true.
Proof.
  unfold isBlank. induction w as [|c w IH]; cbn [stringForall append]; [reflexivity|].
  intros [Hc Hw]%andb_true_iff. cbn [JS.splitLoop]. rewrite Hc. now apply IH.
Qed.

Lemma splitLoop_blank w rest cur :
  isBlank w = true -> w <> "" ->
  JS.splitLoop (w ++ rest) cur false = cur :: JS.splitLoop rest "" true.
Proof.
  unfold isBlank. destruct w as [|c w]; [congruence|]. cbn [stringForall append].
  intros [Hc Hw]%andb_true_iff _. cbn [JS.splitLoop]. rewrite Hc.
  f_equal. now apply splitLoop_blank_in.
Qed.

Lemma isSeparated_inv token space :
  isSeparated (token, space) = true ->
  isToken token = true /\ isBlank space = true /\ space <> "".
Proof.
  unfold isSeparated. cbn [fst snd].
  intros [[H1 H2]%andb_true_iff H3%truthy_true]%andb_true_iff. auto.
Qed.

Lemma isToken_chars t :
  isToken t = true ->
  stringForall (fun c => negb (JS.isWhiteSpace c)) t = true /\ t <> "".
Proof.
  unfold isToken. now intros [H1%truthy_true H2]%andb_true_iff.
Qed.

(** [split (/\s+/)] gives back the pieces. *)
Lemma splitLoop_spaced pieces last inSep :
  forallb isSeparated pieces = true -> isToken last = true ->
  JS.splitLoop (spaced pieces last) "" inSep = (map fst pieces ++ [last])%list.
Proof.
  intros Hp Hl. revert inSep.
  induction pieces as [|[token space] pieces IH]; intros inSep; cbn [spaced map app fst].
  - destruct (isToken_chars _ Hl) as [Hc Hne].
    rewrite <- (append_nil_r last) at 1.
    rewrite (splitLoop_piece _ _ _ _ Hc). cbn [append JS.splitLoop]. reflexivity.
  - cbn [forallb] in Hp. apply andb_true_iff in Hp as [Hs Hp].
    apply isSeparated_inv in Hs as (Ht & Hb & Hne).
    destruct (isToken_chars _ Ht) as [Hc Hne'].
    rewrite (splitLoop_piece _ _ _ _ Hc). cbn [append].
    apply String.eqb_neq in Hne'. rewrite Hne'.
    rewrite (splitLoop_blank _ _ _ Hb Hne). f_equal. now apply IH.
Qed.

Lemma trimStart_blank w s : isBlank w = true -> JS.trimStart (w ++ s) = JS.trimStart s.
Proof.
  unfold isBlank. induction w as [|c w IH]; cbn [stringForall append]; [reflexivity|].
  intros [Hc Hw]%andb_true_iff. cbn [JS.trimStart]. rewrite Hc. now apply IH.
Qed.

Lemma trimStart_token t s : isToken t = true -> JS.trimStart (t ++ s) = t ++ s.
Proof.
  intros (c & t' & -> & Hc & _)%isToken_inv. cbn [append JS.trimStart]. now rewrite Hc.
Qed.

Lemma trimEnd_blank_only w : isBlank w = true -> JS.trimEnd w = "".
Proof.
  unfold isBlank. induction w as [|c w IH]; cbn [stringForall JS.trimEnd]; [reflexivity|].
  intros [Hc Hw]%andb_true_iff. now rewrite (IH Hw), Hc.
Qed.

Lemma trimEnd_blank s w : isBlank w = true -> JS.trimEnd (s ++ w) = JS.trimEnd s.
Proof.
  intros Hw. induction s as [|c s IH]; cbn [append JS.trimEnd].
  - now apply trimEnd_blank_only.
  - now rewrite IH.
Qed.

Lemma trimEnd_chars t :
  stringForall (fun c => negb (JS.isWhiteSpace c)) t = true -> JS.trimEnd t = t.
Proof.
  induction t as [|c t IH]; cbn [stringForall JS.trimEnd]; [reflexivity|].
  intros [Hc Ht]%andb_true_iff. apply negb_true_iff in Hc. now rewrite (IH Ht), Hc.
Qed.

Lemma trimEnd_token s t : isToken t = true -> JS.trimEnd (s ++ t) = s ++ t.
Proof.
  intros Ht. destruct (isToken_chars _ Ht) as [Hc Hne].
  induction s as [|c s IH]; cbn [append JS.trimEnd].
  - now apply trimEnd_chars.
  - rewrite IH.
    assert (E : (s ++ t =? "") = false).
    { apply String.eqb_neq. destruct s; cbn; [assumption | discriminate]. }
    rewrite E. now rewrite andb_false_r.
Qed.

Lemma spaced_last pieces last : exists s, spaced pieces last = s ++ last.
Proof.
  induction pieces as [|[token space] pieces [s IH]]; cbn [spaced].
  - now exists "".
  - exists (token ++ space ++ s). now rewrite IH, !append_assoc.
Qed.

Lemma spaced_first pieces last :
  forallb isSeparated pieces = true -> isToken last = true ->
  exists t s, isToken t = true /\ spaced pieces last = t ++ s.
Proof.
  destruct pieces as [|[token space] pieces]; cbn [spaced forallb].
  - intros _ H. exists last, "". now rewrite append_nil_r.
  - intros [(H & _)%isSeparated_inv _]%andb_true_iff _. now exists token, (space ++ spaced pieces last).
Qed.

(** [trim] and [split (/\s+/)] on pieces set apart by white space,
    with white space before and after: the pieces come back. *)
Lemma split_trim_spaced before pieces last after :
  isBlank before = true -> forallb isSeparated pieces = true ->
  isToken last = true -> isBlank after = true ->
  JS.splitWhitespace (JS.trim (before ++ spaced pieces last ++ after))
  = (map fst pieces ++ [last])%list.
Proof.
  intros Hb Hp Hl Ha. unfold JS.splitWhitespace, JS.trim.
  rewrite (trimStart_blank _ _ Hb).
  destruct (spaced_first pieces last Hp Hl) as (t & s & Ht & E).
  rewrite E at 1. rewrite append_assoc, (trimStart_token _ _ Ht), <- append_assoc, <- E.
  rewrite (trimEnd_blank _ _ Ha).
  destruct (spaced_last pieces last) as (s' & E').
  rewrite E', (trimEnd_token _ _ Hl), <- E'.
  now apply splitLoop_spaced.
Qed.

Lemma isSeparated_intro token space :
  isToken token = true -> isBlank space = true -> space <> "" ->
  isSeparated (token, space) = true.
Proof.
  intros H1 H2 H3%truthy_true. unfold isSeparated. cbn [fst snd]. now rewrite H1, H2, H3.
Qed.

Lemma split_trim_blank w : isBlank w = true -> JS.splitWhitespace (JS.trim w) = [""].
Proof.
  intros Hw. unfold JS.trim.
  rewrite <- (append_nil_r w), (trimStart_blank _ _ Hw). reflexivity.
Qed.

(** X12. What the parser reads from a vector attribute.  Three pieces
    without white space, set apart by white space (one or more of
    space, tab, line break, ...), with or without white space before
    and after, are read as a vector: each component is [parseFloat] of
    its piece, in order; [parseRPY] reads roll, pitch and yaw the same
    way, and the four pieces of an [rgba] attribute are read as red,
    green, blue and alpha.  A string of white space alone is refused by
    [parseVector3] and [parseRPY]. *)
Theorem vector_attributes_read_their_pieces :
  forall (pf : string -> R) (before a s1 b s2 c after : string),
    isToken a = true -> isToken b = true -> isToken c = true ->
    isBlank before = true -> isBlank after = true ->
    isBlank s1 = true -> s1 <> "" -> isBlank s2 = true -> s2 <> "" ->
    parseVector3 pf (before ++ a ++ s1 ++ b ++ s2 ++ c ++ after)
    = Ok (mkVector3 (pf a) (pf b) (pf c))
    /\ parseRPY pf (before ++ a ++ s1 ++ b ++ s2 ++ c ++ after)
       = Ok (mkRPY (pf a) (pf b) (pf c))
    /\ (forall (s3 d : string) (el : XMLElement),
           isBlank s3 = true -> s3 <> "" -> isToken d = true ->
           attribute el "rgba" = Some (before ++ a ++ s1 ++ b ++ s2 ++ c ++ s3 ++ d ++ after) ->
           parseColor pf el = Ok (mkColor (pf a) (pf b) (pf c) (pf d)))
    /\ (exists msg, parseVector3 pf before = Throw msg)
    /\ (exists msg, parseRPY pf before = Throw msg).
Proof.
  intros pf before a s1 b s2 c after Ha Hb Hc Hbefore Hafter Hs1 Hn1 Hs2 Hn2.
  assert (E3 : JS.splitWhitespace
                 (JS.trim (before ++ a ++ s1 ++ b ++ s2 ++ c ++ after)) = [a; b; c]).
  { pose proof (split_trim_spaced before [(a, s1); (b, s2)] c after) as E.
    cbn [spaced map app fst forallb] in E. rewrite !append_assoc in E.
    apply E; auto. now rewrite !isSeparated_intro. }
  split; [|split; [|split; [|split]]].
  - unfold parseVector3. now rewrite E3.
  - unfold parseRPY. now rewrite E3.
  - intros s3 d el Hs3 Hn3 Hd Hattr.
    assert (E4 : JS.splitWhitespace
                   (JS.trim (before ++ a ++ s1 ++ b ++ s2 ++ c ++ s3 ++ d ++ after))
                 = [a; b; c; d]).
    { pose proof (split_trim_spaced before [(a, s1); (b, s2); (c, s3)] d after) as E.
      cbn [spaced map app fst forallb] in E. rewrite !append_assoc in E.
      apply E; auto. now rewrite !isSeparated_intro. }
    unfold attribute in Hattr. unfold parseColor. rewrite Hattr.
    assert (Ht : JS.truthy (before ++ a ++ s1 ++ b ++ s2 ++ c ++ s3 ++ d ++ after) = true).
    { apply truthy_true. destruct (isToken_inv _ Ha) as (x & a' & -> & _).
      destruct before; discriminate. }
    unfold orDefault. rewrite Ht, E4. reflexivity.
  - unfold parseVector3. rewrite (split_trim_blank _ Hbefore). cbn. eauto.
  - unfold parseRPY. rewrite (split_trim_blank _ Hbefore). cbn. eauto.
Qed.

Lemma vector_attributes_read_their_pieces_witness :
  parseVector3 parseDecimal " 1 2.5  -3 "
  = Ok (mkVector3 (parseDecimal "1") (parseDecimal "2.5") (parseDecimal "-3")).
Proof.
  apply (vector_attributes_read_their_pieces parseDecimal " " "1" " " "2.5" "  " "-3" " ");
    try reflexivity; discriminate.
Defined.

(** ** The model as a function of the elements read *)

Lemma bind_Ok {A B} (m : Result A) (k : A -> Result B) (b : B) :
  bind m k = Ok b <-> exists a, m = Ok a /\ k a = Ok b.
Proof.
  destruct m as [a | msg]; cbn; split.
  - intros H. now exists a.
  - now intros (a' & [= <-] & H).
  - discriminate.
  - intros (a' & [=] & _).
Qed.

(** A loop that parses every element and enters the result in a map. *)
Lemma forOf_collect {A V} (parse : A -> Result V) (key : V -> string)
      (xs : list A) (acc m : JS.Map V) :
  forOf xs (fun acc x => v <- parse x ;; Ok (JS.set acc (key v) v)) acc = Ok m
  <-> exists vs, Forall2 (fun x v => parse x = Ok v) xs vs
                 /\ m = fold_left (fun acc v => JS.set acc (key v) v) vs acc.
Proof.
  revert acc. induction xs as [|x xs IH]; intros acc; cbn [forOf].
  - split.
    + intros [= <-]. exists []. split; [constructor | reflexivity].
    + intros (vs & H & ->). inversion H. reflexivity.
  - rewrite bind_Ok. split.
    + intros (acc1 & (v & Hv & [= <-])%bind_Ok & (vs & Hvs & ->)%IH).
      exists (v :: vs). split; [now constructor | reflexivity].
    + intros (vs & H & ->). inversion H as [|x0 v xs0 vs0 Hv Hvs]; subst.
      exists (JS.set acc (key v) v). split.
      * apply bind_Ok. now exists v.
      * apply IH. now exists vs0.
Qed.

(** A loop that parses every element and pushes the result. *)
Lemma forOf_push {A V} (parse : A -> Result V) (xs : list A) (acc res : list V) :
  forOf xs (fun acc x => v <- parse x ;; Ok (acc ++ [v])%list) acc = Ok res
  <-> exists vs, Forall2 (fun x v => parse x = Ok v) xs vs /\ res = (acc ++ vs)%list.
Proof.
  revert acc. induction xs as [|x xs IH]; intros acc; cbn [forOf].
  - split.
    + intros [= <-]. exists []. split; [constructor | now rewrite app_nil_r].
    + intros (vs & H & ->). inversion H. now rewrite app_nil_r.
  - rewrite bind_Ok. split.
    + intros (acc1 & (v & Hv & [= <-])%bind_Ok & (vs & Hvs & ->)%IH).
      exists (v :: vs). split; [now constructor | now rewrite <- app_assoc].
    + intros (vs & H & ->). inversion H as [|x0 v xs0 vs0 Hv Hvs]; subst.
      exists (acc ++ [v])%list. split.
      * apply bind_Ok. now exists v.
      * apply IH. exists vs0. split; [assumption | now rewrite <- app_assoc].
Qed.

Lemma orDefault_robotName robotEl :
  orDefault (Some (getAttribute robotEl "name" None)) "robot" = robotName robotEl.
Proof. reflexivity. Qed.

(** [parseURDF] returns a model exactly when the document has a
    robot element and every material, link and joint element read from
    it parses; the model then holds, under the name of each, the
    parsed materials, links and joints, entered in the order of the
    document, carries the name of the robot element (or "robot" when
    that is missing or empty), and its root link is found among the
    links as the search loop finds it. *)
Lemma parseURDF_elements :
  forall (pf : string -> R) (parsed : XMLElement) (options : ParseURDFOptions)
         (model : RobotModel),
    parseURDF pf parsed options = Ok model
    <-> exists robotEl ms ls js,
        robotElement parsed = Some robotEl
        /\ Forall2 (fun e m => parseMaterial pf e = Ok m) (materialsRead parsed) ms
        /\ Forall2 (fun e l => parseLink pf e options = Ok l) (linksRead parsed) ls
        /\ Forall2 (fun e j => parseJoint pf e options = Ok j) (jointsRead parsed) js
        /\ model = mkRobotModel (robotName robotEl)
                                (fromList m_name ms) (fromList l_name ls)
                                (fromList j_name js)
                                (findRootLink (childLinksOf (fromList j_name js))
                                              (JS.keys (fromList l_name ls))).
Proof.
  intros pf parsed options model.
  unfold parseURDF, materialsRead, linksRead, jointsRead, robotChildren, robotElement.
  destruct (XML.orNull (XML.member parsed "robot")) as [robotEl|].
  2:{ split; [discriminate | intros (? & ? & ? & ? & [=] & _)]. }
  rewrite bind_Ok. split.
  - intros (materials & (ms & Hms & ->)%forOf_collect
            & (links & (ls & Hls & ->)%forOf_collect
               & (joints & (js & Hjs & ->)%forOf_collect & [= <-])%bind_Ok)%bind_Ok).
    exists robotEl, ms, ls, js. repeat split; auto.
  - intros (robotEl' & ms & ls & js & [= <-] & Hms & Hls & Hjs & ->).
    exists (fromList m_name ms). split; [apply forOf_collect; now exists ms|].
    apply bind_Ok. exists (fromList l_name ls). split; [apply forOf_collect; now exists ls|].
    apply bind_Ok. exists (fromList j_name js). split; [apply forOf_collect; now exists js|].
    reflexivity.
Qed.

(** ** Names in the model *)

Lemma In_keys_set {V} (m : JS.Map V) k v k' :
  In k' (JS.keys (JS.set m k v)) <-> In k' (JS.keys m) \/ k' = k.
Proof.
  induction m as [|[k0 v0] m IH]; cbn [JS.set JS.keys map fst In].
  - intuition.
  - destruct (String.eqb_spec k0 k) as [-> | Hk]; cbn [JS.keys map fst In].
    + intuition.
    + unfold JS.keys in IH. rewrite IH. intuition.
Qed.

Lemma keys_set {V} (m : JS.Map V) k v :
  JS.keys (JS.set m k v)
  = if in_dec string_dec k (JS.keys m) then JS.keys m else (JS.keys m ++ [k])%list.
Proof.
  induction m as [|[k0 v0] m IH]; cbn [JS.set JS.keys map fst].
  - destruct (in_dec string_dec k []) as [[] | _]. reflexivity.
  - destruct (String.eqb_spec k0 k) as [-> | Hk]; cbn [JS.keys map fst].
    + destruct (in_dec string_dec k (k :: map fst m)) as [_ | H]; [reflexivity|].
      exfalso. apply H. now left.
    + unfold JS.keys in IH. rewrite IH.
      destruct (in_dec string_dec k (map fst m)) as [H | H];
        destruct (in_dec string_dec k (k0 :: map fst m)) as [H' | H']; try reflexivity.
      * exfalso. apply H'. now right.
      * destruct H' as [-> | H']; [congruence | contradiction].
Qed.

Lemma NoDup_keys_set {V} (m : JS.Map V) k v :
  NoDup (JS.keys m) -> NoDup (JS.keys (JS.set m k v)).
Proof.
  intros H. rewrite keys_set.
  destruct (in_dec string_dec k (JS.keys m)) as [Hin | Hout]; [assumption|].
  apply NoDup_app; [assumption | repeat constructor; intros [] |].
  intros a Ha [<- | []]. contradiction.
Qed.

Lemma get_Some_In {V} (m : JS.Map V) k v : JS.get m k = Some v -> In (k, v) m.
Proof.
  induction m as [|[k0 v0] m IH]; cbn [JS.get]; [discriminate|].
  destruct (String.eqb_spec k0 k) as [-> | Hk].
  - intros [= <-]. now left.
  - intros H. right. now apply IH.
Qed.

Lemma get_In_values {V} (m : JS.Map V) k v : JS.get m k = Some v -> In v (JS.values m).
Proof.
  intros H%get_Some_In. unfold JS.values. now apply (in_map snd) in H.
Qed.

Lemma get_None_keys {V} (m : JS.Map V) k : JS.get m k = None <-> ~ In k (JS.keys m).
Proof.
  induction m as [|[k0 v0] m IH]; cbn [JS.get JS.keys map fst In].
  - tauto.
  - destruct (String.eqb_spec k0 k) as [-> | Hk].
    + split; [discriminate | intros H; exfalso; apply H; now left].
    + unfold JS.keys in IH. rewrite IH. tauto.
Qed.

Lemma fromList_snoc {V} (key : V -> string) vs v :
  fromList key (vs ++ [v]) = JS.set (fromList key vs) (key v) v.
Proof. unfold fromList. now rewrite fold_left_app. Qed.

(** What the map holds came from the list, under its own name. *)
Lemma fromList_get {V} (key : V -> string) vs k v :
  JS.get (fromList key vs) k = Some v -> In v vs /\ key v = k.
Proof.
  revert k v. induction vs as [|v0 vs IH] using rev_ind; intros k v.
  - discriminate.
  - rewrite fromList_snoc, get_set.
    destruct (String.eqb_spec (key v0) k) as [<- | Hk].
    + intros [= <-]. split; [apply in_or_app; right; now left | reflexivity].
    + intros [H1 H2]%IH. split; [apply in_or_app; now left | assumption].
Qed.

Lemma fromList_NoDup {V} (key : V -> string) vs : NoDup (JS.keys (fromList key vs)).
Proof.
  induction vs as [|v0 vs IH] using rev_ind.
  - constructor.
  - rewrite fromList_snoc. now apply NoDup_keys_set.
Qed.

Lemma fromList_In_keys {V} (key : V -> string) vs k :
  In k (JS.keys (fromList key vs)) <-> In k (map key vs).
Proof.
  induction vs as [|v0 vs IH] using rev_ind.
  - reflexivity.
  - rewrite fromList_snoc, In_keys_set, IH, map_app, in_app_iff. cbn [map In].
    intuition.
Qed.

(** The order of the names: that of their first occurrences. *)
Lemma fromList_keys {V} (key : V -> string) vs :
  JS.keys (fromList key vs) = rev (nodup string_dec (rev (map key vs))).
Proof.
  induction vs as [|v0 vs IH] using rev_ind.
  - reflexivity.
  - rewrite fromList_snoc, keys_set, map_app, rev_app_distr. cbn [map rev app nodup].
    destruct (in_dec string_dec (key v0) (JS.keys (fromList key vs))) as [Hin | Hout];
      destruct (in_dec string_dec (key v0) (rev (map key vs))) as [Hin' | Hout'].
    + exact IH.
    + exfalso. apply Hout'. apply in_rev. rewrite rev_involutive.
      now apply fromList_In_keys.
    + exfalso. apply Hout. apply fromList_In_keys. now apply in_rev.
    + cbn [rev]. now rewrite IH.
Qed.

(** The content under a name: that of the last element with the name. *)
Lemma fromList_last {V} (key : V -> string) before v after :
  (forall v', In v' after -> key v' <> key v) ->
  JS.get (fromList key (before ++ v :: after)) (key v) = Some v.
Proof.
  induction after as [|v0 after IH] using rev_ind; intros Hafter.
  - rewrite fromList_snoc, get_set. now rewrite String.eqb_refl.
  - replace (before ++ v :: after ++ [v0])%list
      with ((before ++ v :: after) ++ [v0])%list by now rewrite <- app_assoc.
    rewrite fromList_snoc, get_set.
    destruct (String.eqb_spec (key v0) (key v)) as [E | _].
    + exfalso. apply (Hafter v0); [apply in_or_app; right; now left | assumption].
    + apply IH. intros v' Hin. apply Hafter. apply in_or_app. now left.
Qed.

Lemma Forall2_functional {A V} (parse : A -> Result V) xs vs vs' :
  Forall2 (fun x v => parse x = Ok v) xs vs ->
  Forall2 (fun x v => parse x = Ok v) xs vs' -> vs = vs'.
Proof.
  intros H. revert vs'. induction H as [|x v xs vs Hv Hvs IH]; intros vs' H'.
  - now inversion H'.
  - inversion H' as [|x0 v' xs0 vs0 Hv' Hvs']; subst.
    f_equal; [congruence | now apply IH].
Qed.

Lemma parseMaterial_Ok pf e m :
  parseMaterial pf e = Ok m ->
  m_name m = getAttribute e "name" None /\ m_name m <> "".
Proof.
  unfold parseMaterial.
  destruct (JS.truthy (getAttribute e "name" None)) eqn:E; cbn [negb]; [|discriminate].
  intros (color & _ & [= <-])%bind_Ok. cbn [m_name].
  split; [reflexivity | now apply truthy_true].
Qed.

Lemma parseLink_Ok pf e options l :
  parseLink pf e options = Ok l ->
  l_name l = getAttribute e "name" None /\ l_name l <> ""
  /\ Forall2 (fun x v => parseVisual pf x options = Ok v)
             (getChildren e "visual") (visuals l)
  /\ Forall2 (fun x c => parseCollision pf x options = Ok c)
             (getChildren e "collision") (collisions l).
Proof.
  unfold parseLink.
  destruct (JS.truthy (getAttribute e "name" None)) eqn:E; cbn [negb]; [|discriminate].
  intros (inertial & _ & (vs & (vs' & Hvs & ->)%forOf_push
                          & (cs & (cs' & Hcs & ->)%forOf_push
                             & (sc & _ & [= <-])%bind_Ok)%bind_Ok)%bind_Ok)%bind_Ok.
  cbn [l_name visuals collisions app].
  repeat split; auto. now apply truthy_true.
Qed.

Lemma parseJoint_Ok pf e options j :
  parseJoint pf e options = Ok j ->
  j_name j = getAttribute e "name" None /\ j_name j <> ""
  /\ j_type j = getAttribute e "type" None /\ j_type j <> ""
  /\ (exists parentEl, getChild e "parent" = Some parentEl
                       /\ parent j = getAttribute parentEl "link" None)
  /\ parent j <> ""
  /\ (exists childEl, getChild e "child" = Some childEl
                      /\ child j = getAttribute childEl "link" None)
  /\ child j <> ""
  /\ limits j = option_map (parseJointLimits pf) (getChild e "limit").
Proof.
  unfold parseJoint.
  destruct (JS.truthy (getAttribute e "name" None)) eqn:E1; cbn [negb]; [|discriminate].
  destruct (JS.truthy (getAttribute e "type" None)) eqn:E2; cbn [negb]; [|discriminate].
  destruct (getChild e "parent") as [parentEl|]; [|discriminate].
  destruct (getChild e "child") as [childEl|]; [|discriminate].
  destruct (JS.truthy (getAttribute parentEl "link" None)) eqn:E3; cbn [negb orb];
    [|discriminate].
  destruct (JS.truthy (getAttribute childEl "link" None)) eqn:E4; cbn [negb];
    [|discriminate].
  intros (origin & _ & (axis & _ & [= <-])%bind_Ok)%bind_Ok.
  cbn [j_name j_type parent child limits].
  apply truthy_true in E1, E2, E3, E4.
  repeat split; auto; eexists; split; reflexivity.
Qed.

Lemma Forall2_In_r {A B} (P : A -> B -> Prop) xs ys y :
  Forall2 P xs ys -> In y ys -> exists x, In x xs /\ P x y.
Proof.
  induction 1 as [|x0 y0 xs ys H0 H IH]; [intros []|].
  intros [<- | Hin].
  - exists x0. split; [now left | assumption].
  - destruct (IH Hin) as (x & Hx & Hp). exists x. split; [now right | assumption].
Qed.

Lemma robotName_nonempty robotEl : robotName robotEl <> "".
Proof.
  unfold robotName. destruct (JS.truthy _) eqn:E; [now apply truthy_true | discriminate].
Qed.

(** X14. What every parsed model is like.  No two entries of
    [materials], of [links] or of [joints] share a name; every entry is
    held under its own name, which is not empty; every joint has a type,
    a parent and a child that are not empty (whether links of these
    names exist is not checked); the model has a name that is not empty;
    the root link, when there is one, is a link of the model. *)
Theorem parsed_model_is_well_formed :
  forall (pf : string -> R) (parsed : XMLElement) (options : ParseURDFOptions)
         (model : RobotModel),
    parseURDF pf parsed options = Ok model ->
    NoDup (JS.keys (materials model))
    /\ NoDup (JS.keys (links model))
    /\ NoDup (JS.keys (joints model))
    /\ (forall k m, JS.get (materials model) k = Some m -> m_name m = k /\ k <> "")
    /\ (forall k l, JS.get (links model) k = Some l -> l_name l = k /\ k <> "")
    /\ (forall k j, JS.get (joints model) k = Some j ->
                    j_name j = k /\ k <> ""
                    /\ j_type j <> "" /\ parent j <> "" /\ child j <> "")
    /\ name model <> ""
    /\ (forall root, rootLink model = Some root ->
                     root <> "" /\ JS.get (links model) root <> None).
Proof.
  intros pf parsed options model
         (robotEl & ms & ls & js & _ & Hms & Hls & Hjs & ->)%parseURDF_elements.
  cbn [materials links joints name rootLink].
  assert (HL : forall k l, JS.get (fromList l_name ls) k = Some l -> l_name l = k /\ k <> "").
  { intros k l [Hin <-]%fromList_get. split; [reflexivity|].
    destruct (Forall2_In_r _ _ _ _ Hls Hin) as (e & _ & He).
    now apply parseLink_Ok in He. }
  split; [apply fromList_NoDup|]. split; [apply fromList_NoDup|].
  split; [apply fromList_NoDup|]. split; [|split; [exact HL|split; [|split]]].
  - intros k m [Hin <-]%fromList_get. split; [reflexivity|].
    destruct (Forall2_In_r _ _ _ _ Hms Hin) as (e & _ & He).
    now apply parseMaterial_Ok in He.
  - intros k j [Hin <-]%fromList_get. split; [reflexivity|].
    destruct (Forall2_In_r _ _ _ _ Hjs Hin) as (e & _ & He).
    apply parseJoint_Ok in He. tauto.
  - apply robotName_nonempty.
  - intros root (before & after & Hkeys & _)%findRootLink_Some.
    assert (Hin : In root (JS.keys (fromList l_name ls)))
      by (rewrite Hkeys; apply in_or_app; right; now left).
    destruct (JS.get (fromList l_name ls) root) as [l|] eqn:E.
    + split; [|discriminate]. now destruct (HL root l E).
    + apply get_None_keys in E. contradiction.
Qed.

(** X15. Elements that share a name.  Two links (joints, materials)
    of one name are not an error: the model keeps one entry for the
    name, at the place of the first element with that name in the order
    of the entries, holding what the last element with that name parses
    to. *)
Theorem parseURDF_duplicate_names :
  forall (pf : string -> R) (parsed : XMLElement) (options : ParseURDFOptions)
         (model : RobotModel) (ls : list Link) (js : list Joint) (ms : list Material),
    parseURDF pf parsed options = Ok model ->
    Forall2 (fun e l => parseLink pf e options = Ok l) (linksRead parsed) ls ->
    Forall2 (fun e j => parseJoint pf e options = Ok j) (jointsRead parsed) js ->
    Forall2 (fun e m => parseMaterial pf e = Ok m) (materialsRead parsed) ms ->
    JS.keys (links model) = rev (nodup string_dec (rev (map l_name ls)))
    /\ JS.keys (joints model) = rev (nodup string_dec (rev (map j_name js)))
    /\ JS.keys (materials model) = rev (nodup string_dec (rev (map m_name ms)))
    /\ (forall before l after,
           ls = (before ++ l :: after)%list ->
           (forall l', In l' after -> l_name l' <> l_name l) ->
           JS.get (links model) (l_name l) = Some l)
    /\ (forall before j after,
           js = (before ++ j :: after)%list ->
           (forall j', In j' after -> j_name j' <> j_name j) ->
           JS.get (joints model) (j_name j) = Some j)
    /\ (forall before m after,
           ms = (before ++ m :: after)%list ->
           (forall m', In m' after -> m_name m' <> m_name m) ->
           JS.get (materials model) (m_name m) = Some m).
Proof.
  intros pf parsed options model ls js ms
         (robotEl & ms' & ls' & js' & _ & Hms' & Hls' & Hjs' & ->)%parseURDF_elements
         Hls Hjs Hms.
  rewrite (Forall2_functional _ _ _ _ Hls' Hls), (Forall2_functional _ _ _ _ Hjs' Hjs),
    (Forall2_functional _ _ _ _ Hms' Hms).
  cbn [materials links joints].
  split; [apply fromList_keys|]. split; [apply fromList_keys|].
  split; [apply fromList_keys|].
  split; [|split]; intros before x after -> Hafter; now apply fromList_last.
Qed.

(** ** More parse errors *)

Lemma truthy_empty s : s = "" -> JS.truthy s = false.
Proof. now intros ->. Qed.

Lemma parseLink_unnamed pf l options :
  getAttribute l "name" None = "" -> throws (parseLink pf l options).
Proof.
  intros E. unfold parseLink. rewrite (truthy_empty _ E). apply throws_Throw.
Qed.

Lemma parseMaterial_unnamed pf m :
  getAttribute m "name" None = "" -> throws (parseMaterial pf m).
Proof.
  intros E. unfold parseMaterial. rewrite (truthy_empty _ E). apply throws_Throw.
Qed.

Lemma parseVisual_no_geometry pf v options :
  getChild v "geometry" = None -> throws (parseVisual pf v options).
Proof. intros E. unfold parseVisual. rewrite E. apply throws_Throw. Qed.

Lemma parseCollision_no_geometry pf c options :
  getChild c "geometry" = None -> throws (parseCollision pf c options).
Proof. intros E. unfold parseCollision. rewrite E. apply throws_Throw. Qed.

(** What a joint element lacks when [parseJoint] refuses it before it
    reads origin and axis. *)
Lemma parseJoint_incomplete pf j options :
  getAttribute j "name" None = ""
  \/ getAttribute j "type" None = ""
  \/ getChild j "parent" = None
  \/ getChild j "child" = None
  \/ (exists p, getChild j "parent" = Some p /\ getAttribute p "link" None = "")
  \/ (exists c, getChild j "child" = Some c /\ getAttribute c "link" None = "") ->
  throws (parseJoint pf j options).
Proof.
  intros H. unfold parseJoint.
  destruct (JS.truthy (getAttribute j "name" None)) eqn:E1; cbn [negb];
    [|apply throws_Throw].
  destruct (JS.truthy (getAttribute j "type" None)) eqn:E2; cbn [negb];
    [|apply throws_Throw].
  destruct (getChild j "parent") as [parentEl|] eqn:E3; [|apply throws_Throw].
  destruct (getChild j "child") as [childEl|] eqn:E4; [|apply throws_Throw].
  destruct (JS.truthy (getAttribute parentEl "link" None)) eqn:E5; cbn [negb orb];
    [|apply throws_Throw].
  destruct (JS.truthy (getAttribute childEl "link" None)) eqn:E6; cbn [negb];
    [|apply throws_Throw].
  exfalso.
  destruct H as [H | [H | [H | [H | [(p & [= <-] & H) | (c & [= <-] & H)]]]]];
    try discriminate; apply truthy_empty in H; congruence.
Qed.

(** *** What an error means *)

Lemma bind_Throw {A B} (m : Result A) (k : A -> Result B) (msg : string) :
  bind m k = Throw msg <-> m = Throw msg \/ exists a, m = Ok a /\ k a = Throw msg.
Proof.
  destruct m as [a | msg']; cbn; split.
  - intros H. right. now exists a.
  - intros [H | (a' & [= <-] & H)]; [discriminate H | exact H].
  - intros [= ->]. now left.
  - intros [[= ->] | (a & H & _)]; [reflexivity | discriminate H].
Qed.

Lemma forOf_Throw {A S} (xs : list A) (body : S -> A -> Result S) (s : S) msg :
  forOf xs body s = Throw msg -> exists x s', In x xs /\ body s' x = Throw msg.
Proof.
  revert s. induction xs as [|x xs IH]; intros s; cbn [forOf]; [discriminate|].
  intros [H | (s1 & _ & H)]%bind_Throw.
  - exists x, s. split; [now left | exact H].
  - destruct (IH _ H) as (x' & s' & Hin & Hx).
    exists x', s'. split; [now right | exact Hx].
Qed.

(** A loop that parses each element and stores the result throws what
    the parsing of one of its elements throws. *)
Lemma forOf_parse_Throw {A V S} (parse : A -> Result V) (store : S -> V -> S)
      (xs : list A) (s : S) msg :
  forOf xs (fun acc x => v <- parse x ;; Ok (store acc v)) s = Throw msg ->
  exists x, In x xs /\ parse x = Throw msg.
Proof.
  intros (x & s' & Hin & H)%forOf_Throw. cbv beta in H.
  apply bind_Throw in H as [H | (v & _ & H)]; [now exists x | discriminate H].
Qed.

Lemma truthy_false s : JS.truthy s = false -> s = "".
Proof. unfold JS.truthy. destruct (String.eqb_spec s ""); [auto | discriminate]. Qed.

Lemma parseVector3_Throw pf str msg :
  parseVector3 pf str = Throw msg -> isFormatError msg.
Proof.
  unfold parseVector3. destruct (negb _); [|discriminate].
  intros [= <-]. right. exists str. now left.
Qed.

Lemma parseRPY_Throw pf str msg :
  parseRPY pf str = Throw msg -> isFormatError msg.
Proof.
  unfold parseRPY. destruct (negb _); [|discriminate].
  intros [= <-]. right. exists str. right. now left.
Qed.

Lemma parseColor_Throw pf e msg :
  parseColor pf e = Throw msg -> isFormatError msg.
Proof.
  unfold parseColor. cbv zeta. destruct (negb _); [|discriminate].
  intros [= <-]. right. eexists. right. right. reflexivity.
Qed.

Lemma parseOrigin_Throw pf e msg :
  parseOrigin pf e = Throw msg -> isFormatError msg.
Proof.
  unfold parseOrigin. cbv zeta.
  intros [H | (xyz & _ & [H | (rpy & _ & H)]%bind_Throw)]%bind_Throw.
  - now apply parseVector3_Throw in H.
  - now apply parseRPY_Throw in H.
  - discriminate H.
Qed.

Lemma parseOriginOpt_Throw pf o msg :
  parseOriginOpt pf o = Throw msg -> isFormatError msg.
Proof. destruct o as [e|]; [apply parseOrigin_Throw | discriminate]. Qed.

Lemma parseGeometry_Throw pf e options msg :
  parseGeometry pf e options = Throw msg -> isFormatError msg.
Proof.
  unfold parseGeometry.
  destruct (getChild e "box") as [boxEl|].
  { cbv zeta. intros [H | (size & _ & H)]%bind_Throw;
      [now apply parseVector3_Throw in H | discriminate H]. }
  destruct (getChild e "cylinder"); [discriminate|].
  destruct (getChild e "sphere"); [discriminate|].
  destruct (getChild e "mesh") as [meshEl|].
  { cbv zeta. destruct (JS.truthy _); [|discriminate].
    intros [H | (scale & _ & H)]%bind_Throw;
      [now apply parseVector3_Throw in H | discriminate H]. }
  destruct (getChild e "capsule"); [discriminate|].
  intros [= <-]. now left.
Qed.

Lemma parseInertial_Throw pf e msg :
  parseInertial pf e = Throw msg -> isFormatError msg.
Proof.
  unfold parseInertial. cbv zeta.
  intros [H | (origin & _ & H)]%bind_Throw;
    [now apply parseOriginOpt_Throw in H | discriminate H].
Qed.

Lemma parseMaterial_Throw pf m msg :
  parseMaterial pf m = Throw msg ->
  (msg = "Material element missing name attribute" /\ getAttribute m "name" None = "")
  \/ isFormatError msg.
Proof.
  unfold parseMaterial. cbv zeta.
  destruct (JS.truthy (getAttribute m "name" None)) eqn:E; cbn [negb].
  - intros [H | (color & _ & H)]%bind_Throw; [|discriminate H]. right.
    destruct (getChild m "color") as [c|]; [|discriminate H].
    apply bind_Throw in H as [H | (color & _ & H)];
      [now apply parseColor_Throw in H | discriminate H].
  - intros [= <-]. left. split; [reflexivity | now apply truthy_false].
Qed.

Lemma parseVisual_Throw pf v options msg :
  parseVisual pf v options = Throw msg ->
  (msg = "Visual element missing geometry" /\ getChild v "geometry" = None)
  \/ isFormatError msg.
Proof.
  unfold parseVisual. cbv zeta.
  destruct (getChild v "geometry") as [g|]; [|intros [= <-]; now left].
  intros [H | (origin & _ & [H | (geometry & _ & H)]%bind_Throw)]%bind_Throw; right.
  - now apply parseOriginOpt_Throw in H.
  - now apply parseGeometry_Throw in H.
  - discriminate H.
Qed.

Lemma parseCollision_Throw pf c options msg :
  parseCollision pf c options = Throw msg ->
  (msg = "Collision element missing geometry" /\ getChild c "geometry" = None)
  \/ isFormatError msg.
Proof.
  unfold parseCollision. cbv zeta.
  destruct (getChild c "geometry") as [g|]; [|intros [= <-]; now left].
  intros [H | (origin & _ & [H | (geometry & _ & H)]%bind_Throw)]%bind_Throw; right.
  - now apply parseOriginOpt_Throw in H.
  - now apply parseGeometry_Throw in H.
  - discriminate H.
Qed.

Lemma parseLink_Throw pf l options msg :
  parseLink pf l options = Throw msg ->
  (msg = "Link element missing name attribute" /\ getAttribute l "name" None = "")
  \/ (msg = "Visual element missing geometry"
      /\ exists v, In v (getChildren l "visual") /\ getChild v "geometry" = None)
  \/ (msg = "Collision element missing geometry"
      /\ exists c, In c (getChildren l "collision") /\ getChild c "geometry" = None)
  \/ isFormatError msg.
Proof.
  unfold parseLink. cbv zeta.
  destruct (JS.truthy (getAttribute l "name" None)) eqn:E; cbn [negb];
    [|intros [= <-]; left; split; [reflexivity | now apply truthy_false]].
  intros [H | (inertial & _ & H)]%bind_Throw.
  { do 3 right. destruct (getChild l "inertial") as [i|]; [|discriminate H].
    apply bind_Throw in H as [H | (i' & _ & H)];
      [now apply parseInertial_Throw in H | discriminate H]. }
  apply bind_Throw in H as [H | (visuals & _ & H)].
  { apply (forOf_parse_Throw (fun x => parseVisual pf x options)
                             (fun acc v => (acc ++ [v])%list)) in H as (v & Hin & H).
    apply parseVisual_Throw in H as [[-> H] | H]; [|now do 3 right].
    right; left. split; [reflexivity | now exists v]. }
  apply bind_Throw in H as [H | (collisions & _ & H)].
  { apply (forOf_parse_Throw (fun x => parseCollision pf x options)
                             (fun acc c => (acc ++ [c])%list)) in H as (c & Hin & H).
    apply parseCollision_Throw in H as [[-> H] | H]; [|now do 3 right].
    right; right; left. split; [reflexivity | now exists c]. }
  apply bind_Throw in H as [H | (selfCollision & _ & H)]; [|discriminate H].
  do 3 right.
  destruct (getChild l "self_collision_checking") as [sc|]; [|discriminate H].
  destruct (getChild sc "geometry") as [g|]; [|discriminate H].
  apply bind_Throw in H as [H | (origin & _ & [H | (geometry & _ & H)]%bind_Throw)].
  - now apply parseOriginOpt_Throw in H.
  - now apply parseGeometry_Throw in H.
  - discriminate H.
Qed.

Lemma parseJoint_Throw pf j options msg :
  parseJoint pf j options = Throw msg ->
  (msg = "Joint element missing name attribute" /\ getAttribute j "name" None = "")
  \/ (msg = "Joint element missing type attribute" /\ getAttribute j "type" None = "")
  \/ (msg = "Joint missing parent or child link"
      /\ (getChild j "parent" = None \/ getChild j "child" = None))
  \/ (msg = "Joint parent or child missing link attribute"
      /\ exists parentEl childEl,
          getChild j "parent" = Some parentEl /\ getChild j "child" = Some childEl
          /\ (getAttribute parentEl "link" None = ""
              \/ getAttribute childEl "link" None = ""))
  \/ isFormatError msg.
Proof.
  unfold parseJoint. cbv zeta.
  destruct (JS.truthy (getAttribute j "name" None)) eqn:E1; cbn [negb];
    [|intros [= <-]; left; split; [reflexivity | now apply truthy_false]].
  destruct (JS.truthy (getAttribute j "type" None)) eqn:E2; cbn [negb];
    [|intros [= <-]; right; left; split; [reflexivity | now apply truthy_false]].
  destruct (getChild j "parent") as [parentEl|];
    [|intros [= <-]; right; right; left; split; [reflexivity | now left]].
  destruct (getChild j "child") as [childEl|];
    [|intros [= <-]; right; right; left; split; [reflexivity | now right]].
  destruct (JS.truthy (getAttribute parentEl "link" None)) eqn:E3; cbn [negb orb].
  - destruct (JS.truthy (getAttribute childEl "link" None)) eqn:E4; cbn [negb].
    + intros [H | (origin & _ & H)]%bind_Throw;
        [do 4 right; now apply parseOriginOpt_Throw in H|].
      apply bind_Throw in H as [H | (axis & _ & H)]; [|discriminate H].
      do 4 right.
      destruct (getChild j "axis") as [axisEl|]; [|discriminate H].
      apply bind_Throw in H as [H | (a & _ & H)]; [|discriminate H].
      unfold parseJointAxis in H. cbv zeta in H.
      apply bind_Throw in H as [H | (xyz & _ & H)];
        [now apply parseVector3_Throw in H | discriminate H].
    + intros [= <-]. do 3 right. left. split; [reflexivity|].
      exists parentEl, childEl. repeat split. right. now apply truthy_false.
  - intros [= <-]. do 3 right. left. split; [reflexivity|].
    exists parentEl, childEl. repeat split. left. now apply truthy_false.
Qed.

Lemma parseURDF_Throw pf parsed options msg :
  parseURDF pf parsed options = Throw msg ->
  (msg = "URDF document missing <robot> root element" /\ robotElement parsed = None)
  \/ (exists m, In m (materialsRead parsed) /\ parseMaterial pf m = Throw msg)
  \/ (exists l, In l (linksRead parsed) /\ parseLink pf l options = Throw msg)
  \/ (exists j, In j (jointsRead parsed) /\ parseJoint pf j options = Throw msg).
Proof.
  unfold materialsRead, linksRead, jointsRead, robotChildren, robotElement, parseURDF.
  destruct (XML.orNull (XML.member parsed "robot")) as [robotEl|];
    [|intros [= <-]; now left].
  cbv zeta. intros H. right.
  apply bind_Throw in H as [H | (materials & _ & H)].
  { left. exact (forOf_parse_Throw (parseMaterial pf)
                   (fun acc material => JS.set acc (m_name material) material) _ _ _ H). }
  right. apply bind_Throw in H as [H | (links & _ & H)].
  { left. exact (forOf_parse_Throw (fun x => parseLink pf x options)
                   (fun acc link => JS.set acc (l_name link) link) _ _ _ H). }
  right. apply bind_Throw in H as [H | (joints & _ & H)]; [|discriminate H].
  exact (forOf_parse_Throw (fun x => parseJoint pf x options)
           (fun acc joint => JS.set acc (j_name joint) joint) _ _ _ H).
Qed.

Lemma getChildren_empty e tag :
  XML.member e tag = Some (XText "") -> getChildren e tag = [] /\ getChild e tag = None.
Proof. unfold getChildren, getChild. now intros ->. Qed.

(** X16. The errors about missing parts, and what they mean.  The
    parser reads the elements [getChildren] and [getChild] return.
    [parseURDF] throws when the document has no robot element, when a
    material or a link it reads has no name (or an empty one), when a
    visual or a collision it reads has no geometry, or when a joint it
    reads has no name, no type, no parent or no child element, or a
    parent or child element without a [link] attribute.  Conversely an
    error of [parseURDF] is one of the nine errors about a missing
    part, and then an element it reads misses that part, or an error
    about the form of a value.  An empty element that stands alone
    under its parent is the empty string: it is not read, so that a link
    whose only visual is [<visual/>] and a robot whose only joint is
    [<joint/>] parse, to a link without visuals and a model without
    joints. *)
Theorem parseURDF_fails_on_missing_parts :
  forall (pf : string -> R) (parsed : XMLElement) (options : ParseURDFOptions),
    (robotElement parsed = None
     \/ (exists m, In m (materialsRead parsed) /\ getAttribute m "name" None = "")
     \/ (exists l, In l (linksRead parsed) /\ getAttribute l "name" None = "")
     \/ (exists v, In v (visualsRead parsed ++ collisionsRead parsed)
                   /\ getChild v "geometry" = None)
     \/ (exists j, In j (jointsRead parsed)
                   /\ (getAttribute j "name" None = ""
                       \/ getAttribute j "type" None = ""
                       \/ getChild j "parent" = None
                       \/ getChild j "child" = None
                       \/ (exists p, getChild j "parent" = Some p
                                     /\ getAttribute p "link" None = "")
                       \/ (exists c, getChild j "child" = Some c
                                     /\ getAttribute c "link" None = ""))) ->
     exists msg, parseURDF pf parsed options = Throw msg)
    /\ (forall msg,
           parseURDF pf parsed options = Throw msg ->
           (msg = "URDF document missing <robot> root element"
            /\ robotElement parsed = None)
           \/ (msg = "Material element missing name attribute"
               /\ exists m, In m (materialsRead parsed)
                            /\ getAttribute m "name" None = "")
           \/ (msg = "Link element missing name attribute"
               /\ exists l, In l (linksRead parsed) /\ getAttribute l "name" None = "")
           \/ (msg = "Visual element missing geometry"
               /\ exists v, In v (visualsRead parsed) /\ getChild v "geometry" = None)
           \/ (msg = "Collision element missing geometry"
               /\ exists c, In c (collisionsRead parsed)
                            /\ getChild c "geometry" = None)
           \/ (msg = "Joint element missing name attribute"
               /\ exists j, In j (jointsRead parsed) /\ getAttribute j "name" None = "")
           \/ (msg = "Joint element missing type attribute"
               /\ exists j, In j (jointsRead parsed) /\ getAttribute j "type" None = "")
           \/ (msg = "Joint missing parent or child link"
               /\ exists j, In j (jointsRead parsed)
                            /\ (getChild j "parent" = None \/ getChild j "child" = None))
           \/ (msg = "Joint parent or child missing link attribute"
               /\ exists j parentEl childEl,
                   In j (jointsRead parsed)
                   /\ getChild j "parent" = Some parentEl
                   /\ getChild j "child" = Some childEl
                   /\ (getAttribute parentEl "link" None = ""
                       \/ getAttribute childEl "link" None = ""))
           \/ isFormatError msg)
    /\ (forall e tag,
           XML.member e tag = Some (XText "") ->
           getChildren e tag = [] /\ getChild e tag = None)
    /\ parseURDF pf emptyPartsDocument options
       = Ok (mkRobotModel "r" [] [("a", mkLink "a" None [] [] None)] [] (Some "a")).
Proof.
  intros pf parsed options.
  split; [|split; [|split; [exact getChildren_empty | reflexivity]]].
  - intros H. change (throws (parseURDF pf parsed options)).
    destruct H as [H | H].
    { unfold robotElement in H. unfold parseURDF. rewrite H. apply throws_Throw. }
    apply parseURDF_throws.
    destruct H as [(m & Hm & H) | [(l & Hl & H) | [(v & Hv & H) | (j & Hj & H)]]].
    + left. exists m. split; [assumption | now apply parseMaterial_unnamed].
    + right; left. exists l. split; [assumption | now apply parseLink_unnamed].
    + right; left.
      apply in_app_or in Hv as [Hv | Hv];
        apply in_flat_map in Hv as (l & Hl & Hv); exists l; (split; [assumption|]);
        apply parseLink_throws.
      * apply FaultVisual with v; [assumption | now apply parseVisual_no_geometry].
      * apply FaultCollision with v; [assumption | now apply parseCollision_no_geometry].
    + right; right. exists j. split; [assumption | now apply parseJoint_incomplete].
  - intros msg
           [H | [(m & Hm & H) | [(l & Hl & H) | (j & Hj & H)]]]%parseURDF_Throw.
    + now left.
    + apply parseMaterial_Throw in H as [[-> H] | H]; [|now do 9 right].
      right; left. split; [reflexivity | now exists m].
    + apply parseLink_Throw in H
        as [[-> H] | [[-> (v & Hv & H)] | [[-> (c & Hc & H)] | H]]];
        [| | |now do 9 right].
      * do 2 right; left. split; [reflexivity | now exists l].
      * do 3 right; left. split; [reflexivity|]. exists v. split; [|exact H].
        unfold visualsRead. apply in_flat_map. now exists l.
      * do 4 right; left. split; [reflexivity|]. exists c. split; [|exact H].
        unfold collisionsRead. apply in_flat_map. now exists l.
    + apply parseJoint_Throw in H
        as [[-> H] | [[-> H] | [[-> H] | [[-> (p & c & Hp & Hc & H)] | H]]]];
        [| | | |now do 9 right].
      * do 5 right; left. split; [reflexivity | now exists j].
      * do 6 right; left. split; [reflexivity | now exists j].
      * do 7 right; left. split; [reflexivity | now exists j].
      * do 8 right; left. split; [reflexivity|]. now exists j, p, c.
Qed.

Lemma parseOrigin_rpy_throws pf o str :
  attribute o "rpy" = Some str -> str <> "" -> tokenCount str <> 3%nat ->
  throws (parseOrigin pf o).
Proof.
  unfold attribute, parseOrigin. intros -> Hne%truthy_true Hcount.
  apply throws_bind_r. intros xyz. apply throws_bind_l.
  unfold orDefault. rewrite Hne.
  unfold tokenCount in Hcount. unfold parseRPY.
  destruct (Nat.eqb_spec (List.length (JS.splitWhitespace (JS.trim str))) 3);
    [contradiction | apply throws_Throw].
Qed.

Lemma parseGeometry_scale pf g options m str :
  getChild g "box" = None -> getChild g "cylinder" = None -> getChild g "sphere" = None ->
  getChild g "mesh" = Some m ->
  attribute m "scale" = Some str -> str <> "" -> tokenCount str <> 3%nat ->
  throws (parseGeometry pf g options).
Proof.
  unfold attribute, parseGeometry. intros -> -> -> -> Hscale Hne%truthy_true Hcount.
  cbv zeta. unfold getAttribute. rewrite Hscale, Hne.
  apply throws_bind_l. now apply parseVector3_throws.
Qed.

(** X17. Two more vector attributes are checked when they are read:
    parsing fails when a non-empty [rpy] of an origin read does not
    split into three pieces, and when a non-empty [scale] of a mesh read
    (the first mesh of a geometry read that has no box, cylinder or
    sphere) does not. *)
Theorem parseURDF_fails_on_bad_rpy_or_scale :
  forall (pf : string -> R) (parsed : XMLElement) (options : ParseURDFOptions),
    (exists o str, In o (originsRead parsed) /\ attribute o "rpy" = Some str
                   /\ str <> "" /\ tokenCount str <> 3%nat)
    \/ (exists m str, In m (meshesRead parsed) /\ attribute m "scale" = Some str
                      /\ str <> "" /\ tokenCount str <> 3%nat) ->
    exists msg, parseURDF pf parsed options = Throw msg.
Proof.
  intros pf parsed options H. change (throws (parseURDF pf parsed options)).
  apply parseURDF_throws.
  destruct H as [(o & str & Ho & Hattr & Hne & Hcount)
                | (m & str & Hm & Hattr & Hne & Hcount)].
  - destruct (originsRead_fault pf options parsed o Ho) as [(l & Hl & Hfault) | Hj].
    + now apply parseOrigin_rpy_throws with str.
    + right; left. exists l. split; auto. now apply parseLink_throws.
    + right; right. exact Hj.
  - right; left.
    unfold meshesRead in Hm. apply in_flat_map in Hm as (g & Hg & Hm).
    destruct (getChild g "box") eqn:E1; [destruct Hm|].
    destruct (getChild g "cylinder") eqn:E2; [destruct Hm|].
    destruct (getChild g "sphere") eqn:E3; [destruct Hm|].
    apply In_optList in Hm.
    destruct (geometriesRead_fault pf options parsed g Hg) as (l & Hl & Hfault).
    + now apply parseGeometry_scale with m str.
    + exists l. split; auto. now apply parseLink_throws.
Qed.
(** ** The examples *)

Lemma armDocument_parses :
  parseURDF parseDecimal armDocument noOptions = Ok (modelOf armDocument).
Proof. reflexivity. Qed.

Lemma armRobot_built :
  Builder.buildRobotStructure 3 (modelOf armDocument) plainOptions = Some armRobot.
Proof.
  unfold armRobot, builtOf.
  assert (H : option_map (fun _ => tt)
                         (Builder.buildRobotStructure 3 (modelOf armDocument) plainOptions)
              = Some tt) by (lazy; reflexivity).
  destruct (Builder.buildRobotStructure 3 (modelOf armDocument) plainOptions);
    [reflexivity | discriminate H].
Qed.

(** ** Meshes *)

Lemma parseVisual_Ok pf e options v :
  parseVisual pf e options = Ok v ->
  (v_material v = None
   \/ exists n, n <> "" /\ v_material v = Some (MaterialName n))
  /\ exists g, getChild e "geometry" = Some g
               /\ parseGeometry pf g options = Ok (v_geometry v).
Proof.
  unfold parseVisual.
  destruct (getChild e "geometry") as [g|]; [|discriminate].
  intros (origin & _ & (geometry & Hg & [= <-])%bind_Ok)%bind_Ok.
  cbn [v_material v_geometry]. split; [|now exists g].
  destruct (getChild e "material") as [el|]; [|now left].
  destruct (JS.truthy (getAttribute el "name" None)) eqn:E; [|now left].
  right. eexists. split; [|reflexivity]. now apply truthy_true.
Qed.

(** The visuals of the links of a parsed model name their material. *)
Lemma parsed_visual_material pf parsed options model k link visual :
  parseURDF pf parsed options = Ok model ->
  JS.get (links model) k = Some link -> In visual (visuals link) ->
  v_material visual = None
  \/ exists n, n <> "" /\ v_material visual = Some (MaterialName n).
Proof.
  intros (robotEl & ms & ls & js & _ & _ & Hls & _ & ->)%parseURDF_elements.
  cbn [links]. intros [Hin _]%fromList_get Hv.
  destruct (Forall2_In_r _ _ _ _ Hls Hin) as (e & _ & (_ & _ & Hvs & _)%parseLink_Ok).
  destruct (Forall2_In_r _ _ _ _ Hvs Hv) as (ve & _ & He).
  now apply parseVisual_Ok in He.
Qed.

(** X18. The material [loadRobot] gives the mesh of a visual of a
    parsed model.  The parser keeps the name of the material of a
    visual and nothing else of it, so the color is looked up among the
    materials of the robot element: a visual without a material, with a
    name no material of the robot carries, or with a material that has
    no color, is drawn in the grey 0x888888, opaque; otherwise in the
    red, green and blue of the material, transparent exactly when its
    alpha is below 1, with the opacity [min (alpha, 1)].  Metalness is
    always 0.3 and roughness 0.6. *)
Theorem mesh_material_of_a_parsed_visual :
  forall (pf : string -> R) (parsed : XMLElement) (options : ParseURDFOptions)
         (model : RobotModel) (k : string) (link : Link) (visual : Visual),
    parseURDF pf parsed options = Ok model ->
    JS.get (links model) k = Some link -> In visual (visuals link) ->
    let mat := Builder.getMaterial visual (materials model) in
    let named :=
      match v_material visual with
      | Some (MaterialName n) => JS.get (materials model) n
      | _ => None
      end in
    (forall m, v_material visual <> Some (MaterialInline m))
    /\ Builder.metalness mat = 3 / 10 /\ Builder.roughness mat = 6 / 10
    /\ (match named with Some m => m_color m = None | None => True end ->
        Builder.color mat = Builder.ColorHex 0x888888
        /\ Builder.transparent mat = false /\ Builder.opacity mat = 1)
    /\ (forall m c, named = Some m -> m_color m = Some c ->
                    Builder.color mat = Builder.ColorRGB (c_r c) (c_g c) (c_b c)
                    /\ (Builder.transparent mat = true <-> c_a c < 1)
                    /\ Builder.opacity mat = Rmin (c_a c) 1).
Proof.
  intros pf parsed options model k link visual Hparse Hlink Hvisual mat named.
  pose proof (parsed_visual_material _ _ _ _ _ _ _ Hparse Hlink Hvisual) as Hm.
  assert (Hmat : mat =
                 match named with
                 | Some m =>
                     match m_color m with
                     | Some c =>
                         if Rlt_dec (c_a c) 1
                         then Builder.mkMeshStandardMaterial
                                (Builder.ColorRGB (c_r c) (c_g c) (c_b c))
                                (3 / 10) (6 / 10) true (c_a c)
                         else Builder.mkMeshStandardMaterial
                                (Builder.ColorRGB (c_r c) (c_g c) (c_b c))
                                (3 / 10) (6 / 10) false 1
                     | None => Builder.mkMeshStandardMaterial
                                 (Builder.ColorHex 0x888888) (3 / 10) (6 / 10) false 1
                     end
                 | None => Builder.mkMeshStandardMaterial
                             (Builder.ColorHex 0x888888) (3 / 10) (6 / 10) false 1
                 end).
  { unfold mat, named, Builder.getMaterial.
    destruct Hm as [-> | (n & _ & ->)]; [reflexivity|].
    destruct (JS.get (materials model) n) as [m|]; [|reflexivity].
    destruct (m_color m) as [c|]; [|reflexivity].
    now destruct (Rlt_dec (c_a c) 1). }
  split; [intros m; destruct Hm as [-> | (n & _ & ->)]; discriminate|].
  rewrite Hmat. clear Hmat.
  split; [|split; [|split]].
  - destruct named as [m|]; [|reflexivity].
    destruct (m_color m) as [c|]; [|reflexivity]. now destruct (Rlt_dec (c_a c) 1).
  - destruct named as [m|]; [|reflexivity].
    destruct (m_color m) as [c|]; [|reflexivity]. now destruct (Rlt_dec (c_a c) 1).
  - destruct named as [m|]; [intros ->|]; auto.
  - intros m c -> ->.
    unfold Rmin. destruct (Rlt_dec (c_a c) 1) as [Hlt | Hge]; cbn.
    + split; [reflexivity|]. split; [tauto|].
      destruct (Rle_dec (c_a c) 1); [reflexivity | lra].
    + split; [reflexivity|]. split; [split; [discriminate | contradiction]|].
      destruct (Rle_dec (c_a c) 1); [lra | reflexivity].
Qed.

Lemma forallb_updateNth {A} (p : A -> bool) (f : A -> A) (i : nat) (l : list A) :
  (forall x, p (f x) = p x) -> forallb p (Builder.updateNth i f l) = forallb p l.
Proof.
  intros H. revert i. induction l as [|x l IH]; intros [|i]; cbn; auto.
  - now rewrite H.
  - now rewrite IH.
Qed.

Lemma isStructural_mapObject f n :
  isStructural (Builder.mapObject f n) = isStructural n.
Proof. now destruct n. Qed.

Lemma structural_add parent child robot :
  forallb isStructural (Builder.objects (Builder.add parent child robot))
  = forallb isStructural (Builder.objects robot).
Proof.
  cbn [Builder.add Builder.objects]. apply forallb_updateNth.
  intros n. apply isStructural_mapObject.
Qed.

Section NoDebug.

Variable model : RobotModel.
Variable jointRadius : R.
Variables jointColor linkColor : N.
Variable jointsByParent : JS.Map (list Joint).

(** Without [showDebug] a call of [buildLink] makes groups and joint
    objects only. *)
Lemma structural_buildLink fuel :
  forall linkName parentObject robot robot',
    forallb isStructural (Builder.objects robot) = true ->
    Builder.buildLink model jointRadius jointColor linkColor false jointsByParent
                      fuel linkName parentObject robot = Some robot' ->
    forallb isStructural (Builder.objects robot') = true.
Proof.
  induction fuel as [|fuel IH]; intros linkName parentObject robot robot' H;
    cbn [Builder.buildLink]; [discriminate|].
  destruct (JS.get (links model) linkName); [|now intros [= <-]].
  unfold Builder.createLinkGroup. cbn [Builder.alloc].
  apply forEach_invariant
    with (P := fun s => forallb isStructural (Builder.objects s) = true).
  - intros s jointData s' _ Hs. unfold Builder.createJointObject. cbn [Builder.alloc].
    apply IH. cbn [Builder.setJoint Builder.objects Builder.add].
    rewrite forallb_updateNth by (intros n; apply isStructural_mapObject).
    rewrite forallb_app, Hs. reflexivity.
  - cbn [Builder.setLink Builder.objects Builder.add].
    rewrite forallb_updateNth by (intros n; apply isStructural_mapObject).
    rewrite forallb_app, H. reflexivity.
Qed.

End NoDebug.

Lemma buildRobotStructure_structural fuel model options robot :
  Builder.buildRobotStructure fuel model options = Some robot ->
  Builder.showDebug options = Some false ->
  forallb isStructural (Builder.objects robot) = true.
Proof.
  intros (group & _ & _ & _ & _ & H)%buildRobotStructure_cases Hd.
  cbv zeta in H. rewrite Hd in H. cbn [Builder.getOr] in H.
  destruct H as [[_ ->] | (root & _ & _ & H)]; [reflexivity|].
  now apply structural_buildLink in H.
Qed.

Lemma In_meshRequests model robot request :
  In request (Builder.meshRequests model robot)
  <-> exists link scale,
      In (Builder.requestLink request, link) (links model)
      /\ JS.get (Builder.links robot) (Builder.requestLink request)
         = Some (Builder.requestGroup request)
      /\ In (Builder.requestVisual request) (visuals link)
      /\ v_geometry (Builder.requestVisual request)
         = MeshGeometry (Builder.meshFilename request) scale
      /\ Builder.meshFilename request <> "".
Proof.
  unfold Builder.meshRequests. rewrite in_flat_map. split.
  - intros ([linkName link] & Hentry & Hin).
    destruct (JS.get (Builder.links robot) linkName) as [linkGroup|] eqn:Hg; [|destruct Hin].
    apply in_flat_map in Hin as (visual & Hvisual & Hin).
    destruct (v_geometry visual) as [| | |filename scale|] eqn:Hgeo; try destruct Hin.
    destruct (JS.truthy filename) eqn:Ht; [|destruct Hin].
    destruct Hin as [<- | []]. cbn.
    exists link, scale. repeat split; auto. now apply truthy_true.
  - intros (link & scale & Hentry & Hg & Hvisual & Hgeo & Hne).
    exists (Builder.requestLink request, link). split; [assumption|].
    rewrite Hg. apply in_flat_map. exists (Builder.requestVisual request).
    split; [assumption|]. rewrite Hgeo.
    apply truthy_true in Hne. rewrite Hne. left. now destruct request.
Qed.

Lemma visualRequests_filter (k k' : string) (g : Builder.ObjectId) (vs : list Visual) :
  filter (fun request => Builder.requestLink request =? k')
         (flat_map
            (fun visual =>
               match v_geometry visual with
               | MeshGeometry meshFilename _ =>
                   if JS.truthy meshFilename
                   then [Builder.mkMeshRequest meshFilename k g visual]
                   else []
               | _ => []
               end) vs)
  = if k =? k'
    then flat_map
           (fun visual =>
              match v_geometry visual with
              | MeshGeometry meshFilename _ =>
                  if JS.truthy meshFilename
                  then [Builder.mkMeshRequest meshFilename k g visual]
                  else []
              | _ => []
              end) vs
    else [].
Proof.
  induction vs as [|visual vs IH]; cbn [flat_map].
  - now destruct (k =? k').
  - rewrite filter_app, IH.
    destruct (v_geometry visual) as [| | |meshFilename scale|];
      cbn [filter app]; try reflexivity.
    destruct (JS.truthy meshFilename); cbn [filter app Builder.requestLink];
      now destruct (k =? k').
Qed.

Lemma visualRequests_visuals (k : string) (g : Builder.ObjectId) (vs : list Visual) :
  map Builder.requestVisual
      (flat_map
         (fun visual =>
            match v_geometry visual with
            | MeshGeometry meshFilename _ =>
                if JS.truthy meshFilename
                then [Builder.mkMeshRequest meshFilename k g visual]
                else []
            | _ => []
            end) vs)
  = filter hasMeshFile vs.
Proof.
  induction vs as [|visual vs IH]; cbn [flat_map filter]; [reflexivity|].
  rewrite map_app, IH. unfold hasMeshFile at 2.
  destruct (v_geometry visual) as [| | |meshFilename scale|]; try reflexivity.
  now destruct (JS.truthy meshFilename).
Qed.

(** The requests for one link, among those for a list of entries with
    distinct names. *)
Lemma linkRequests_exact (robot : Builder.URDFRobot) (entries : list (string * Link))
      (k : string) :
  NoDup (map fst entries) ->
  map Builder.requestVisual
      (filter (fun request => Builder.requestLink request =? k)
              (Builder.meshRequests
                 (mkRobotModel "" [] entries [] None) robot))
  = match JS.get (Builder.links robot) k with
    | Some _ => flat_map (fun entry : string * Link =>
                            if fst entry =? k
                            then filter hasMeshFile (visuals (snd entry))
                            else [])
                         entries
    | None => []
    end.
Proof.
  unfold Builder.meshRequests. cbn [links].
  induction entries as [|[k0 l0] entries IH]; intros Hnodup.
  - cbn. now destruct (JS.get (Builder.links robot) k).
  - inversion Hnodup as [|? ? Hnotin Hrest]; subst.
    cbn [flat_map fst snd]. rewrite filter_app, map_app, (IH Hrest).
    destruct (String.eqb_spec k0 k) as [-> | Hne].
    + destruct (JS.get (Builder.links robot) k) as [g|]; [|reflexivity].
      now rewrite visualRequests_filter, String.eqb_refl, visualRequests_visuals.
    + destruct (JS.get (Builder.links robot) k0) as [g0|].
      * rewrite visualRequests_filter.
        apply String.eqb_neq in Hne. rewrite Hne. reflexivity.
      * reflexivity.
Qed.

Lemma visuals_of_absent (entries : list (string * Link)) (k : string) :
  ~ In k (map fst entries) ->
  flat_map (fun entry : string * Link =>
              if fst entry =? k then filter hasMeshFile (visuals (snd entry)) else [])
           entries
  = [].
Proof.
  induction entries as [|[k1 l1] entries IH]; intros Hnotin; [reflexivity|].
  cbn [flat_map fst snd].
  destruct (String.eqb_spec k1 k) as [-> | _].
  - exfalso. apply Hnotin. now left.
  - apply IH. intros H. apply Hnotin. now right.
Qed.

Lemma visuals_of_entry (entries : list (string * Link)) (k : string) (link : Link) :
  NoDup (map fst entries) -> In (k, link) entries ->
  flat_map (fun entry : string * Link =>
              if fst entry =? k then filter hasMeshFile (visuals (snd entry)) else [])
           entries
  = filter hasMeshFile (visuals link).
Proof.
  induction entries as [|[k0 l0] entries IH]; intros Hnodup Hin; [destruct Hin|].
  inversion Hnodup as [|? ? Hnotin Hrest]; subst. cbn [flat_map fst snd].
  destruct Hin as [E | Hin].
  - injection E as -> ->. rewrite String.eqb_refl.
    rewrite (visuals_of_absent entries k Hnotin). apply app_nil_r.
  - destruct (String.eqb_spec k0 k) as [-> | _].
    + exfalso. apply Hnotin. apply in_map_iff. now exists (k, link).
    + cbn [app]. now apply IH.
Qed.

(** X19. What [loadRobot] asks the loader for.  It builds the robot
    without debug objects unless [showDebug] is set (the scene then
    holds groups and joint objects only) and makes one request for
    every visual with a mesh geometry and a non-empty file name, of
    every link of the model that the build came to: the mesh is to hang
    under the group of that link.  The requests made for a link are, in
    their order and each once, the visuals of the link that have a mesh
    with a file name.  Nothing is requested for a box, a cylinder, a
    sphere or a capsule, for a mesh without a file name, for a
    collision, or for a link the build did not come to. *)
Theorem loadRobot_requests_the_meshes :
  forall (fuel : nat) (model : RobotModel) (options : Builder.BuildRobotOptions)
         (robot : Builder.URDFRobot) (requests : list Builder.MeshRequest),
    Builder.loadRobot fuel model options = Some (robot, requests) ->
    (forall request,
        In request requests ->
        reachedLink model (Builder.requestLink request)
        /\ JS.get (Builder.links robot) (Builder.requestLink request)
           = Some (Builder.requestGroup request)
        /\ (exists o, nth_error (Builder.objects robot) (Builder.requestGroup request)
                      = Some (Builder.GroupNode o)
                      /\ Builder.name o = "link_" ++ Builder.requestLink request)
        /\ (exists link, In (Builder.requestLink request, link) (links model)
                         /\ In (Builder.requestVisual request) (visuals link))
        /\ (exists scale, v_geometry (Builder.requestVisual request)
                          = MeshGeometry (Builder.meshFilename request) scale)
        /\ Builder.meshFilename request <> "")
    /\ (forall k link visual filename scale,
           In (k, link) (links model) -> reachedLink model k ->
           In visual (visuals link) ->
           v_geometry visual = MeshGeometry filename scale -> filename <> "" ->
           exists group, In (Builder.mkMeshRequest filename k group visual) requests)
    /\ (Builder.showDebug options <> Some true ->
        forall id n, nth_error (Builder.objects robot) id = Some n ->
                     isStructural n = true)
    /\ (NoDup (JS.keys (links model)) ->
        forall k link,
          In (k, link) (links model) -> reachedLink model k ->
          map Builder.requestVisual
              (filter (fun request => Builder.requestLink request =? k) requests)
          = filter hasMeshFile (visuals link)).
Proof.
  intros fuel model options robot requests. unfold Builder.loadRobot.
  destruct (Builder.buildRobotStructure _ _ _) as [robot0|] eqn:Hbuild; [|discriminate].
  intros [= <- <-].
  destruct (buildRobotStructure_mapsAgree _ _ _ _ Hbuild) as [HL _].
  destruct (buildRobotStructure_reached _ _ _ _ Hbuild) as [HR _].
  split; [|split; [|split]].
  - intros request (link & scale & Hentry & Hg & Hvisual & Hgeo & Hne)%In_meshRequests.
    destruct (HL _ _ Hg) as (_ & o & Ho & Hname).
    split; [apply HR; congruence|]. split; [assumption|].
    split; [now exists o|]. split; [now exists link|]. split; [now exists scale | assumption].
  - intros k link visual filename scale Hentry Hreached Hvisual Hgeo Hne.
    apply HR in Hreached.
    destruct (JS.get (Builder.links robot0) k) as [group|] eqn:Hg; [|contradiction].
    exists group. apply In_meshRequests. exists link, scale. cbn. auto.
  - intros Hdebug id n Hn.
    assert (Hs : forallb isStructural (Builder.objects robot0) = true).
    { apply (buildRobotStructure_structural _ _ _ _ Hbuild). cbn.
      destruct (Builder.showDebug options) as [[|]|]; cbn; congruence. }
    rewrite forallb_forall in Hs. apply Hs. now apply nth_error_In with id.
  - intros Hnodup k link Hentry Hreached. apply HR in Hreached.
    change (Builder.meshRequests model robot0)
      with (Builder.meshRequests (mkRobotModel "" [] (links model) [] None) robot0).
    rewrite (linkRequests_exact robot0 (links model) k Hnodup).
    destruct (JS.get (Builder.links robot0) k) as [group|]; [|contradiction].
    now apply visuals_of_entry.
Qed.

(** ** File names left as they are *)




(** ** When the build returns *)

(** X21. [jointsByParent] lists, under every link name, the joints of
    the model whose parent is that link, each once, in the order of the
    joints of the model; under any other name it lists nothing. *)
Theorem jointsByParent_groups_the_joints :
  forall (model : RobotModel) (linkName : string),
    Builder.childJointsOf (Builder.indexByParent model) linkName
    = filter (fun j => parent j =? linkName) (JS.values (joints model))
    /\ (forall j, In j (Builder.childJointsOf (Builder.indexByParent model) linkName)
                  <-> In j (JS.values (joints model)) /\ parent j = linkName)
    /\ ((forall j, In j (JS.values (joints model)) -> parent j <> linkName) ->
        JS.get (Builder.indexByParent model) linkName = None).
Proof.
  intros model linkName.
  pose proof (childJointsOf_indexByParent model linkName) as E. unfold jointsFrom in E.
  split; [exact E|]. split.
  - intros j. rewrite E. apply In_jointsFrom.
  - intros Hnone.
    destruct (JS.get (Builder.indexByParent model) linkName) as [l|] eqn:Hget;
      [|reflexivity].
    exfalso.
    assert (G : forall js acc,
               (forall k l, JS.get acc k = Some l -> l <> []) ->
               forall k l,
                 JS.get
                   (fold_left
                      (fun jointsByParent joint =>
                         JS.set jointsByParent (parent joint)
                                (match JS.get jointsByParent (parent joint) with
                                 | Some l => l
                                 | None => []
                                 end ++ [joint])%list)
                      js acc) k = Some l -> l <> []).
    { induction js as [|j0 js IH]; intros acc Hacc k l0; cbn [fold_left].
      - apply Hacc.
      - apply IH. intros k' l'. rewrite get_set.
        destruct (parent j0 =? k'); [|apply Hacc].
        intros [= <-]. now destruct (match JS.get acc (parent j0) with
                                     | Some l1 => l1 | None => [] end). }
    assert (Hne : l <> []).
    { apply (G (JS.values (joints model)) [] ltac:(intros k l0; discriminate) linkName).
      exact Hget. }
    unfold Builder.childJointsOf in E. rewrite Hget in E.
    destruct l as [|j l]; [contradiction|].
    assert (Hin : In j (filter (fun j => parent j =? linkName) (JS.values (joints model))))
      by (rewrite <- E; now left).
    apply filter_In in Hin as [Hin Hp]. apply String.eqb_eq in Hp.
    now apply (Hnone j).
Qed.

Section Cycles.

Variable model : RobotModel.
Variable jointRadius : R.
Variables jointColor linkColor : N.
Variable showDebug : bool.
Variable jointsByParent : JS.Map (list Joint).

Hypothesis jointsByParent_index :
  forall linkName, Builder.childJointsOf jointsByParent linkName = jointsFrom model linkName.

Let buildLink := Builder.buildLink model jointRadius jointColor linkColor
                                   showDebug jointsByParent.

(** No call that comes to a link on a cycle returns. *)
Lemma buildLink_cycle linkName :
  onCycle model linkName ->
  forall fuel start parentObject robot,
    visits model start linkName ->
    buildLink fuel start parentObject robot = None.
Proof.
  intros (Hlink & j0 & Hj0 & Hp0 & Hback) fuel.
  induction fuel as [|fuel IH]; intros start parentObject robot Hv; [reflexivity|].
  assert (Hstep : forall a j, JS.get (links model) a <> None ->
                              In j (JS.values (joints model)) -> parent j = a ->
                              visits model (child j) linkName ->
                              buildLink (S fuel) a parentObject robot = None).
  { intros a j Ha Hj Hp Hvj.
    destruct (JS.get (links model) a) as [link|] eqn:E; [|contradiction].
    apply (buildLink_stuck_child model jointRadius jointColor linkColor showDebug
                                 jointsByParent fuel a parentObject robot link j E).
    - rewrite jointsByParent_index. now apply In_jointsFrom.
    - intros p r. now apply IH. }
  destruct Hv as [n | n j t Hn Hj Hp Hv].
  - now apply Hstep with j0.
  - now apply Hstep with j.
Qed.

Lemma buildLink_S fuel linkName parentObject robot :
  buildLink (S fuel) linkName parentObject robot =
  match JS.get (links model) linkName with
  | None => Some robot
  | Some _ =>
      let (linkGroup, robot) :=
        Builder.createLinkGroup jointRadius jointColor showDebug
                                linkName parentObject robot in
      Builder.forEach (Builder.childJointsOf jointsByParent linkName)
        (fun robot jointData =>
           let (jointObject, robot) :=
             Builder.createJointObject linkColor showDebug linkGroup jointData robot in
           buildLink fuel (child jointData) jointObject robot)
        robot
  end.
Proof. reflexivity. Qed.

(** More fuel does not change what a call returns. *)
Lemma buildLink_more_fuel fuel :
  forall linkName parentObject robot robot',
    buildLink fuel linkName parentObject robot = Some robot' ->
    buildLink (S fuel) linkName parentObject robot = Some robot'.
Proof.
  induction fuel as [|fuel IH]; intros linkName parentObject robot robot';
    [discriminate|].
  rewrite (buildLink_S (S fuel)), (buildLink_S fuel).
  destruct (JS.get (links model) linkName); [|auto].
  destruct (Builder.createLinkGroup _ _ _ _ _ _) as [linkGroup robot1].
  generalize robot1. clear robot1.
  induction (Builder.childJointsOf jointsByParent linkName) as [|jointData rest IHl];
    intros robot1; cbn [Builder.forEach]; [auto|].
  destruct (Builder.createJointObject _ _ _ _ _) as [jointObject robot2].
  destruct (buildLink fuel (child jointData) jointObject robot2) as [robot3|] eqn:E3;
    [|discriminate].
  rewrite (IH _ _ _ _ E3). apply IHl.
Qed.

End Cycles.

(** X22. A cycle of the model that the build comes to keeps it from
    returning: when a link reached from the root link lies on a cycle
    of joints, [buildRobotStructure], [buildRobot] and [loadRobot]
    return for no amount of fuel and no options (in JavaScript the
    recursion ends in a stack overflow). *)
Theorem build_never_returns_on_a_cycle :
  forall (model : RobotModel) (linkName : string),
    reachedLink model linkName -> onCycle model linkName ->
    forall fuel options,
      Builder.buildRobotStructure fuel model options = None
      /\ Builder.buildRobot fuel model options = None
      /\ Builder.loadRobot fuel model options = None.
Proof.
  intros model linkName (root & Hroot & Hne & Hv & _) Hcycle fuel.
  assert (H : forall options, Builder.buildRobotStructure fuel model options = None).
  { intros options. unfold Builder.buildRobotStructure. rewrite Hroot.
    apply truthy_true in Hne. rewrite Hne.
    now apply buildLink_cycle with linkName; [apply childJointsOf_indexByParent | |]. }
  intros options. split; [apply H|]. split; [apply H|].
  unfold Builder.loadRobot. now rewrite H.
Qed.

Lemma buildRobotStructure_more_fuel fuel model options robot :
  Builder.buildRobotStructure fuel model options = Some robot ->
  forall fuel', (fuel <= fuel')%nat ->
                Builder.buildRobotStructure fuel' model options = Some robot.
Proof.
  intros H fuel' Hle. induction Hle as [|fuel' Hle IH]; [exact H|].
  revert IH. unfold Builder.buildRobotStructure.
  destruct (rootLink model) as [root|]; [|auto].
  destruct (JS.truthy root); [|auto].
  apply buildLink_more_fuel.
Qed.

(** X23. On a model without cycles the build returns.  When the links
    can be ranked so that every joint leads from its parent to a child
    of lower rank, [buildRobotStructure] returns a robot as soon as the
    fuel exceeds the rank of the root link, and the same robot with any
    more fuel: the bound on the depth of the recursion is no part of
    the result. *)
Theorem build_returns_on_acyclic_models :
  forall (model : RobotModel) (options : Builder.BuildRobotOptions)
         (rank : string -> nat) (fuel : nat),
    (forall j, In j (JS.values (joints model)) ->
               (rank (child j) < rank (parent j))%nat) ->
    (forall root, rootLink model = Some root -> (rank root < fuel)%nat) ->
    exists robot,
      forall fuel', (fuel <= fuel')%nat ->
                    Builder.buildRobotStructure fuel' model options = Some robot.
Proof.
  intros model options rank fuel Hrank Hfuel.
  assert (H : exists robot, Builder.buildRobotStructure fuel model options = Some robot).
  { unfold Builder.buildRobotStructure.
    destruct (rootLink model) as [root|]; [|eexists; reflexivity].
    destruct (JS.truthy root); [|eexists; reflexivity].
    apply buildLink_returns_ranked with rank; [|now apply Hfuel].
    intros linkName jointData [Hin <-]%indexByParent_sound. now apply Hrank. }
  destruct H as [robot H]. exists robot.
  now apply buildRobotStructure_more_fuel.
Qed.

(** ** Debug objects *)

Lemma detached_sphere n' s radius color :
  detached n' = detached (Builder.SphereNode s radius color) ->
  exists s', n' = Builder.SphereNode s' radius color /\ Builder.name s' = Builder.name s.
Proof.
  destruct n' as [o' | o' r' c' | o' ? ? | j']; cbn; try discriminate.
  intros [= H1 H2 H3 -> ->]. now exists o'.
Qed.

Lemma detached_line n' l target color :
  detached n' = detached (Builder.LineNode l target color) ->
  exists l', n' = Builder.LineNode l' target color /\ Builder.name l' = Builder.name l.
Proof.
  destruct n' as [o' | o' ? ? | o' t' c' | j']; cbn; try discriminate.
  intros [= H1 H2 H3 -> ->]. now exists o'.
Qed.

Lemma grown_back robot robot' id n' :
  grown robot robot' ->
  (id < List.length (Builder.objects robot))%nat ->
  nth_error (Builder.objects robot') id = Some n' ->
  exists n, nth_error (Builder.objects robot) id = Some n /\ detached n' = detached n.
Proof.
  intros Hg Hlt Hn'.
  destruct (nth_error (Builder.objects robot) id) as [n|] eqn:E;
    [|apply nth_error_None in E; lia].
  destruct (Hg id n E) as (n1 & Hn1 & Hd). exists n. split; [reflexivity | congruence].
Qed.

(** What is marked stays marked when the scene grows by two objects,
    an object and its marker. *)
Lemma debugMarked_grown jointRadius jointColor linkColor robot robot' :
  debugMarked jointRadius jointColor linkColor robot ->
  grown robot robot' ->
  List.length (Builder.objects robot) <> 0%nat ->
  List.length (Builder.objects robot') = S (S (List.length (Builder.objects robot))) ->
  (forall o, nth_error (Builder.objects robot') (List.length (Builder.objects robot))
             = Some (Builder.GroupNode o) ->
             exists linkName s,
               Builder.name o = "link_" ++ linkName
               /\ nth_error (Builder.objects robot') (S (List.length (Builder.objects robot)))
                  = Some (Builder.SphereNode s jointRadius jointColor)
               /\ Builder.name s = "debug_sphere_" ++ linkName) ->
  (forall j, nth_error (Builder.objects robot') (List.length (Builder.objects robot))
             = Some (Builder.JointNode j) ->
             exists l,
               nth_error (Builder.objects robot') (S (List.length (Builder.objects robot)))
               = Some (Builder.LineNode l (xyz (origin (Builder.jointData j))) linkColor)
               /\ Builder.name l = "debug_line_" ++ j_name (Builder.jointData j)) ->
  (forall n, nth_error (Builder.objects robot') (S (List.length (Builder.objects robot)))
             = Some n -> isStructural n = false) ->
  debugMarked jointRadius jointColor linkColor robot'.
Proof.
  intros [HG HJ] Hg Hne Hlen Hnew1 Hnew2 Hmark.
  assert (Hcases : forall id n', nth_error (Builder.objects robot') id = Some n' ->
                                 (id < List.length (Builder.objects robot))%nat
                                 \/ id = List.length (Builder.objects robot)
                                 \/ id = S (List.length (Builder.objects robot))).
  { intros id n' H. assert (id < List.length (Builder.objects robot'))%nat
      by (apply nth_error_Some; congruence). lia. }
  split.
  - intros id o Hid Ho.
    destruct (Hcases id _ Ho) as [Hlt | [-> | ->]].
    + destruct (grown_back _ _ _ _ Hg Hlt Ho) as (n & Hn & Hd).
      symmetry in Hd. apply detached_group in Hd as (o0 & -> & Hname & _).
      destruct (HG id o0 Hid Hn) as (linkName & s & H1 & H2 & H3).
      destruct (Hg _ _ H2) as (n2 & Hn2 & (s' & -> & Hs')%detached_sphere).
      exists linkName, s'. repeat split; [congruence | assumption | congruence].
    + now apply Hnew1.
    + now apply Hmark in Ho.
  - intros id j Hj. unfold Builder.jointAt in Hj.
    destruct (nth_error (Builder.objects robot') id) as [[| | |j0]|] eqn:Hn';
      try discriminate.
    injection Hj as ->.
    destruct (Hcases id _ Hn') as [Hlt | [-> | ->]].
    + destruct (grown_back _ _ _ _ Hg Hlt Hn') as (n & Hn & Hd).
      symmetry in Hd. apply detached_joint in Hd as (j0 & -> & _ & _ & Hjd).
      destruct (HJ id j0) as (l & H2 & H3); [unfold Builder.jointAt; now rewrite Hn|].
      destruct (Hg _ _ H2) as (n2 & Hn2 & (l' & -> & Hl')%detached_line).
      exists l'. rewrite <- Hjd. split; [assumption | congruence].
    + now apply Hnew2.
    + now apply Hmark in Hn'.
Qed.

Lemma createLinkGroup_debug jointRadius jointColor linkName parentObject robot :
  let robot' := snd (Builder.createLinkGroup jointRadius jointColor true
                                             linkName parentObject robot) in
  List.length (Builder.objects robot') = S (S (List.length (Builder.objects robot)))
  /\ exists s, nth_error (Builder.objects robot') (S (List.length (Builder.objects robot)))
               = Some (Builder.SphereNode s jointRadius jointColor)
               /\ Builder.name s = "debug_sphere_" ++ linkName.
Proof.
  unfold Builder.createLinkGroup.
  set (group := Builder.GroupNode _).
  pose proof (length_alloc group robot) as L1.
  pose proof (alloc_fst group robot) as Eg.
  destruct (Builder.alloc group robot) as [linkGroup robot1].
  cbn [fst snd] in L1, Eg.
  set (robot3 := Builder.setLink linkName linkGroup
                                 (Builder.add parentObject linkGroup robot1)).
  assert (L3 : List.length (Builder.objects robot3) = S (List.length (Builder.objects robot)))
    by (rewrite <- L1; apply (length_add parentObject linkGroup robot1)).
  set (sphere := Builder.SphereNode _ _ _).
  pose proof (length_alloc sphere robot3) as L4.
  pose proof (alloc_fst sphere robot3) as Eg4.
  pose proof (alloc_nth sphere robot3) as N4.
  destruct (Builder.alloc sphere robot3) as [sphereId robot4].
  cbn [fst snd] in L4, Eg4, N4 |- *.
  split; [rewrite length_add; lia|].
  destruct (grown_add linkGroup sphereId robot4 _ _ N4)
    as (n & Hn & (s & -> & Hs)%detached_sphere).
  exists s. rewrite <- L3. split; [exact Hn | exact Hs].
Qed.

Lemma createJointObject_debug linkColor linkGroup jointData robot :
  let robot' := snd (Builder.createJointObject linkColor true linkGroup jointData robot) in
  List.length (Builder.objects robot') = S (S (List.length (Builder.objects robot)))
  /\ exists l, nth_error (Builder.objects robot') (S (List.length (Builder.objects robot)))
               = Some (Builder.LineNode l (xyz (origin jointData)) linkColor)
               /\ Builder.name l = "debug_line_" ++ j_name jointData.
Proof.
  unfold Builder.createJointObject.
  set (node := Builder.JointNode _).
  pose proof (length_alloc node robot) as L1.
  destruct (Builder.alloc node robot) as [jointObject robot1].
  cbn [fst snd] in L1.
  set (line := Builder.LineNode _ _ _).
  pose proof (length_alloc line robot1) as L2.
  pose proof (alloc_nth line robot1) as N2.
  destruct (Builder.alloc line robot1) as [lineId robot2].
  cbn [fst snd] in L2, N2 |- *.
  split.
  - cbn [Builder.setJoint Builder.objects].
    change (Builder.objects (Builder.add linkGroup jointObject
                                         (Builder.add linkGroup lineId robot2)))
      with (Builder.updateNth linkGroup
              (Builder.mapObject (fun o => Builder.withChild o jointObject))
              (Builder.objects (Builder.add linkGroup lineId robot2))).
    rewrite length_updateNth, length_add. lia.
  - destruct (grown_add linkGroup lineId robot2 _ _ N2) as (n & Hn & Hd).
    destruct (grown_add linkGroup jointObject (Builder.add linkGroup lineId robot2) _ _ Hn)
      as (n' & Hn' & Hd').
    rewrite Hd in Hd'. apply detached_line in Hd' as (l & -> & Hl).
    exists l. rewrite <- L1. split; [exact Hn' | exact Hl].
Qed.

Section DebugObjects.

Variable model : RobotModel.
Variable jointRadius : R.
Variables jointColor linkColor : N.
Variable jointsByParent : JS.Map (list Joint).

Let marked := debugMarked jointRadius jointColor linkColor.

Lemma debugMarked_createLinkGroup linkName parentObject robot :
  List.length (Builder.objects robot) <> 0%nat ->
  marked robot ->
  marked (snd (Builder.createLinkGroup jointRadius jointColor true
                                       linkName parentObject robot)).
Proof.
  intros Hne H.
  destruct (createLinkGroup_spec jointRadius jointColor true linkName parentObject robot)
    as (Hg & Hid & _ & _ & o & Ho & Hname).
  destruct (createLinkGroup_debug jointRadius jointColor linkName parentObject robot)
    as (Hlen & s & Hs & Hsname).
  cbv zeta in *. rewrite Hid in Ho.
  apply (debugMarked_grown _ _ _ robot); auto.
  - intros o' Ho'. assert (o' = o) by congruence. subst o'.
    exists linkName, s. auto.
  - intros j Hj. congruence.
  - intros n Hn. assert (n = Builder.SphereNode s jointRadius jointColor) by congruence.
    now subst n.
Qed.

Lemma debugMarked_createJointObject linkGroup jointData robot :
  List.length (Builder.objects robot) <> 0%nat ->
  marked robot ->
  marked (snd (Builder.createJointObject linkColor true linkGroup jointData robot)).
Proof.
  intros Hne H.
  destruct (createJointObject_spec linkColor true linkGroup jointData robot)
    as (Hg & Hid & _ & _ & j & Hat & Hdet).
  destruct (createJointObject_debug linkColor linkGroup jointData robot)
    as (Hlen & l & Hl & Hlname).
  cbv zeta in *. rewrite Hid in Hat.
  apply detached_joint in Hdet as (j' & [= <-] & _ & _ & Hjd). cbn in Hjd.
  unfold Builder.jointAt in Hat.
  destruct (nth_error _ (List.length (Builder.objects robot))) as [[| | |j0]|] eqn:E;
    try discriminate.
  injection Hat as ->.
  apply (debugMarked_grown _ _ _ robot); auto.
  - intros o Ho. congruence.
  - intros j' Hj'. assert (j' = j) by congruence. subst j'.
    exists l. rewrite Hjd. auto.
  - intros n Hn. assert (n = Builder.LineNode l (xyz (origin jointData)) linkColor)
      by congruence.
    now subst n.
Qed.

Lemma debugMarked_buildLink fuel :
  forall linkName parentObject robot robot',
    List.length (Builder.objects robot) <> 0%nat ->
    marked robot ->
    Builder.buildLink model jointRadius jointColor linkColor true jointsByParent
                      fuel linkName parentObject robot = Some robot' ->
    marked robot' /\ List.length (Builder.objects robot') <> 0%nat.
Proof.
  induction fuel as [|fuel IH]; intros linkName parentObject robot robot' Hne H;
    cbn [Builder.buildLink]; [discriminate|].
  destruct (JS.get (links model) linkName); [|intros [= <-]; auto].
  pose proof (debugMarked_createLinkGroup linkName parentObject robot Hne H) as H1.
  destruct (createLinkGroup_debug jointRadius jointColor linkName parentObject robot)
    as (L1 & _).
  destruct (Builder.createLinkGroup _ _ _ _ _ _) as [linkGroup robot1].
  cbn [snd] in H1, L1.
  apply forEach_invariant
    with (P := fun s => marked s /\ List.length (Builder.objects s) <> 0%nat);
    [|split; [assumption | lia]].
  intros s jointData s' _ [Hs Ls].
  pose proof (debugMarked_createJointObject linkGroup jointData s Ls Hs) as H2.
  destruct (createJointObject_debug linkColor linkGroup jointData s) as (L2 & _).
  destruct (Builder.createJointObject _ _ _ _ _) as [jointObject robot2].
  cbn [snd] in H2, L2.
  apply IH; [lia | assumption].
Qed.

End DebugObjects.

(** X24. [buildRobot] always draws the debug objects, whatever
    [showDebug] says: in the scene it returns every group of a link is
    followed by a sphere named [debug_sphere_<link>] with the radius and
    colour of the options (0.02 and 0xff0000 by default), and every
    joint object by a line named [debug_line_<joint>] that ends at
    the origin of the joint, in the colour of the options (0x00ff00 by
    default). *)
Theorem buildRobot_draws_the_debug_objects :
  forall (fuel : nat) (model : RobotModel) (options : Builder.BuildRobotOptions)
         (robot : Builder.URDFRobot),
    Builder.buildRobot fuel model options = Some robot ->
    (forall id o,
        id <> 0%nat ->
        nth_error (Builder.objects robot) id = Some (Builder.GroupNode o) ->
        exists linkName s,
          Builder.name o = "link_" ++ linkName
          /\ nth_error (Builder.objects robot) (S id)
             = Some (Builder.SphereNode
                       s (Builder.getOr (Builder.jointRadius options) (2 / 100))
                       (Builder.getOr (Builder.jointColor options) 0xff0000%N))
          /\ Builder.name s = "debug_sphere_" ++ linkName)
    /\ (forall id j,
           Builder.jointAt robot id = Some j ->
           exists l,
             nth_error (Builder.objects robot) (S id)
             = Some (Builder.LineNode
                       l (xyz (origin (Builder.jointData j)))
                       (Builder.getOr (Builder.linkColor options) 0x00ff00%N))
             /\ Builder.name l = "debug_line_" ++ j_name (Builder.jointData j)).
Proof.
  intros fuel model options robot. unfold Builder.buildRobot.
  intros (group & _ & _ & _ & _ & H)%buildRobotStructure_cases.
  cbv zeta in H. cbn [Builder.getOr Builder.showDebug Builder.jointRadius
                      Builder.jointColor Builder.linkColor] in H.
  set (jointRadius := Builder.getOr (Builder.jointRadius options) (2 / 100)) in *.
  set (jointColor := Builder.getOr (Builder.jointColor options) 0xff0000%N) in *.
  set (linkColor := Builder.getOr (Builder.linkColor options) 0x00ff00%N) in *.
  assert (H0 : debugMarked jointRadius jointColor linkColor
                           (Builder.mkURDFRobot [Builder.GroupNode group] [] [])).
  { split.
    - intros [|[|id]] o Hid; cbn; try discriminate. contradiction.
    - intros [|[|id]] j; cbn; discriminate. }
  change (debugMarked jointRadius jointColor linkColor robot).
  destruct H as [[_ ->] | (root & _ & _ & H)]; [exact H0|].
  apply debugMarked_buildLink in H; [tauto | cbn; lia | exact H0].
Qed.
(** ** The properties on the examples *)

Lemma robot_group_converts_to_Y_up_witness :
  exists group,
    nth_error (Builder.objects armRobot) 0 = Some (Builder.GroupNode group)
    /\ Builder.name group = "arm"
    /\ applyQuaternion (mkVector3 0 0 1) (Builder.quaternion group) = mkVector3 0 1 (- 0).
Proof.
  destruct (robot_group_converts_to_Y_up 3 (modelOf armDocument) plainOptions armRobot
                                         armRobot_built)
    as (group & H0 & Hname & _ & Hq & _).
  exists group. split; [exact H0|]. split; [exact Hname|].
  apply (Hq ltac:(discriminate) (mkVector3 0 0 1)).
Defined.

Lemma armRobot_maps :
  JS.get (Builder.joints armRobot) "lift" = Some 2%nat
  /\ JS.get (Builder.joints armRobot) "wrist" = Some 4%nat
  /\ List.length (Builder.objects armRobot) = 6%nat
  /\ childrenAt armRobot 2%nat = [3%nat].
Proof. lazy. repeat split. Qed.

Lemma built_maps_lead_to_their_objects_witness :
  exists j, Builder.jointAt armRobot 2%nat = Some j
            /\ Builder.jointName j = "lift" /\ Builder.jointValue j = 0.
Proof.
  destruct (built_maps_lead_to_their_objects 3 (modelOf armDocument) plainOptions armRobot
                                             armRobot_built) as (_ & HJ & HA).
  destruct (HJ "lift" 2%nat (proj1 armRobot_maps)) as (j & Hat & Hn & _).
  exists j. split; [exact Hat|]. split; [exact Hn|]. exact (proj1 (HA 2%nat j Hat)).
Defined.

Lemma armModel_facts :
  rootLink (modelOf armDocument) = Some "base"
  /\ map (fun j => (j_name j, parent j, child j)) (JS.values (joints (modelOf armDocument)))
     = [("lift", "base", "slide"); ("wrist", "slide", "hand")]
  /\ JS.keys (links (modelOf armDocument)) = ["base"; "slide"; "hand"; "spare"].
Proof. lazy. repeat split. Qed.

Lemma In_map_inv {A B} (f : A -> B) (l : list A) (y : B) :
  In y (map f l) -> exists x, In x l /\ f x = y.
Proof. intros (x & Hx & Hin)%in_map_iff. now exists x. Qed.

Lemma armModel_joint name parent child :
  In (name, parent, child) [("lift", "base", "slide"); ("wrist", "slide", "hand")] ->
  exists j, In j (JS.values (joints (modelOf armDocument)))
            /\ j_name j = name /\ Types.parent j = parent /\ Types.child j = child.
Proof.
  destruct armModel_facts as (_ & E & _). rewrite <- E.
  intros (j & Hj & Ej)%In_map_inv. injection Ej as E1 E2 E3.
  exists j. repeat split; assumption.
Qed.

Lemma armModel_link k :
  In k ["base"; "slide"; "hand"; "spare"] -> JS.get (links (modelOf armDocument)) k <> None.
Proof.
  destruct armModel_facts as (_ & _ & E). rewrite <- E. intros Hin H.
  now apply get_None_keys in H.
Qed.

Lemma armModel_reaches_hand : reachedLink (modelOf armDocument) "hand".
Proof.
  destruct (armModel_joint "lift" "base" "slide") as (lift & Hl & _ & Hlp & Hlc);
    [now left|].
  destruct (armModel_joint "wrist" "slide" "hand") as (wrist & Hw & _ & Hwp & Hwc);
    [right; now left|].
  exists "base". split; [apply armModel_facts|]. split; [discriminate|].
  split; [|apply armModel_link; do 2 right; now left].
  apply (visits_below _ "base" lift "hand");
    [apply armModel_link; now left | exact Hl | exact Hlp |].
  rewrite Hlc.
  apply (visits_below _ "slide" wrist "hand");
    [apply armModel_link; right; now left | exact Hw | exact Hwp |].
  rewrite Hwc. apply visits_here.
Qed.

Lemma built_links_are_the_reached_links_witness :
  JS.get (Builder.links armRobot) "hand" <> None.
Proof.
  apply (proj1 (built_links_are_the_reached_links 3 (modelOf armDocument) plainOptions
                                                  armRobot armRobot_built) "hand").
  exact armModel_reaches_hand.
Defined.

Lemma built_scene_is_a_tree_witness :
  exists p, In 5%nat (childrenAt armRobot p)
            /\ forall p', In 5%nat (childrenAt armRobot p') -> p' = p.
Proof.
  apply (built_scene_is_a_tree 3 (modelOf armDocument) plainOptions armRobot
                               armRobot_built).
  destruct armRobot_maps as (_ & _ & -> & _). lia.
Defined.

Lemma built_scene_follows_the_joints_witness :
  exists parentNode childNode,
    nth_error (Builder.objects armRobot) 2%nat = Some parentNode
    /\ nth_error (Builder.objects armRobot) 3%nat = Some childNode
    /\ hangs (modelOf armDocument) 2%nat parentNode childNode.
Proof.
  apply (built_scene_follows_the_joints 3 (modelOf armDocument) plainOptions armRobot
                                        armRobot_built).
  destruct armRobot_maps as (_ & _ & _ & ->). now left.
Defined.

Lemma parseDecimal_zero : parseDecimal "0" = 0.
Proof. unfold parseDecimal; simpl. field. Qed.

Lemma armRobot_wrist_axis :
  option_map (fun n => axis (Builder.jointData n)) (Builder.jointAt armRobot 4%nat)
  = Some (Some (mkJointAxis (mkVector3 (parseDecimal "1") (parseDecimal "0")
                                       (parseDecimal "0")))).
Proof. lazy. reflexivity. Qed.

Lemma built_joint_axis_witness :
  exists n, Builder.jointAt armRobot 4%nat = Some n /\ lengthSq (Builder.axis n) = 1.
Proof.
  pose proof armRobot_wrist_axis as Hax.
  destruct (Builder.jointAt armRobot 4%nat) as [n|] eqn:E; [|discriminate Hax].
  injection Hax as Hax.
  exists n. split; [reflexivity|].
  refine (proj1 (proj1 (proj2 (built_joint_axis 3 (modelOf armDocument) plainOptions
                                                armRobot 4%nat n armRobot_built E))
                       _ Hax _)).
  unfold lengthSq; cbn [a_xyz vx vy vz].
  rewrite (proj1 parseDecimal_one), parseDecimal_zero. lra.
Defined.

Lemma parsed_model_is_well_formed_witness :
  NoDup (JS.keys (links (modelOf armDocument)))
  /\ name (modelOf armDocument) <> ""
  /\ JS.get (links (modelOf armDocument)) "base" <> None.
Proof.
  destruct (parsed_model_is_well_formed parseDecimal armDocument noOptions
                                        (modelOf armDocument) armDocument_parses)
    as (_ & HL & _ & _ & _ & _ & Hname & Hroot).
  split; [exact HL|]. split; [exact Hname|].
  exact (proj2 (Hroot "base" (proj1 armModel_facts))).
Defined.

Lemma parseURDF_duplicate_names_witness :
  JS.keys (links (modelOf duplicateDocument)) = ["A"; "B"]
  /\ JS.get (links (modelOf duplicateDocument)) "A"
     = Some (mkLink "A" None
                    [mkVisual None zeroPose (MeshGeometry "a.stl" None) None] [] None).
Proof.
  pose proof (parseURDF_duplicate_names
                parseDecimal duplicateDocument noOptions (modelOf duplicateDocument)
                [mkLink "A" None [] [] None; mkLink "B" None [] [] None;
                 mkLink "A" None
                        [mkVisual None zeroPose (MeshGeometry "a.stl" None) None] [] None]
                [] [] eq_refl) as H.
  destruct H as (Hkeys & _ & _ & Hlast & _).
  - repeat constructor.
  - constructor.
  - constructor.
  - split; [exact Hkeys|].
    apply (Hlast [mkLink "A" None [] [] None; mkLink "B" None [] [] None]
                 (mkLink "A" None
                         [mkVisual None zeroPose (MeshGeometry "a.stl" None) None] [] None)
                 []);
      [reflexivity | intros l' []].
Defined.

Lemma parseURDF_fails_on_missing_parts_witness :
  exists msg, parseURDF parseDecimal untypedDocument noOptions = Throw msg.
Proof.
  apply (proj1 (parseURDF_fails_on_missing_parts parseDecimal untypedDocument noOptions)).
  do 4 right.
  exists (element [("name", "j")]
                  [("parent", element [("link", "A")] []);
                   ("child", element [("link", "B")] [])]).
  split; [now left | right; now left].
Defined.

Lemma parseURDF_fails_on_bad_rpy_or_scale_witness :
  exists msg, parseURDF parseDecimal shortRpyDocument noOptions = Throw msg.
Proof.
  apply (parseURDF_fails_on_bad_rpy_or_scale parseDecimal shortRpyDocument noOptions).
  left. exists (element [("rpy", "0 0")] []), "0 0".
  split; [now left|]. split; [reflexivity|]. split; discriminate.
Defined.

Lemma armBase_facts :
  JS.get (links (modelOf armDocument)) "base" = Some armBase
  /\ visuals armBase = [armBaseVisual]
  /\ v_geometry armBaseVisual = MeshGeometry "package://arm/base.stl" None
  /\ v_material armBaseVisual = Some (MaterialName "steel").
Proof. lazy. repeat split. Qed.

Lemma mesh_material_of_a_parsed_visual_witness :
  Builder.metalness (Builder.getMaterial armBaseVisual (materials (modelOf armDocument)))
  = 3 / 10
  /\ forall m, v_material armBaseVisual <> Some (MaterialInline m).
Proof.
  destruct armBase_facts as (Hbase & Hvisuals & _).
  destruct (mesh_material_of_a_parsed_visual
              parseDecimal armDocument noOptions (modelOf armDocument)
              "base" armBase armBaseVisual armDocument_parses Hbase)
    as (Hinline & Hmetal & _).
  - rewrite Hvisuals. now left.
  - split; [exact Hmetal | exact Hinline].
Defined.

Lemma armRobot_loaded :
  Builder.loadRobot 3 (modelOf armDocument) plainOptions
  = Some (armRobot, Builder.meshRequests (modelOf armDocument) armRobot).
Proof.
  unfold Builder.loadRobot. cbn [Builder.showDebug plainOptions Builder.getOr
                                 Builder.jointRadius Builder.jointColor
                                 Builder.linkColor Builder.convertToYUp].
  fold plainOptions. now rewrite armRobot_built.
Qed.

Lemma loadRobot_requests_the_meshes_witness :
  map Builder.requestVisual
      (filter (fun request => Builder.requestLink request =? "base")
              (Builder.meshRequests (modelOf armDocument) armRobot))
  = [armBaseVisual].
Proof.
  destruct armBase_facts as (Hbase & Hvisuals & Hgeo & _).
  destruct armModel_facts as (_ & _ & Hkeys).
  assert (Hnodup : NoDup (JS.keys (links (modelOf armDocument)))).
  { rewrite Hkeys. repeat constructor; cbn [In]; intuition discriminate. }
  assert (Hreached : reachedLink (modelOf armDocument) "base").
  { exists "base". split; [apply armModel_facts|]. split; [discriminate|].
    split; [apply visits_here | apply armModel_link; now left]. }
  rewrite (proj2 (proj2 (proj2 (loadRobot_requests_the_meshes
                                  3 (modelOf armDocument) plainOptions armRobot _
                                  armRobot_loaded)))
                 Hnodup "base" armBase (get_Some_In _ _ _ Hbase) Hreached).
  rewrite Hvisuals. cbn [filter]. unfold hasMeshFile. rewrite Hgeo. reflexivity.
Defined.

Lemma cycleModel_facts :
  rootLink (modelOf cycleDocument) = Some "R"
  /\ map (fun j => (parent j, child j)) (JS.values (joints (modelOf cycleDocument)))
     = [("R", "A"); ("A", "A")]
  /\ JS.keys (links (modelOf cycleDocument)) = ["R"; "A"].
Proof. lazy. repeat split. Qed.

Lemma build_never_returns_on_a_cycle_witness :
  Builder.buildRobot 5 (modelOf cycleDocument) plainOptions = None.
Proof.
  destruct cycleModel_facts as (Hroot & Hjoints & Hkeys).
  assert (Hlink : forall k, In k ["R"; "A"] ->
                            JS.get (links (modelOf cycleDocument)) k <> None).
  { rewrite <- Hkeys. intros k Hin H. now apply get_None_keys in H. }
  assert (Hjoint : forall p c, In (p, c) [("R", "A"); ("A", "A")] ->
                               exists j, In j (JS.values (joints (modelOf cycleDocument)))
                                         /\ parent j = p /\ child j = c).
  { rewrite <- Hjoints. intros p c (j & Hj & E)%In_map_inv. injection E as E1 E2.
    exists j. repeat split; assumption. }
  destruct (Hjoint "R" "A") as (j1 & H1 & Hp1 & Hc1); [now left|].
  destruct (Hjoint "A" "A") as (j2 & H2 & Hp2 & Hc2); [right; now left|].
  apply (build_never_returns_on_a_cycle (modelOf cycleDocument) "A").
  - exists "R". split; [exact Hroot|]. split; [discriminate|].
    split; [|apply Hlink; right; now left].
    apply (visits_below _ "R" j1 "A"); [apply Hlink; now left | exact H1 | exact Hp1 |].
    rewrite Hc1. apply visits_here.
  - split; [apply Hlink; right; now left|].
    exists j2. split; [exact H2|]. split; [exact Hp2|]. rewrite Hc2. apply visits_here.
Defined.

Lemma diamondModel_facts :
  rootLink (modelOf diamondDocument) = Some "R"
  /\ map (fun j => (parent j, child j)) (JS.values (joints (modelOf diamondDocument)))
     = [("R", "A"); ("R", "B"); ("A", "D"); ("B", "D")].
Proof. lazy. repeat split. Qed.

Lemma build_returns_on_acyclic_models_witness :
  exists robot,
    forall fuel', (3 <= fuel')%nat ->
                  Builder.buildRobotStructure fuel' (modelOf diamondDocument) plainOptions
                  = Some robot.
Proof.
  destruct diamondModel_facts as (Hroot & Hjoints).
  apply (build_returns_on_acyclic_models (modelOf diamondDocument) plainOptions
                                         diamondRank 3).
  - intros j Hj.
    apply (in_map (fun j => (parent j, child j))) in Hj. rewrite Hjoints in Hj.
    destruct Hj as [E | [E | [E | [E | []]]]]; injection E as <- <-; cbn; lia.
  - intros root. rewrite Hroot. intros [= <-]. cbn. lia.
Defined.

Lemma armDebugRobot_built :
  Builder.buildRobot 3 (modelOf armDocument) plainOptions = Some armDebugRobot.
Proof.
  unfold armDebugRobot.
  assert (H : option_map (fun _ => tt)
                         (Builder.buildRobot 3 (modelOf armDocument) plainOptions)
              = Some tt) by (lazy; reflexivity).
  destruct (Builder.buildRobot 3 (modelOf armDocument) plainOptions);
    [reflexivity | discriminate H].
Qed.

Lemma armDebugRobot_lift :
  option_map (fun j => j_name (Builder.jointData j)) (Builder.jointAt armDebugRobot 3%nat)
  = Some "lift".
Proof. lazy. reflexivity. Qed.

Lemma buildRobot_draws_the_debug_objects_witness :
  exists j l,
    Builder.jointAt armDebugRobot 3%nat = Some j
    /\ nth_error (Builder.objects armDebugRobot) 4%nat
       = Some (Builder.LineNode l (xyz (origin (Builder.jointData j))) 0x00ff00%N)
    /\ Builder.name l = "debug_line_" ++ j_name (Builder.jointData j).
Proof.
  pose proof armDebugRobot_lift as Hj.
  destruct (Builder.jointAt armDebugRobot 3%nat) as [j|] eqn:E; [|discriminate Hj].
  destruct (proj2 (buildRobot_draws_the_debug_objects
                     3 (modelOf armDocument) plainOptions armDebugRobot
                     armDebugRobot_built) 3%nat j E) as (l & Hl & Hname).
  exists j, l. split; [reflexivity|]. split; [exact Hl | exact Hname].
Defined.

(** ** The mesh of a visual *)

(** The rotation of an origin, as the builder computes it from roll,
    pitch and yaw: about the fixed X axis, then Y, then Z. *)
Lemma rpyToEuler_rotation (rpy : RPY) (v : Vector3) :
  applyQuaternion v (setFromEuler (Builder.rpyToEuler rpy))
  = rotZ (y rpy) (rotY (p rpy) (rotX (r rpy) v)).
Proof.
  destruct lengthSq_unit as (HX & HY & HZ).
  unfold Builder.rpyToEuler. rewrite setFromEuler_ZYX.
  rewrite applyQuaternion_multiply.
  - rewrite applyQuaternion_multiply by (apply qLengthSq_setFromAxisAngle; assumption).
    rewrite !setFromAxisAngle_rotAxis by assumption.
    now rewrite rotAxis_X, rotAxis_Y, rotAxis_Z.
  - now apply qLengthSq_setFromAxisAngle.
  - rewrite qLengthSq_multiply, !qLengthSq_setFromAxisAngle by assumption. ring.
Qed.

(** X25. The mesh [loadRobot] makes for a visual sits at the origin of
    the visual, turned as its roll, pitch and yaw say in the same
    fixed-axis convention as the joints (about X first, then Y, then
    Z); it has the scale of the mesh geometry, or [(1, 1, 1)] when the
    geometry gives none; it is called [visual_<link>_<name>], with
    "mesh" for a visual without a name; its material is the one
    [getMaterial] finds. *)
Theorem mesh_of_a_visual :
  forall (model : RobotModel) (linkName : string) (visual : Visual),
    let mesh := Builder.newMesh model linkName visual in
    let object := Builder.meshObject mesh in
    Builder.position object = xyz (v_origin visual)
    /\ (forall v, applyQuaternion v (Builder.quaternion object)
                  = rotZ (y (rpy (v_origin visual)))
                         (rotY (p (rpy (v_origin visual)))
                               (rotX (r (rpy (v_origin visual))) v)))
    /\ qLengthSq (Builder.quaternion object) = 1
    /\ (forall filename scale, v_geometry visual = MeshGeometry filename (Some scale) ->
                               Builder.meshScale mesh = scale)
    /\ (forall filename, v_geometry visual = MeshGeometry filename None ->
                         Builder.meshScale mesh = mkVector3 1 1 1)
    /\ (forall n, v_name visual = Some n -> n <> "" ->
                  Builder.name object = "visual_" ++ linkName ++ "_" ++ n)
    /\ (v_name visual = None ->
        Builder.name object = "visual_" ++ linkName ++ "_mesh")
    /\ Builder.meshMaterial mesh = Builder.getMaterial visual (materials model).
Proof.
  intros model linkName visual mesh object.
  split; [reflexivity|]. split; [intros v; apply rpyToEuler_rotation|].
  split; [apply qLengthSq_setFromEuler|].
  split; [intros filename scale H; unfold mesh, Builder.newMesh; now rewrite H|].
  split; [intros filename H; unfold mesh, Builder.newMesh; now rewrite H|].
  split; [|split; [|reflexivity]].
  - intros n Hn Hne%truthy_true. unfold object, mesh, Builder.newMesh. cbn.
    now rewrite Hn, Hne.
  - intros Hn. unfold object, mesh, Builder.newMesh. cbn. now rewrite Hn.
Qed.

(** ** Joint values set by name on a built robot *)

(** X26. [robot.setJointValues ({ k: v })] on the robot a build
    returns, for a name [k] of [robot.joints]: the joint object of [k]
    is the one made from a joint record of the model called [k], and
    after the call its value is [v] brought inside the limits of that
    record; a revolute or continuous joint is turned from the origin
    rotation of the record about its axis by that value and stays at the
    origin position; a prismatic joint is moved from the origin
    position along its axis by that value and keeps the origin
    rotation; a joint of another type stays at the origin pose.  The
    axis is the one of the record brought to length one, [(0, 0, 1)]
    without one.  No other object of the scene changes, and neither map
    does. *)
Theorem setJointValues_poses_a_built_joint :
  forall (fuel : nat) (model : RobotModel) (options : Builder.BuildRobotOptions)
         (robot : Builder.URDFRobot) (k : string) (id : Builder.ObjectId) (v : R),
    Builder.buildRobotStructure fuel model options = Some robot ->
    JS.get (Builder.joints robot) k = Some id ->
    let robot' := Builder.setJointValues [(k, v)] robot in
    exists jointData j',
      In jointData (JS.values (joints model))
      /\ j_name jointData = k
      /\ Builder.jointAt robot' id = Some j'
      /\ Builder.jointData j' = jointData
      /\ (let applied := clamped (limits jointData) v in
          let axis := match axis jointData with
                      | Some a => normalize (a_xyz a)
                      | None => mkVector3 0 0 1
                      end in
          let originQuaternion :=
            setFromEuler (Builder.rpyToEuler (rpy (origin jointData))) in
          Builder.jointValue j' = applied
          /\ (j_type jointData = "revolute" \/ j_type jointData = "continuous" ->
              orientation j' = multiply originQuaternion (setFromAxisAngle axis applied)
              /\ localPosition j' = xyz (origin jointData))
          /\ (j_type jointData = "prismatic" ->
              localPosition j' = addScaledVector (xyz (origin jointData)) axis applied
              /\ orientation j' = originQuaternion)
          /\ (j_type jointData <> "revolute" -> j_type jointData <> "continuous" ->
              j_type jointData <> "prismatic" ->
              localPosition j' = xyz (origin jointData)
              /\ orientation j' = originQuaternion))
      /\ (forall id', id' <> id ->
                      nth_error (Builder.objects robot') id'
                      = nth_error (Builder.objects robot) id')
      /\ Builder.joints robot' = Builder.joints robot
      /\ Builder.links robot' = Builder.links robot.
Proof.
  intros fuel model options robot k id v Hbuild Hget robot'.
  destruct (buildRobotStructure_mapsAgree fuel model options robot Hbuild) as [_ HJ].
  destruct (HJ k id Hget) as (j & Hat & _ & _ & Hname & Hin).
  destruct (buildRobotStructure_jointsAsBuilt fuel model options robot Hbuild id j Hat)
    as (Hclosure & _ & _ & _ & Haxis & _ & Hpos & Hori).
  destruct (setJointValues_step k v robot) as (EJ & EL & EN).
  fold robot' in EJ, EL, EN.
  assert (Hnode : nth_error (Builder.objects robot) id = Some (Builder.JointNode j)).
  { unfold Builder.jointAt in Hat.
    destruct (nth_error (Builder.objects robot) id) as [[o | o ? ? | o ? ? | j0]|];
      try discriminate Hat.
    now injection Hat as ->. }
  exists (Builder.jointData j), (Builder.setJointValue v j).
  split; [exact Hin|]. split; [exact Hname|]. split.
  { unfold Builder.jointAt. rewrite EN, Hnode. unfold valuesFor.
    cbn [flat_map fst snd]. rewrite Hget, Nat.eqb_refl. reflexivity. }
  split; [apply setJointValue_frame|]. split.
  { cbv zeta. split; [apply setJointValue_jointValue|].
    unfold builtClosure in Hclosure. rewrite <- Hclosure, <- Haxis.
    split; [|split].
    - intros Htype. rewrite <- Hpos. now apply setJointValue_rotary.
    - intros Htype. rewrite <- clampToLimits_clamped, <- Hori.
      unfold Builder.setJointValue, localPosition, orientation.
      rewrite Htype. split; reflexivity.
    - intros H1 H2 H3. rewrite <- Hpos, <- Hori.
      apply String.eqb_neq in H1, H2, H3.
      unfold Builder.setJointValue, localPosition, orientation.
      rewrite H1, H2, H3. split; reflexivity. }
  split; [|split; [exact EJ | exact EL]].
  intros id' Hne. rewrite EN. unfold valuesFor. cbn [flat_map fst snd].
  rewrite Hget. apply Nat.eqb_neq in Hne. rewrite Nat.eqb_sym, Hne.
  destruct (nth_error (Builder.objects robot) id') as [[o | o ? ? | o ? ? | j0]|];
    reflexivity.
Qed.

Lemma setJointValues_poses_a_built_joint_witness :
  exists j', Builder.jointAt (Builder.setJointValues [("wrist", 2)] armRobot) 4%nat
             = Some j'
             /\ j_name (Builder.jointData j') = "wrist"
             /\ Builder.jointValue j' = clamped (limits (Builder.jointData j')) 2.
Proof.
  destruct (setJointValues_poses_a_built_joint
              3 (modelOf armDocument) plainOptions armRobot "wrist" 4%nat 2
              armRobot_built (proj1 (proj2 armRobot_maps)))
    as (jointData & j' & _ & Hname & Hat & Hdata & Hpose & _).
  exists j'. split; [exact Hat|]. rewrite Hdata.
  split; [exact Hname | exact (proj1 Hpose)].
Defined.

(** ** The options of the parser *)

Lemma forOf_ext {A S} (xs : list A) (body body' : S -> A -> Result S) (s : S) :
  (forall acc x, body acc x = body' acc x) ->
  forOf xs body s = forOf xs body' s.
Proof.
  intros H. revert s. induction xs as [|x xs IH]; intros s; [reflexivity|].
  cbn [forOf]. rewrite H. destruct (body' s x); [apply IH | reflexivity].
Qed.

Section PathOptions.

Variable parseFloat : string -> R.
Variables options options' : ParseURDFOptions.
Hypothesis samePackageMap : packageMap options = packageMap options'.
Hypothesis sameWorkingPath : workingPath options = workingPath options'.

Lemma resolveFilename_paths filename :
  resolveFilename options filename = resolveFilename options' filename.
Proof. unfold resolveFilename. now rewrite samePackageMap, sameWorkingPath. Qed.

Lemma parseGeometry_paths element :
  parseGeometry parseFloat element options = parseGeometry parseFloat element options'.
Proof.
  unfold parseGeometry.
  destruct (getChild element "box"), (getChild element "cylinder"),
    (getChild element "sphere"), (getChild element "mesh"),
    (getChild element "capsule"); try reflexivity;
    cbv zeta; now rewrite resolveFilename_paths.
Qed.

Lemma parseVisual_paths element :
  parseVisual parseFloat element options = parseVisual parseFloat element options'.
Proof.
  unfold parseVisual. destruct (getChild element "geometry"); [|reflexivity].
  now rewrite parseGeometry_paths.
Qed.

Lemma parseCollision_paths element :
  parseCollision parseFloat element options = parseCollision parseFloat element options'.
Proof.
  unfold parseCollision. destruct (getChild element "geometry"); [|reflexivity].
  now rewrite parseGeometry_paths.
Qed.

Lemma parseLink_paths element :
  parseLink parseFloat element options = parseLink parseFloat element options'.
Proof.
  unfold parseLink.
  destruct (negb _); [reflexivity|].
  destruct (match getChild element "inertial" with Some _ => _ | None => _ end);
    [|reflexivity].
  cbn [bind].
  rewrite (forOf_ext (getChildren element "visual") _
             (fun acc visualEl =>
                v <- parseVisual parseFloat visualEl options' ;; Ok (acc ++ [v])%list))
    by (intros acc x; now rewrite parseVisual_paths).
  destruct (forOf (getChildren element "visual") _ _); [|reflexivity].
  cbn [bind].
  rewrite (forOf_ext (getChildren element "collision") _
             (fun acc collisionEl =>
                c <- parseCollision parseFloat collisionEl options' ;;
                Ok (acc ++ [c])%list))
    by (intros acc x; now rewrite parseCollision_paths).
  destruct (forOf (getChildren element "collision") _ _); [|reflexivity].
  cbn [bind].
  destruct (getChild element "self_collision_checking") as [selfCollisionEl|];
    [|reflexivity].
  destruct (getChild selfCollisionEl "geometry"); [|reflexivity].
  now rewrite parseGeometry_paths.
Qed.

End PathOptions.

(** X27. Of its options [parseURDF] reads [packageMap] and
    [workingPath] alone, and those only to resolve the file names of
    meshes: two calls whose options agree on these two give the same
    model or throw the same error, whatever [ignoreGazebo] and
    [ignoreTransmission] say. *)
Theorem parseURDF_reads_only_the_path_options :
  forall (parseFloat : string -> R) (parsed : XMLElement)
         (options options' : ParseURDFOptions),
    packageMap options = packageMap options' ->
    workingPath options = workingPath options' ->
    parseURDF parseFloat parsed options = parseURDF parseFloat parsed options'.
Proof.
  intros parseFloat parsed options options' Hmap Hpath.
  unfold parseURDF.
  destruct (XML.orNull (XML.member parsed "robot")) as [robotEl|]; [|reflexivity].
  cbv zeta.
  destruct (forOf (getChildren robotEl "material") _ _); [|reflexivity].
  cbn [bind].
  rewrite (forOf_ext (getChildren robotEl "link") _
             (fun acc linkEl =>
                link <- parseLink parseFloat linkEl options' ;;
                Ok (JS.set acc (l_name link) link)))
    by (intros acc x; now rewrite (parseLink_paths parseFloat options options' Hmap Hpath)).
  reflexivity.
Qed.

Lemma parseURDF_reads_only_the_path_options_witness :
  parseURDF parseDecimal armDocument (mkParseURDFOptions None None (Some false) (Some false))
  = parseURDF parseDecimal armDocument noOptions.
Proof.
  apply (parseURDF_reads_only_the_path_options
           parseDecimal armDocument
           (mkParseURDFOptions None None (Some false) (Some false)) noOptions);
    reflexivity.
Defined.

(** ** The orientation of a turning joint *)

Lemma setJointValue_after_all v vs n :
  Builder.setJointValue v (setJointValueAll vs n) = Builder.setJointValue v n.
Proof.
  revert n. induction vs as [|w vs IH]; intros n; [reflexivity|].
  change (setJointValueAll (w :: vs) n)
    with (setJointValueAll vs (Builder.setJointValue w n)).
  rewrite IH. apply setJointValue_last_wins.
Qed.

(** C2. For every revolute or continuous joint object of a built robot
    and every value, whatever values were set before: the joint object
    is built with the origin rotation of its joint as orientation, and
    after [setJointValue] its orientation is that origin rotation
    multiplied on the right by the rotation about the axis of the joint
    (the declared axis brought to length one, [(0, 0, 1)] without one)
    by the applied value, the value the node stores: the request brought
    inside the declared limits.  The composite is computed from the
    origin rotation alone: it replaces the orientation the node had, and
    the position stays the origin position.  Unless the declared axis is
    the zero vector, which is no axis, the composite is a unit
    quaternion, and as a map on vectors it turns about the axis first,
    in the joint's own frame, and applies the origin rotation (roll
    about X, then pitch about Y, then yaw about Z of the parent) to the
    result. *)
Theorem setJointValue_rotary_orientation :
  forall (fuel : nat) (model : RobotModel) (options : Builder.BuildRobotOptions)
         (robot : Builder.URDFRobot) (id : Builder.ObjectId) (n : Builder.URDFJoint)
         (earlier : list R) (v : R),
    Builder.buildRobotStructure fuel model options = Some robot ->
    Builder.jointAt robot id = Some n ->
    typeOf n = "revolute" \/ typeOf n = "continuous" ->
    let jointData := Builder.jointData n in
    let originRotation := setFromEuler (Builder.rpyToEuler (rpy (origin jointData))) in
    let axis := match Types.axis jointData with
                | Some a => normalize (a_xyz a)
                | None => mkVector3 0 0 1
                end in
    let n' := Builder.setJointValue v (setJointValueAll earlier n) in
    let applied := Builder.jointValue n' in
    orientation n = originRotation
    /\ applied = clamped (limits jointData) v
    /\ orientation n' = multiply originRotation (setFromAxisAngle axis applied)
    /\ localPosition n' = xyz (origin jointData)
    /\ ((forall a, Types.axis jointData = Some a -> lengthSq (a_xyz a) <> 0) ->
        qLengthSq (orientation n') = 1
        /\ forall x,
            applyQuaternion x (orientation n')
            = applyQuaternion (rotAxis axis applied x) originRotation
            /\ applyQuaternion x (orientation n')
               = rotZ (y (rpy (origin jointData)))
                      (rotY (p (rpy (origin jointData)))
                            (rotX (r (rpy (origin jointData)))
                                  (rotAxis axis applied x)))).
Proof.
  intros fuel model options robot id n earlier v Hbuild Hat Htype
         jointData originRotation axis n' applied.
  destruct (buildRobotStructure_jointsAsBuilt fuel model options robot Hbuild id n Hat)
    as (Hclosure & _ & _ & _ & Haxis & _ & Hpos & Hori).
  unfold builtClosure in Hclosure. fold jointData in Hclosure, Haxis, Hpos.
  fold originRotation in Hclosure. fold axis in Haxis.
  assert (En : n' = Builder.setJointValue v n) by apply setJointValue_after_all.
  destruct (setJointValue_rotary v n Htype) as [Hq Hp].
  assert (Ha : applied = clamped (limits jointData) v).
  { unfold applied. rewrite En. apply setJointValue_jointValue. }
  assert (Ho : orientation n' = multiply originRotation (setFromAxisAngle axis applied)).
  { rewrite Ha, En, Hq, Hclosure, Haxis. reflexivity. }
  split; [now rewrite Hori|]. split; [exact Ha|]. split; [exact Ho|].
  split; [now rewrite En, Hp|].
  intros Hnz.
  assert (Hunit : lengthSq axis = 1).
  { unfold axis. destruct (Types.axis jointData) as [a|] eqn:E.
    - apply lengthSq_normalize. now apply Hnz.
    - unfold lengthSq; cbn [vx vy vz]. ring. }
  assert (Hqa : qLengthSq (setFromAxisAngle axis applied) = 1)
    by now apply qLengthSq_setFromAxisAngle.
  assert (Hqo : qLengthSq originRotation = 1) by apply qLengthSq_setFromEuler.
  split; [rewrite Ho, qLengthSq_multiply, Hqo, Hqa; ring|].
  intros x.
  assert (Hx : applyQuaternion x (orientation n')
               = applyQuaternion (rotAxis axis applied x) originRotation).
  { rewrite Ho, applyQuaternion_multiply by assumption.
    now rewrite setFromAxisAngle_rotAxis. }
  split; [exact Hx|]. rewrite Hx. apply rpyToEuler_rotation.
Qed.

Lemma turnedRobot_built :
  Builder.buildRobotStructure 2%nat turnedModel plainOptions = Some turnedRobot.
Proof.
  unfold turnedRobot, builtOf.
  assert (H : option_map (fun _ => tt)
                         (Builder.buildRobotStructure 2%nat turnedModel plainOptions)
              = Some tt) by (lazy; reflexivity).
  destruct (Builder.buildRobotStructure 2%nat turnedModel plainOptions);
    [reflexivity | discriminate H].
Qed.

Lemma turnedRobot_joint :
  option_map Builder.jointData (Builder.jointAt turnedRobot 2%nat) = Some turnedJoint.
Proof. lazy. reflexivity. Qed.

Lemma normalize_X2 : normalize (mkVector3 2 0 0) = mkVector3 1 0 0.
Proof.
  unfold normalize, divideScalar, multiplyScalar, vlength. cbn [vx vy vz].
  replace (2 * 2 + 0 * 0 + 0 * 0) with (2 * 2) by ring.
  rewrite sqrt_square by lra.
  destruct (Req_dec_T 2 0) as [E | _]; [lra|].
  f_equal; field.
Qed.

(** The joint of [turnedRobot] set to a quarter turn sends [(0, 1, 0)]
    to [(0, 0, 1)]: about the axis X it goes to [(0, 0, 1)], which the
    yaw of the origin leaves in place.  In the other order the yaw
    would send it to [(-1, 0, 0)] and the turn about X would leave it
    there. *)
Lemma setJointValue_rotary_orientation_witness :
  exists n,
    Builder.jointAt turnedRobot 2%nat = Some n
    /\ applyQuaternion (mkVector3 0 1 0) (orientation (Builder.setJointValue (PI / 2) n))
       = mkVector3 0 0 1
    /\ rotAxis (mkVector3 1 0 0) (PI / 2) (rotZ (PI / 2) (mkVector3 0 1 0))
       = mkVector3 (-1) 0 0.
Proof.
  pose proof turnedRobot_joint as Hdata.
  destruct (Builder.jointAt turnedRobot 2%nat) as [n|] eqn:Hat; [|discriminate Hdata].
  injection Hdata as Hdata.
  exists n. split; [reflexivity|]. split.
  - assert (Htype : typeOf n = "revolute" \/ typeOf n = "continuous")
      by (left; unfold typeOf; rewrite Hdata; reflexivity).
    destruct (setJointValue_rotary_orientation
                2%nat turnedModel plainOptions turnedRobot 2%nat n [] (PI / 2)
                turnedRobot_built Hat Htype)
      as (_ & Ha & _ & _ & Hturn).
    cbv zeta in Ha, Hturn. change (setJointValueAll [] n) with n in Ha, Hturn.
    rewrite Hdata in Ha, Hturn.
    assert (Hnz : forall a, axis turnedJoint = Some a -> lengthSq (a_xyz a) <> 0).
    { intros a [= <-]. unfold lengthSq. cbn [a_xyz vx vy vz]. lra. }
    destruct (Hturn Hnz) as [_ Hx]. destruct (Hx (mkVector3 0 1 0)) as [_ ->].
    rewrite Ha. cbn [turnedJoint axis limits origin rpy a_xyz r p y clamped].
    rewrite normalize_X2.
    unfold rotAxis, rotX, rotY, rotZ, dot, cross. cbn [vx vy vz].
    rewrite cos_0, sin_0, cos_PI2, sin_PI2. f_equal; ring.
  - unfold rotAxis, rotZ, dot, cross. cbn [vx vy vz].
    rewrite cos_PI2, sin_PI2. f_equal; ring.
Defined.
